(** * AI-Traffic-Violation-Detector: tracking, speed estimation and rules

    A shallow embedding of [src/tracking.py] and [src/violations.py],
    of the class filters and the helmet detector of [src/detection.py],
    of [process_frame] of [src/main.py] up to evidence generation, of the
    evidence file names ([src/evidence.py] writes them, [src/dashboard.py]
    reads them) and of the evidence manager, together with the properties
    stated about them.

    Conventions.
    - Python [int] is [Z]; pixel coordinates are frame coordinates, far
      from any machine-integer bound, so NumPy's integer subtraction is
      the subtraction of [Z].
    - Python [float] is kept abstract behind the interface [Arith]: the
      code is written once and read at two instances, IEEE binary64
      (Rocq's primitive floats), which is what the program computes
      with, and the real numbers (the ideal value of every operation).
      What a call returns as a speed, and what the speed rule decides
      from it, is stated in binary64, and the distance of the returned
      speed to its ideal value is bounded from the IEEE specification of
      the operations; the real numbers serve where no outcome turns on
      rounding.
    - [datetime] is a number of microseconds; the difference of two of
      them is a [timedelta], again in microseconds.
    - [random.random()] and [datetime.now()] read from an explicit
      [World]: two tapes and the number of readings taken so far.
    - A Python exception is the left injection of the result. *)

From Stdlib Require Import ZArith List Floats Uint63 String Ascii DecimalString Reals Lra Lia.
From stdpp Require Import gmap list sorting.

Local Open Scope Z_scope.

(** ** Numbers *)

Class Arith (F : Type) : Type := {
  of_int : Z -> F;
  fadd : F -> F -> F;
  fmul : F -> F -> F;
  fdiv : F -> F -> F;
  fsqrt : F -> F;
  fltb : F -> F -> bool;
  feqb : F -> F -> bool;
  lit_0_1 : F;
  lit_3_6 : F;
  lit_0_3 : F;
  lit_0_6 : F
}.

Definition Rltb (x y : R) : bool := if Rlt_dec x y then true else false.
Definition Reqb (x y : R) : bool := if Req_dec_T x y then true else false.

#[export] Instance Arith_R : Arith R := {
  of_int := IZR;
  fadd := Rplus;
  fmul := Rmult;
  fdiv := Rdiv;
  fsqrt := sqrt;
  fltb := Rltb;
  feqb := Reqb;
  lit_0_1 := 0.1%R;
  lit_3_6 := 3.6%R;
  lit_0_3 := 0.3%R;
  lit_0_6 := 0.6%R
}.

(** [float(z)] for an integer below 2^63 in absolute value. *)
Definition float_of_int (z : Z) : float :=
  if z <? 0 then PrimFloat.opp (PrimFloat.of_uint63 (Uint63.of_Z (- z)))
  else PrimFloat.of_uint63 (Uint63.of_Z z).

#[export] Instance Arith_float : Arith float := {
  of_int := float_of_int;
  fadd := PrimFloat.add;
  fmul := PrimFloat.mul;
  fdiv := PrimFloat.div;
  fsqrt := PrimFloat.sqrt;
  fltb := PrimFloat.ltb;
  feqb := PrimFloat.eqb;
  lit_0_1 := 0x1.999999999999ap-4%float;
  lit_3_6 := 0x1.ccccccccccccdp+1%float;
  lit_0_3 := 0x1.3333333333333p-2%float;
  lit_0_6 := 0x1.3333333333333p-1%float
}.

(** ** Data model *)

Abbreviation BBox := (Z * Z * Z * Z)%type (only parsing).
Abbreviation Point := (Z * Z)%type (only parsing).

(** A detection as [ObjectDetector.detect_objects] builds it. The
    tracker reads ['bbox'] only; [detect_triple_riding] reads
    ['class_id'] through [dict.get], hence the option. *)
Record Detection : Type := {
  det_bbox : BBox;
  det_class_id : option Z;
  det_confidence : float;
  det_label : string
}.

(** A tracked object: the dictionary the trackers append. The keys
    ['original_detection'] and ['on_motorcycle'] are read with
    [dict.get], so they may be absent. *)
Record Tracked : Type := {
  trk_id : Z;
  trk_bbox : BBox;
  trk_centroid : Point;
  original_detection : option Detection;
  on_motorcycle : option bool
}.

(** [((bbox[0] + bbox[2]) // 2, (bbox[1] + bbox[3]) // 2)] *)
Definition bbox_centroid (bbox : BBox) : Point :=
  let '(b0, b1, b2, b3) := bbox in ((b0 + b2) / 2, (b1 + b3) / 2).

(** The dictionary appended for a detection that receives id [i]. *)
Definition tracked_of (i : Z) (det : Detection) : Tracked :=
  {| trk_id := i;
     trk_bbox := det_bbox det;
     trk_centroid := bbox_centroid (det_bbox det);
     original_detection := Some det;
     on_motorcycle := None |}.

(** ** tracking.py *)

Module VehicleTracker.

Record t : Type := {
  tracked_vehicles : gmap Z Tracked;
  next_id : Z
}.

(** [__init__(self, max_age=30, n_init=3)]: both arguments are dropped. *)
Definition init (max_age n_init : Z) : t :=
  {| tracked_vehicles := ∅; next_id := 0 |}.

(** One iteration of the loop of [update]. *)
Definition step (acc : list Tracked * t) (det : Detection) : list Tracked * t :=
  let '(tracked_objects, self) := acc in
  let self' := {| tracked_vehicles := tracked_vehicles self;
                  next_id := next_id self + 1 |} in
  (tracked_objects ++ [tracked_of (next_id self') det], self').

Definition update {Frame : Type} (self : t) (detections : list Detection)
    (frame : Frame) : list Tracked * t :=
  fold_left step detections ([], self).

(** Successive calls of [update] on one tracker, one per frame. *)
Fixpoint run {Frame : Type} (self : t) (frames : list (list Detection * Frame))
    : list (list Tracked) * t :=
  match frames with
  | [] => ([], self)
  | (detections, frame) :: rest =>
      let '(out, self1) := update self detections frame in
      let '(outs, self2) := run self1 rest in
      (out :: outs, self2)
  end.

End VehicleTracker.

Module RiderTracker.

Record t : Type := {
  tracked_riders : gmap Z Tracked;
  next_id : Z
}.

Definition init (max_age n_init : Z) : t :=
  {| tracked_riders := ∅; next_id := 0 |}.

Definition step (acc : list Tracked * t) (det : Detection) : list Tracked * t :=
  let '(tracked_riders_out, self) := acc in
  let self' := {| tracked_riders := tracked_riders self;
                  next_id := next_id self + 1 |} in
  (tracked_riders_out ++ [tracked_of (next_id self') det], self').

Definition update {Frame : Type} (self : t) (detections : list Detection)
    (frame : Frame) : list Tracked * t :=
  fold_left step detections ([], self).

Fixpoint run {Frame : Type} (self : t) (frames : list (list Detection * Frame))
    : list (list Tracked) * t :=
  match frames with
  | [] => ([], self)
  | (detections, frame) :: rest =>
      let '(out, self1) := update self detections frame in
      let '(outs, self2) := run self1 rest in
      (out :: outs, self2)
  end.

End RiderTracker.

(** ** Effects: exceptions, state, and the outside world *)

Inductive exn : Type := KeyError | ZeroDivisionError.

(** A computation over a state [S] that returns an [A] or raises. *)
Definition M (S A : Type) : Type := S -> exn + (A * S).

Definition ret {S A : Type} (a : A) : M S A := fun s => inr (a, s).

Definition bind {S A B : Type} (m : M S A) (k : A -> M S B) : M S B :=
  fun s => match m s with
           | inl e => inl e
           | inr (a, s') => k a s'
           end.

Notation "'let*' x ':=' m 'in' k" := (bind m (fun x => k))
  (at level 10, x name, m at level 100, k at level 200).

(** Run a computation on the first (second) component of a pair of states. *)
Definition on_fst {S T A : Type} (m : M S A) : M (S * T) A :=
  fun st => match m st.1 with
            | inl e => inl e
            | inr (a, s') => inr (a, (s', st.2))
            end.

Definition on_snd {S T A : Type} (m : M T A) : M (S * T) A :=
  fun st => match m st.2 with
            | inl e => inl e
            | inr (a, t') => inr (a, (st.1, t'))
            end.

(** [acc = init; for x in xs: acc = body(acc, x)] *)
Fixpoint for_each {S A B : Type} (xs : list A) (body : B -> A -> M S B) (acc : B)
    : M S B :=
  match xs with
  | [] => ret acc
  | x :: rest => let* acc' := body acc x in for_each rest body acc'
  end.

(** Microseconds since the epoch. *)
Abbreviation datetime := Z (only parsing).

(** The sources of non-determinism: what [random.random()] and
    [datetime.now()] will return, and how many readings were taken. *)
Record World (F : Type) : Type := {
  random_tape : nat -> F;
  random_calls : nat;
  clock_tape : nat -> datetime;
  clock_calls : nat
}.
Arguments random_tape {F} _ _.
Arguments random_calls {F} _.
Arguments clock_tape {F} _ _.
Arguments clock_calls {F} _.

(** The world after one more reading of the random source (of the clock). *)
Definition advance_random {F : Type} (w : World F) : World F :=
  {| random_tape := random_tape w;
     random_calls := S (random_calls w);
     clock_tape := clock_tape w;
     clock_calls := clock_calls w |}.

Definition advance_clock {F : Type} (w : World F) : World F :=
  {| random_tape := random_tape w;
     random_calls := random_calls w;
     clock_tape := clock_tape w;
     clock_calls := S (clock_calls w) |}.

(** [random.random()] *)
Definition random {F : Type} : M (World F) F :=
  fun w => inr (random_tape w (random_calls w), advance_random w).

(** [datetime.now()] *)
Definition now {F : Type} : M (World F) datetime :=
  fun w => inr (clock_tape w (clock_calls w), advance_clock w).

(** ** violations.py *)

(** The dictionaries the rules append, one constructor per ['type']. *)
Inductive Violation (F : Type) : Type :=
| signal_jump (vehicle_id : Z) (timestamp : datetime) (evidence : BBox)
| helmetless_riding (rider_id : Z) (timestamp : datetime) (evidence : BBox)
| overspeeding (vehicle_id : Z) (speed : F) (timestamp : datetime) (evidence : BBox)
| wrong_lane (vehicle_id : Z) (timestamp : datetime) (evidence : BBox)
| triple_riding (vehicle_id : Z) (rider_count : Z) (timestamp : datetime)
    (evidence : BBox).
Arguments signal_jump {F} _ _ _.
Arguments helmetless_riding {F} _ _ _.
Arguments overspeeding {F} _ _ _ _.
Arguments wrong_lane {F} _ _ _.
Arguments triple_riding {F} _ _ _ _.

(** The attributes the rules read with [getattr(self.config, name, default)]. *)
Record Config : Type := {
  OVERSPEED_THRESHOLD : option Z;
  TRIPLE_RIDING_MAX_PERSONS : option Z
}.

Definition getattr (attribute : option Z) (default : Z) : Z :=
  match attribute with Some v => v | None => default end.

(** [Config] of [TrafficViolationDetector._load_config] in main.py. *)
Definition main_config : Config :=
  {| OVERSPEED_THRESHOLD := Some 60; TRIPLE_RIDING_MAX_PERSONS := Some 3 |}.

(** An entry of [helmet_detections], as [HelmetDetector.detect_helmets]
    builds it. *)
Record HelmetDetection : Type := {
  person_id : Z;
  helmet_detected : bool
}.

Record SpeedEstimator : Type := {
  previous_positions : gmap Z Point;
  previous_times : gmap Z datetime
}.

(** [SpeedEstimator.__init__] *)
Definition SpeedEstimator_init : SpeedEstimator :=
  {| previous_positions := ∅; previous_times := ∅ |}.

Section Violations.
Context {F : Type} `{Arith F}.

Record ViolationDetector : Type := {
  config : Config;
  violations : list (Violation F)
}.

(** [ViolationDetector.__init__] *)
Definition ViolationDetector_init (cfg : Config) : ViolationDetector :=
  {| config := cfg; violations := [] |}.

(** [np.array(a) - np.array(b)] *)
Definition array_sub (a b : Point) : Point := (a.1 - b.1, a.2 - b.2).

(** [np.linalg.norm] of an integer vector: the entries are converted to
    float, then [sqrt(x.dot(x))]. *)
Definition norm (v : Point) : F :=
  fsqrt (fadd (fmul (of_int v.1) (of_int v.1)) (fmul (of_int v.2) (of_int v.2))).

(** [timedelta.total_seconds()] *)
Definition total_seconds (td : Z) : F := fdiv (of_int td) (of_int 1000000).

(** The division of the source, with a zero divisor made visible as an
    exceptional outcome (NumPy itself would warn and yield inf or nan). *)
Definition checked_div (x y : F) : exn + F :=
  if feqb y (of_int 0) then inl ZeroDivisionError else inr (fdiv x y).

Definition estimate_speed (vehicle_id : Z) (current_pos : Point)
    (current_time : datetime) : M SpeedEstimator F :=
  fun self =>
    let record :=
      inr (of_int 0,
           {| previous_positions := <[vehicle_id := current_pos]> (previous_positions self);
              previous_times := <[vehicle_id := current_time]> (previous_times self) |}) in
    match previous_positions self !! vehicle_id with
    | Some prev_pos =>
        match previous_times self !! vehicle_id with
        | None => inl KeyError
        | Some prev_time =>
            let distance_pixels := norm (array_sub current_pos prev_pos) in
            let distance_meters := fmul distance_pixels lit_0_1 in
            let time_diff := total_seconds (current_time - prev_time) in
            if fltb (of_int 0) time_diff then
              match checked_div distance_meters time_diff with
              | inl e => inl e
              | inr speed_mps =>
                  let speed_kmh := fmul speed_mps lit_3_6 in
                  inr (speed_kmh, self)
              end
            else record
        end
    | None => record
    end.

(** Placeholders of the source: both always answer [True]. *)
Definition _is_red_light (traffic_light_bbox : BBox) : bool := true.

Definition _is_in_correct_lane {L : Type} (centroid : Point) (lane_lines : list L)
    : bool := true.

Definition _count_riders_near_vehicle (vehicle : Tracked) (rider_tracks : list Tracked)
    : Z :=
  let vehicle_center := trk_centroid vehicle in
  fold_left
    (fun count rider =>
       let rider_center := trk_centroid rider in
       let distance := norm (array_sub vehicle_center rider_center) in
       if fltb distance (of_int 100) then count + 1 else count)
    rider_tracks 0.

Definition signal_jump_body (traffic_light_bbox : option BBox) (stop_line_y : Z)
    (violations : list (Violation F)) (vehicle : Tracked)
    : M (World F) (list (Violation F)) :=
  let vehicle_y := (trk_centroid vehicle).2 in
  match traffic_light_bbox with
  | Some light =>
      if _is_red_light light then
        if Z.abs (vehicle_y - stop_line_y) <? 50 then
          let* r := random in
          if fltb r lit_0_3 then
            let* timestamp := now in
            ret (violations ++ [signal_jump (trk_id vehicle) timestamp (trk_bbox vehicle)])
          else ret violations
        else ret violations
      else ret violations
  | None => ret violations
  end.

Definition detect_signal_jump (self : ViolationDetector) (vehicle_tracks : list Tracked)
    (traffic_light_bbox : option BBox) (stop_line_y : Z)
    : M (World F) (list (Violation F)) :=
  for_each vehicle_tracks (signal_jump_body traffic_light_bbox stop_line_y) [].

Definition helmetless_body (helmet_person_ids : list Z)
    (violations : list (Violation F)) (rider : Tracked)
    : M (World F) (list (Violation F)) :=
  if default true (on_motorcycle rider) then
    let* r := random in
    if fltb r lit_0_6 then
      let* timestamp := now in
      ret (violations ++ [helmetless_riding (trk_id rider) timestamp (trk_bbox rider)])
    else ret violations
  else ret violations.

Definition detect_helmetless_riding (self : ViolationDetector)
    (rider_tracks : list Tracked) (helmet_detections : list HelmetDetection)
    : M (World F) (list (Violation F)) :=
  let helmet_person_ids :=
    person_id <$> filter (fun h => helmet_detected h = true) helmet_detections in
  for_each rider_tracks (helmetless_body helmet_person_ids) [].

Definition overspeeding_body (self : ViolationDetector) (frame_time : datetime)
    (violations : list (Violation F)) (vehicle : Tracked)
    : M (SpeedEstimator * World F) (list (Violation F)) :=
  let* speed :=
    on_fst (estimate_speed (trk_id vehicle) (trk_centroid vehicle) frame_time) in
  let threshold := getattr (OVERSPEED_THRESHOLD (config self)) 60 in
  if fltb (of_int threshold) speed && fltb (of_int 5) speed then
    let* timestamp := on_snd now in
    ret (violations ++ [overspeeding (trk_id vehicle) speed timestamp (trk_bbox vehicle)])
  else ret violations.

(** The estimator is an argument of the call and is mutated by it: it is
    the first component of the state. *)
Definition detect_overspeeding (self : ViolationDetector) (vehicle_tracks : list Tracked)
    (frame_time : datetime) : M (SpeedEstimator * World F) (list (Violation F)) :=
  for_each vehicle_tracks (overspeeding_body self frame_time) [].

Definition wrong_lane_body {L : Type} (lane_lines : option (list L))
    (violations : list (Violation F)) (vehicle : Tracked)
    : M (World F) (list (Violation F)) :=
  let centroid := trk_centroid vehicle in
  match lane_lines with
  | Some (l :: ls) =>
      if negb (_is_in_correct_lane centroid (l :: ls)) then
        let* timestamp := now in
        ret (violations ++ [wrong_lane (trk_id vehicle) timestamp (trk_bbox vehicle)])
      else ret violations
  | _ => ret violations
  end.

Definition detect_wrong_lane {L : Type} (self : ViolationDetector)
    (vehicle_tracks : list Tracked) (lane_lines : option (list L))
    : M (World F) (list (Violation F)) :=
  for_each vehicle_tracks (wrong_lane_body lane_lines) [].

(** [vehicle.get('original_detection', {}).get('class_id') == 3] *)
Definition is_motorcycle (vehicle : Tracked) : bool :=
  match original_detection vehicle with
  | Some det => match det_class_id det with
                | Some c => c =? 3
                | None => false
                end
  | None => false
  end.

Definition triple_riding_body (self : ViolationDetector) (rider_tracks : list Tracked)
    (violations : list (Violation F)) (vehicle : Tracked)
    : M (World F) (list (Violation F)) :=
  if is_motorcycle vehicle then
    let riders_near_vehicle := _count_riders_near_vehicle vehicle rider_tracks in
    if getattr (TRIPLE_RIDING_MAX_PERSONS (config self)) 2 <? riders_near_vehicle then
      let* timestamp := now in
      ret (violations ++ [triple_riding (trk_id vehicle) riders_near_vehicle timestamp
                            (trk_bbox vehicle)])
    else ret violations
  else ret violations.

Definition detect_triple_riding (self : ViolationDetector) (vehicle_tracks : list Tracked)
    (rider_tracks : list Tracked) : M (World F) (list (Violation F)) :=
  for_each vehicle_tracks (triple_riding_body self rider_tracks) [].

End Violations.

(** ** Notions used in the statements *)

(** What a call of [update] amounts to: detection number [k] (from 0)
    receives id [n + k + 1], where [n] is the counter before the call. *)
Definition assign_ids (n : Z) (detections : list Detection) : list Tracked :=
  imap (fun k det => tracked_of (n + Z.of_nat k + 1) det) detections.

(** The ids carried by the output of call number [k] of a run. *)
Definition ids_at (outs : list (list Tracked)) (k : nat) : list Z :=
  trk_id <$> (outs !!! k).

(** What a run amounts to: the counter is threaded through the calls. *)
Fixpoint assign_run (n : Z) (batches : list (list Detection)) : list (list Tracked) :=
  match batches with
  | [] => []
  | dets :: rest => assign_ids n dets :: assign_run (n + Z.of_nat (length dets)) rest
  end.

(** All ids emitted over a run, in the order of emission. *)
Definition lifetime_ids (outs : list (list Tracked)) : list Z :=
  trk_id <$> concat outs.

(** The number of detections in a sequence of frames. *)
Definition detection_count {Frame : Type} (frames : list (list Detection * Frame)) : nat :=
  length (concat (fst <$> frames)).

(** One physical object followed from frame to frame: each call of
    [update] receives the object's detection of that frame and nothing
    else. *)
Definition single_object_frames (track : list Detection) : list (list Detection * unit) :=
  (fun det => ([det], tt)) <$> track.

(** Squared distance of two centroids, in pixels. *)
Definition sq_dist (p q : Point) : Z :=
  (p.1 - q.1) * (p.1 - q.1) + (p.2 - q.2) * (p.2 - q.2).

(** The object moves by less than [gate] pixels between consecutive frames. *)
Definition moves_within_gate (gate : Z) (track : list Detection) : Prop :=
  ∀ (k : nat) (d d' : Detection),
    track !! k = Some d → track !! S k = Some d' →
    sq_dist (bbox_centroid (det_bbox d)) (bbox_centroid (det_bbox d')) < gate * gate.

(** Identity stability, as a property of a tracker given by the ids it
    emits for a single-object track. *)
Definition identity_stable (emitted : list Detection → list Z) (gate : Z) : Prop :=
  ∀ track, moves_within_gate gate track →
    ∀ a b, a ∈ emitted track → b ∈ emitted track → a = b.

Definition vehicle_ids (track : list Detection) : list Z :=
  lifetime_ids (VehicleTracker.run (VehicleTracker.init 30 3) (single_object_frames track)).1.

Definition rider_ids (track : list Detection) : list Z :=
  lifetime_ids (RiderTracker.run (RiderTracker.init 30 3) (single_object_frames track)).1.

(** A detection used in the examples. *)
Definition car_at (x y : Z) : Detection :=
  {| det_bbox := (x, y, x + 100, y + 80);
     det_class_id := Some 2;
     det_confidence := 0x1.8p-1%float;
     det_label := "car" |}.

(** The value a computation returns, if it returns. *)
Definition value_of {S A : Type} (r : exn + (A * S)) : option A :=
  match r with inr (a, _) => Some a | inl _ => None end.

(** Euclidean distance of two pixel positions, as a real number. *)
Definition euclidean_distance (p q : Point) : R :=
  sqrt ((IZR q.1 - IZR p.1) * (IZR q.1 - IZR p.1)
        + (IZR q.2 - IZR p.2) * (IZR q.2 - IZR p.2))%R.

(** Seconds elapsed from [t0] to [t1]. *)
Definition elapsed_seconds (t0 t1 : datetime) : R := (IZR (t1 - t0) / 1000000)%R.

(** Every id with a stored position has a stored time: the two
    dictionaries of the estimator are written together. *)
Definition estimator_wf (self : SpeedEstimator) : Prop :=
  ∀ id : Z, is_Some (previous_positions self !! id) → is_Some (previous_times self !! id).

(** The estimator after it has recorded position [pos] at time [t] for [id],
    starting from nothing. *)
Definition recorded (id : Z) (pos : Point) (t : datetime) : SpeedEstimator :=
  {| previous_positions := {[ id := pos ]}; previous_times := {[ id := t ]} |}.

(** The actor a violation is about: its ['vehicle_id'] or ['rider_id']. *)
Definition event_actor {F : Type} (ev : Violation F) : Z :=
  match ev with
  | signal_jump vehicle_id _ _ => vehicle_id
  | helmetless_riding rider_id _ _ => rider_id
  | overspeeding vehicle_id _ _ _ => vehicle_id
  | wrong_lane vehicle_id _ _ => vehicle_id
  | triple_riding vehicle_id _ _ _ => vehicle_id
  end.

(** The events of a list that are about the actor [i]. *)
Definition events_about {F : Type} (i : Z) (evs : list (Violation F)) : list (Violation F) :=
  filter (λ ev, event_actor ev = i) evs.

(** A result with [acc] put in front of the list it returns. *)
Definition prepend {S V : Type} (acc : list V) (r : exn + (list V * S)) : exn + (list V * S) :=
  match r with
  | inr (e, s) => inr (acc ++ e, s)
  | inl err => inl err
  end.

(** A loop body that appends to the list it is given, the same events
    whatever that list holds. *)
Definition appending {S A V : Type} (body : list V → A → M S (list V)) : Prop :=
  ∀ acc x s, body acc x s = prepend acc (body [] x s).

(** A loop body whose events are about the actor it is run on. *)
Definition emits_own {S F : Type} (body : list (Violation F) → Tracked → M S (list (Violation F)))
    : Prop :=
  ∀ x s e s', body [] x s = inr (e, s') → ∀ ev, ev ∈ e → event_actor ev = trk_id x.

(** The number of riders whose centroid is less than 100 pixels from the
    centroid of the vehicle, in exact integer arithmetic. *)
Definition riders_in_radius (vehicle : Tracked) (rider_tracks : list Tracked) : Z :=
  Z.of_nat (length (filter (λ rider, sq_dist (trk_centroid vehicle) (trk_centroid rider)
                                     < 100 * 100) rider_tracks)).

(** A tracked object with a given id, centroid and class. *)
Definition actor (i : Z) (c : Point) (class : Z) : Tracked :=
  {| trk_id := i;
     trk_bbox := (c.1 - 20, c.2 - 20, c.1 + 20, c.2 + 20);
     trk_centroid := c;
     original_detection :=
       Some {| det_bbox := (c.1 - 20, c.2 - 20, c.1 + 20, c.2 + 20);
               det_class_id := Some class;
               det_confidence := 0x1.8p-1%float;
               det_label := "" |};
     on_motorcycle := None |}.

(** Example data: a motorcycle, riders around it (the last one exactly
    100 pixels away), a detector configured as in main.py, and a world
    whose random source is constant and whose clock counts readings. *)
Definition motorcycle_1 : Tracked := actor 1 (300, 300) 3.

Definition four_riders : list Tracked :=
  [actor 11 (310, 300) 0; actor 12 (290, 300) 0; actor 13 (300, 310) 0;
   actor 14 (300, 290) 0; actor 15 (400, 300) 0].

Definition three_riders : list Tracked :=
  [actor 11 (310, 300) 0; actor 12 (290, 300) 0; actor 13 (300, 310) 0;
   actor 15 (400, 300) 0].

Definition main_detector {F : Type} : ViolationDetector (F:=F) :=
  ViolationDetector_init main_config.

Definition constant_world {F : Type} (r : F) : World F :=
  {| random_tape := λ _, r;
     random_calls := 0;
     clock_tape := λ n, Z.of_nat n;
     clock_calls := 0 |}.

(** Two estimators hold the same observation for [id]. *)
Definition agree_at (id : Z) (e1 e2 : SpeedEstimator) : Prop :=
  previous_positions e1 !! id = previous_positions e2 !! id
  ∧ previous_times e1 !! id = previous_times e2 !! id.

(** [rider.get('on_motorcycle', True)] *)
Definition rides_motorcycle (rider : Tracked) : bool := default true (on_motorcycle rider).

(** The helmet detections supply the flag [False] for the rider [i]. *)
Definition flagged_helmetless (helmet_detections : list HelmetDetection) (i : Z) : Prop :=
  ∃ h, h ∈ helmet_detections ∧ person_id h = i ∧ helmet_detected h = false.

(** The helmetless rule as a function of the helmet flags: a rider is
    reported exactly when the flag supplied for it is [False]. *)
Definition helmet_rule_follows_flags (F : Type) `{Arith F} : Prop :=
  ∀ (self : ViolationDetector (F:=F)) (rider_tracks : list Tracked)
    (helmet_detections : list HelmetDetection) (w w' : World F)
    (evs : list (Violation F)) (rider : Tracked),
    rider ∈ rider_tracks →
    detect_helmetless_riding self rider_tracks helmet_detections w = inr (evs, w') →
    events_about (trk_id rider) evs ≠ [] ↔ flagged_helmetless helmet_detections (trk_id rider).

(** A rider wearing a helmet, and the helmet detection saying so. *)
Definition rider_1 : Tracked := actor 1 (300, 260) 0.

Definition helmet_on_1 : list HelmetDetection :=
  [{| person_id := 1; helmet_detected := true |}].







(** Another world, five random readings and two clock readings in, from
    which the readings are those of [constant_world r]. *)
Definition shifted_world {F : Type} (r : F) : World F :=
  {| random_tape := λ _, r;
     random_calls := 5;
     clock_tape := λ n, Z.of_nat n - 2;
     clock_calls := 2 |}.

(** A vehicle at the stop line [y = 240], and a traffic light. *)
Definition vehicle_at_line : Tracked := actor 1 (320, 240) 2.

Definition some_light : option (Z * Z * Z * Z) := Some (500, 40, 520, 100).

(** Two to the power [e], as a real number. *)
Definition exp2 (e : Z) : R := powerRZ 2 e.

(** The real number a binary64 number stands for; the infinities and
    NaN stand for none. *)
Definition float_value (f : float) : option R :=
  match Prim2SF f with
  | S754_zero _ => Some 0%R
  | S754_finite s m e =>
      Some (if s then - (IZR (Z.pos m) * exp2 e) else IZR (Z.pos m) * exp2 e)%R
  | _ => None
  end.

(** [f] is a finite positive binary64 number and stands for [v]. *)
Definition pos_value (f : float) (v : R) : Prop :=
  ∃ m e, Prim2SF f = S754_finite false m e ∧ v = (IZR (Z.pos m) * exp2 e)%R.

(** Where the real number [u] lies from the integer [m] to [m + 1], as
    the rounding functions of the binary64 specification record it: on
    [m], below the middle, on the middle, or above it. *)
Definition located (m : Z) (l : location) (u : R) : Prop :=
  match l with
  | loc_Exact => u = IZR m
  | loc_Inexact Lt => (IZR m < u < IZR m + / 2)%R
  | loc_Inexact Eq => u = (IZR m + / 2)%R
  | loc_Inexact Gt => (IZR m + / 2 < u < IZR m + 1)%R
  end.

(** [v] is [x] up to a relative error [δ]. *)
Definition near (δ v x : R) : Prop := ((1 - δ) * x <= v <= (1 + δ) * x)%R.

(** The speed in km/h as binary64 arithmetic gives it for a move from
    [P0] at [t0] to [P1] at [t1]: the distance in pixels is
    sqrt(dx*dx + dy*dy), the elapsed time is the number of microseconds
    divided by 10^6, and the speed is ((distance * 0.1) / seconds) * 3.6,
    every operation rounded to the nearest binary64 number. *)
Definition speed_kmh_binary64 (P0 P1 : Point) (t0 t1 : datetime) : float :=
  let dx := float_of_int (P1.1 - P0.1) in
  let dy := float_of_int (P1.2 - P0.2) in
  let distance := PrimFloat.sqrt (dx * dx + dy * dy) in
  let seconds := (float_of_int (t1 - t0) / 1000000)%float in
  (distance * 0x1.999999999999ap-4 / seconds * 0x1.ccccccccccccdp+1)%float.

(** A detector whose configuration sets the speed limit to 80 km/h. *)
Definition detector_80 {F : Type} : ViolationDetector (F:=F) :=
  ViolationDetector_init
    {| OVERSPEED_THRESHOLD := Some 80; TRIPLE_RIDING_MAX_PERSONS := Some 3 |}.

(** ** detection.py *)

Module ObjectDetector.

Record t : Type := {
  use_real_model : bool;
  vehicle_classes : list Z;
  person_class : Z;
  traffic_light_class : Z
}.

(** [__init__]: [yolo_available] tells whether the import of the model
    succeeded; the class attributes are set either way. *)
Definition init (yolo_available : bool) : t :=
  {| use_real_model := yolo_available;
     vehicle_classes := [2; 3; 5; 7];
     person_class := 0;
     traffic_light_class := 9 |}.

(** [[d for d in detections if keep(d['class_id'])]]: reading the key of
    a detection that has none raises. *)
Fixpoint select_class (keep : Z → bool) (detections : list Detection)
    : exn + list Detection :=
  match detections with
  | [] => inr []
  | d :: rest =>
      match det_class_id d with
      | None => inl KeyError
      | Some c =>
          match select_class keep rest with
          | inl e => inl e
          | inr ds => inr (if keep c then d :: ds else ds)
          end
      end
  end.

Definition detect_vehicles (self : t) (detections : list Detection) : exn + list Detection :=
  select_class (λ c, bool_decide (c ∈ vehicle_classes self)) detections.

Definition detect_persons (self : t) (detections : list Detection) : exn + list Detection :=
  select_class (λ c, c =? person_class self) detections.

Definition detect_traffic_lights (self : t) (detections : list Detection)
    : exn + list Detection :=
  select_class (λ c, c =? traffic_light_class self) detections.

End ObjectDetector.

(** [HelmetDetector.detect_helmets]: every person is assumed to wear a
    helmet. *)
Definition detect_helmets {Frame : Type} (frame : Frame) (person_detections : list Tracked)
    : list HelmetDetection :=
  (λ person, {| person_id := trk_id person; helmet_detected := true |}) <$> person_detections.

(** ** main.py *)

(** What the pipeline reads of a frame: [frame.shape[0]] and
    [frame.shape[1]]. The pixels are read by the detector and by the
    evidence writer only. *)
Record VideoFrame : Type := {
  frame_height : Z;
  frame_width : Z
}.

Section Pipeline.
Context {F : Type} `{Arith F}.

(** The attributes of [TrafficViolationDetector] that [process_frame]
    reads or changes before it generates evidence. *)
Record TrafficViolationDetector : Type := {
  detector : ObjectDetector.t;
  vehicle_tracker : VehicleTracker.t;
  rider_tracker : RiderTracker.t;
  violation_detector : ViolationDetector (F:=F);
  speed_estimator : SpeedEstimator
}.

(** [TrafficViolationDetector.__init__] *)
Definition TrafficViolationDetector_init (yolo_available : bool) : TrafficViolationDetector :=
  {| detector := ObjectDetector.init yolo_available;
     vehicle_tracker := VehicleTracker.init 30 3;
     rider_tracker := RiderTracker.init 30 3;
     violation_detector := ViolationDetector_init main_config;
     speed_estimator := SpeedEstimator_init |}.

(** The rules [process_frame] runs, in its order: the clock is read, the
    signal rule runs when there is a traffic light and a vehicle, the
    speed rule runs when there is a vehicle; the other three rules are
    commented out in the source. *)
Definition run_rules (self : TrafficViolationDetector) (frame : VideoFrame)
    (vehicle_tracks : list Tracked) (traffic_light_detections : list Detection)
    : M (SpeedEstimator * World F) (list (Violation F)) :=
  let* current_time := on_snd now in
  let* signal_violations :=
    match traffic_light_detections, vehicle_tracks with
    | light :: _, _ :: _ =>
        let stop_line_y := frame_height frame / 2 in
        on_snd (detect_signal_jump (violation_detector self) vehicle_tracks
                  (Some (det_bbox light)) stop_line_y)
    | _, _ => ret []
    end in
  let* speed_violations :=
    match vehicle_tracks with
    | _ :: _ => detect_overspeeding (violation_detector self) vehicle_tracks current_time
    | [] => ret []
    end in
  ret (signal_violations ++ speed_violations).

(** [process_frame] from the detector's output for the frame
    ([detections], the value of [self.detector.detect_objects(frame)])
    up to the point where evidence generation starts: the three values
    the method goes on to return, and the detector object as it then is.
    The evidence loop that follows writes files and calls the OCR. *)
Definition process_frame (self : TrafficViolationDetector) (detections : list Detection)
    (frame : VideoFrame)
    : M (World F) (list (Violation F) * list Tracked * list Tracked * TrafficViolationDetector) :=
  fun w =>
    match ObjectDetector.detect_vehicles (detector self) detections with
    | inl e => inl e
    | inr vehicle_detections =>
    match ObjectDetector.detect_persons (detector self) detections with
    | inl e => inl e
    | inr person_detections =>
    match ObjectDetector.detect_traffic_lights (detector self) detections with
    | inl e => inl e
    | inr traffic_light_detections =>
        let '(vehicle_tracks, vehicle_tracker') :=
          match vehicle_detections with
          | [] => ([], vehicle_tracker self)
          | _ :: _ => VehicleTracker.update (vehicle_tracker self) vehicle_detections frame
          end in
        let '(rider_tracks, rider_tracker') :=
          match person_detections with
          | [] => ([], rider_tracker self)
          | _ :: _ => RiderTracker.update (rider_tracker self) person_detections frame
          end in
        let helmet_detections :=
          match rider_tracks with
          | [] => []
          | _ :: _ => detect_helmets frame rider_tracks
          end in
        match run_rules self frame vehicle_tracks traffic_light_detections
                (speed_estimator self, w) with
        | inl e => inl e
        | inr (violations, (speed_estimator', w')) =>
            inr (violations, vehicle_tracks, rider_tracks,
                 {| detector := detector self;
                    vehicle_tracker := vehicle_tracker';
                    rider_tracker := rider_tracker';
                    violation_detector := violation_detector self;
                    speed_estimator := speed_estimator' |},
                 w')
        end
    end end end.

(** The frames of a video processed one after the other, as the loop of
    [run_live_detection] does; the violations of each frame are kept.
    Evidence generation, which runs between two frames, touches neither
    the trackers nor the estimator; a failure of it would end the run. *)
Fixpoint process_frames (self : TrafficViolationDetector)
    (frames : list (list Detection * VideoFrame))
    : M (World F) (list (list (Violation F)) * TrafficViolationDetector) :=
  match frames with
  | [] => ret ([], self)
  | (detections, frame) :: rest =>
      let* r := process_frame self detections frame in
      let '(violations, _, _, self') := r in
      let* rs := process_frames self' rest in
      ret (violations :: rs.1, rs.2)
  end.

End Pipeline.

(** ** evidence.py and dashboard.py: file names *)

(** A Python [str]. *)
Abbreviation str := (list ascii) (only parsing).

Definition py_str (s : string) : list ascii := list_ascii_of_string s.

(** [str(n)] for an [int]. *)
Definition str_of_int (n : Z) : list ascii :=
  list_ascii_of_string (NilZero.string_of_int (Z.to_int n)).

(** [s.startswith(prefix)] *)
Fixpoint startswith (prefix s : list ascii) : bool :=
  match prefix, s with
  | [], _ => true
  | _ :: _, [] => false
  | a :: prefix', c :: s' => Ascii.eqb a c && startswith prefix' s'
  end.

(** [s.replace(old, new)] for a non-empty [old]: the occurrences of
    [old] are replaced from left to right, without overlap; [skip]
    counts the characters of a matched occurrence still to pass. *)
Fixpoint replace_from (old new : list ascii) (skip : nat) (s : list ascii) : list ascii :=
  match s with
  | [] => []
  | c :: rest =>
      match skip with
      | S k => replace_from old new k rest
      | O =>
          if startswith old s then new ++ replace_from old new (length old - 1) rest
          else c :: replace_from old new 0 rest
      end
  end.

Definition str_replace (old new s : list ascii) : list ascii := replace_from old new 0 s.

(** [s.split(sep)] for a one-character [sep]. *)
Fixpoint str_split (sep : ascii) (s : list ascii) : list (list ascii) :=
  match s with
  | [] => [[]]
  | c :: rest =>
      if Ascii.eqb c sep then [] :: str_split sep rest
      else match str_split sep rest with
           | part :: parts => (c :: part) :: parts
           | [] => [[c]]
           end
  end.

(** [sep.join(parts)] *)
Fixpoint str_join (sep : list ascii) (parts : list (list ascii)) : list ascii :=
  match parts with
  | [] => []
  | [part] => part
  | part :: rest => part ++ sep ++ str_join sep rest
  end.

(** [violation['type']] *)
Definition violation_type {F : Type} (ev : Violation F) : list ascii :=
  match ev with
  | signal_jump _ _ _ => py_str "signal_jump"
  | helmetless_riding _ _ _ => py_str "helmetless_riding"
  | overspeeding _ _ _ _ => py_str "overspeeding"
  | wrong_lane _ _ _ => py_str "wrong_lane"
  | triple_riding _ _ _ _ => py_str "triple_riding"
  end.

(** [EvidenceGenerator.generate_evidence], line 28: the name of the
    image file, from the three local variables it is built from;
    [timestamp] is the string [strftime] returned. *)
Definition image_filename (violation_type : list ascii) (vehicle_id : Z)
    (timestamp : list ascii) : list ascii :=
  violation_type ++ py_str "_" ++ str_of_int vehicle_id ++ py_str "_" ++ timestamp
  ++ py_str ".jpg".

(** [generate_evidence], lines 24, 25 and 28, for a violation the rules
    build: they all carry a ['vehicle_id'] or a ['rider_id']. *)
Definition evidence_image_filename {F : Type} (ev : Violation F) (timestamp : list ascii)
    : list ascii :=
  image_filename (violation_type ev) (event_actor ev) timestamp.

(** What [load_evidence] of dashboard.py reads off a file name. *)
Record ParsedName : Type := {
  parsed_violation_type : list ascii;
  parsed_vehicle_id : list ascii;
  parsed_timestamp_str : list ascii;
  parsed_license_plate : list ascii
}.

(** [load_evidence], lines 24 to 30 and 41: the file name is cut at the
    underscores; names with fewer than four parts are skipped. *)
Definition parse_filename (filename : list ascii) : option ParsedName :=
  let parts := str_split "_"%char (str_replace (py_str ".jpg") [] filename) in
  let n := length parts in
  if (4 <=? n)%nat then
    let vehicle_id := parts !!! (n - 3)%nat in
    Some {| parsed_violation_type := str_join (py_str "_") (take (n - 3) parts);
            parsed_vehicle_id := vehicle_id;
            parsed_timestamp_str :=
              (parts !!! (n - 2)%nat) ++ py_str "_" ++ (parts !!! (n - 1)%nat);
            parsed_license_plate := py_str "LP-" ++ vehicle_id |}
  else None.

(** A decimal digit. *)
Definition is_digit (c : ascii) : Prop :=
  c ∈ [ "0"%char; "1"%char; "2"%char; "3"%char; "4"%char;
        "5"%char; "6"%char; "7"%char; "8"%char; "9"%char ].

(** ** evidence.py: the evidence manager *)

(** The dictionary [generate_evidence] returns. *)
Record Evidence : Type := {
  ev_violation_type : list ascii;
  ev_timestamp : Z;
  ev_image_path : list ascii;
  ev_clip_path : list ascii;
  ev_license_plate : list ascii;
  ev_bbox : Z * Z * Z * Z
}.

(** [sorted(l, key=key, reverse=True)]: a stable sort, greatest key
    first; entries with equal keys keep the order they have in [l].
    The result of a stable sort does not depend on the algorithm;
    this one inserts from the right. *)
Fixpoint insert_desc {A : Type} (key : A → Z) (x : A) (l : list A) : list A :=
  match l with
  | [] => [x]
  | y :: rest => if key x <? key y then y :: insert_desc key x rest else x :: y :: rest
  end.

Fixpoint sorted_desc {A : Type} (key : A → Z) (l : list A) : list A :=
  match l with
  | [] => []
  | x :: rest => insert_desc key x (sorted_desc key rest)
  end.

(** [l[:limit]]: a negative [limit] counts from the end. *)
Definition slice_to {A : Type} (limit : Z) (l : list A) : list A :=
  if 0 <=? limit then take (Z.to_nat limit) l
  else take (length l - Z.to_nat (- limit)) l.

Module EvidenceManager.

Record t : Type := {
  evidence_list : list Evidence
}.

Definition init : t := {| evidence_list := [] |}.

Definition add_evidence (self : t) (evidence : Evidence) : t :=
  {| evidence_list := evidence_list self ++ [evidence] |}.

Definition get_recent_violations (self : t) (limit : Z) : list Evidence :=
  slice_to limit (sorted_desc ev_timestamp (evidence_list self)).

End EvidenceManager.

(** ** Notions for the further properties *)

(** A vehicle within 50 pixels of the stop line. *)
Definition near_stop_line (stop_line_y : Z) (vehicle : Tracked) : bool :=
  Z.abs ((trk_centroid vehicle).2 - stop_line_y) <? 50.

(** The estimator holds an observation for exactly the ids 1 to [n]. *)
Definition holds_ids (est : SpeedEstimator) (n : Z) : Prop :=
  ∀ id : Z, (is_Some (previous_positions est !! id) ↔ 1 ≤ id ≤ n)
            ∧ (is_Some (previous_times est !! id) ↔ 1 ≤ id ≤ n).

(** A detection of class 2, 3, 5 or 7, and the number of them in a
    sequence of frames. *)
Definition is_vehicle (d : Detection) : bool :=
  match det_class_id d with
  | Some c => bool_decide (c ∈ [2; 3; 5; 7])
  | None => false
  end.

Definition vehicle_detection_count (frames : list (list Detection * VideoFrame)) : Z :=
  Z.of_nat (length (filter (λ d, is_vehicle d = true) (concat (fst <$> frames)))).

(** Calls of [estimate_speed] for one id, one after the other; the
    speeds returned are collected. *)
Fixpoint estimate_speeds {F : Type} `{Arith F} (vehicle_id : Z)
    (observations : list ((Z * Z) * Z)) : M SpeedEstimator (list F) :=
  match observations with
  | [] => ret []
  | (pos, t) :: rest =>
      let* v := estimate_speed vehicle_id pos t in
      let* vs := estimate_speeds vehicle_id rest in
      ret (v :: vs)
  end.

(** A [signal_jump] event. *)
Definition is_signal_jump {F : Type} (ev : Violation F) : Prop :=
  match ev with
  | signal_jump _ _ _ => True
  | _ => False
  end.

(** Every detection of every frame carries a class id, as the
    detections [detect_objects] builds do. *)
Definition frames_well_formed (frames : list (list Detection * VideoFrame)) : Prop :=
  Forall (λ fr, Forall (λ d, is_Some (det_class_id d)) fr.1) frames.

(** Two frames of a 640 by 480 video: two cars and a traffic light,
    then one car. *)
Definition frame_640_480 : VideoFrame := {| frame_height := 480; frame_width := 640 |}.

Definition light_detection : Detection :=
  {| det_bbox := (500, 40, 520, 100);
     det_class_id := Some 9;
     det_confidence := 0x1.8p-1%float;
     det_label := "traffic light" |}.

Definition two_frames : list (list Detection * VideoFrame) :=
  [([car_at 0 200; car_at 5 5; light_detection], frame_640_480);
   ([car_at 0 200], frame_640_480)].

(** A character other than the underscore and the dot. *)
Definition plain (c : ascii) : Prop := c ≠ "_"%char ∧ c ≠ "."%char.

(** The number of underscores in a string. *)
Definition underscores (s : list ascii) : nat :=
  length (filter (λ c, c = "_"%char) s).

(** An evidence entry with a given timestamp. *)
Definition evidence_at (t : Z) : Evidence :=
  {| ev_violation_type := py_str "overspeeding";
     ev_timestamp := t;
     ev_image_path := [];
     ev_clip_path := [];
     ev_license_plate := [];
     ev_bbox := (0, 0, 0, 0) |}.

(** Both sides are the same concatenation, bracketed differently. *)
Ltac reassoc := repeat (rewrite <- app_assoc; cbn [app]); reflexivity.

(** * Properties *)

(** ** Trackers *)

Lemma vehicle_fold_step (dets : list Detection) (acc : list Tracked) (self : VehicleTracker.t) :
  fold_left VehicleTracker.step dets (acc, self) =
  (acc ++ assign_ids (VehicleTracker.next_id self) dets,
   {| VehicleTracker.tracked_vehicles := VehicleTracker.tracked_vehicles self;
      VehicleTracker.next_id := VehicleTracker.next_id self + Z.of_nat (length dets) |}).
Proof.
  revert acc self. induction dets as [|det dets IH]; intros acc self; simpl.
  - rewrite app_nil_r, Z.add_0_r. by destruct self.
  - rewrite IH. simpl. unfold assign_ids. simpl. rewrite <- app_assoc. simpl.
    f_equal.
    + f_equal. f_equal.
      * f_equal. lia.
      * apply imap_ext. intros k d _. simpl. f_equal. lia.
    + f_equal. lia.
Qed.

Lemma rider_fold_step (dets : list Detection) (acc : list Tracked) (self : RiderTracker.t) :
  fold_left RiderTracker.step dets (acc, self) =
  (acc ++ assign_ids (RiderTracker.next_id self) dets,
   {| RiderTracker.tracked_riders := RiderTracker.tracked_riders self;
      RiderTracker.next_id := RiderTracker.next_id self + Z.of_nat (length dets) |}).
Proof.
  revert acc self. induction dets as [|det dets IH]; intros acc self; simpl.
  - rewrite app_nil_r, Z.add_0_r. by destruct self.
  - rewrite IH. simpl. unfold assign_ids. simpl. rewrite <- app_assoc. simpl.
    f_equal.
    + f_equal. f_equal.
      * f_equal. lia.
      * apply imap_ext. intros k d _. simpl. f_equal. lia.
    + f_equal. lia.
Qed.

Lemma vehicle_update_eq {Frame : Type} (self : VehicleTracker.t) (dets : list Detection)
    (frame : Frame) :
  VehicleTracker.update self dets frame =
  (assign_ids (VehicleTracker.next_id self) dets,
   {| VehicleTracker.tracked_vehicles := VehicleTracker.tracked_vehicles self;
      VehicleTracker.next_id := VehicleTracker.next_id self + Z.of_nat (length dets) |}).
Proof. unfold VehicleTracker.update. by rewrite vehicle_fold_step. Qed.

Lemma rider_update_eq {Frame : Type} (self : RiderTracker.t) (dets : list Detection)
    (frame : Frame) :
  RiderTracker.update self dets frame =
  (assign_ids (RiderTracker.next_id self) dets,
   {| RiderTracker.tracked_riders := RiderTracker.tracked_riders self;
      RiderTracker.next_id := RiderTracker.next_id self + Z.of_nat (length dets) |}).
Proof. unfold RiderTracker.update. by rewrite rider_fold_step. Qed.

Lemma assign_ids_ids (n : Z) (dets : list Detection) :
  trk_id <$> assign_ids n dets = seqZ (n + 1) (Z.of_nat (length dets)).
Proof.
  revert n. induction dets as [|det dets IH]; intros n; [done|].
  unfold assign_ids in *. simpl length. rewrite Nat2Z.inj_succ, seqZ_cons by lia.
  simpl. f_equal; [lia|].
  replace (Z.succ (n + 1)) with ((n + 1) + 1) by lia.
  replace (Z.pred (Z.succ (Z.of_nat (length dets)))) with (Z.of_nat (length dets)) by lia.
  rewrite <- IH. f_equal. apply imap_ext. intros k d _. simpl. f_equal. lia.
Qed.

Lemma assign_ids_bounds (n : Z) (dets : list Detection) (i : Z) :
  i ∈ trk_id <$> assign_ids n dets → n < i ≤ n + Z.of_nat (length dets).
Proof. rewrite assign_ids_ids, elem_of_seqZ. lia. Qed.

Lemma vehicle_run_eq {Frame : Type} (frames : list (list Detection * Frame))
    (self : VehicleTracker.t) :
  VehicleTracker.run self frames =
  (assign_run (VehicleTracker.next_id self) (fst <$> frames),
   {| VehicleTracker.tracked_vehicles := VehicleTracker.tracked_vehicles self;
      VehicleTracker.next_id :=
        VehicleTracker.next_id self + Z.of_nat (detection_count frames) |}).
Proof.
  revert self. induction frames as [|[dets frame] frames IH]; intros self.
  - simpl. unfold detection_count. simpl. rewrite Z.add_0_r. by destruct self.
  - simpl. rewrite vehicle_update_eq, IH. simpl. f_equal. f_equal.
    unfold detection_count. rewrite fmap_cons. cbn [concat fst].
    rewrite length_app. lia.
Qed.

Lemma rider_run_eq {Frame : Type} (frames : list (list Detection * Frame))
    (self : RiderTracker.t) :
  RiderTracker.run self frames =
  (assign_run (RiderTracker.next_id self) (fst <$> frames),
   {| RiderTracker.tracked_riders := RiderTracker.tracked_riders self;
      RiderTracker.next_id :=
        RiderTracker.next_id self + Z.of_nat (detection_count frames) |}).
Proof.
  revert self. induction frames as [|[dets frame] frames IH]; intros self.
  - simpl. unfold detection_count. simpl. rewrite Z.add_0_r. by destruct self.
  - simpl. rewrite rider_update_eq, IH. simpl. f_equal. f_equal.
    unfold detection_count. rewrite fmap_cons. cbn [concat fst].
    rewrite length_app. lia.
Qed.

Lemma assign_run_lifetime (batches : list (list Detection)) (n : Z) :
  lifetime_ids (assign_run n batches) = seqZ (n + 1) (Z.of_nat (length (concat batches))).
Proof.
  revert n. induction batches as [|dets rest IH]; intros n; [done|].
  unfold lifetime_ids in *. simpl. rewrite fmap_app, IH, assign_ids_ids, length_app.
  rewrite Nat2Z.inj_add, seqZ_app by lia. do 2 f_equal. lia.
Qed.

(** Every id of a later call lies above the counter the run started from. *)
Lemma assign_run_lower (batches : list (list Detection)) (n : Z) (k : nat) (i : Z) :
  i ∈ ids_at (assign_run n batches) k → n < i.
Proof.
  revert n k. induction batches as [|dets rest IH]; intros n k; unfold ids_at.
  - cbn [assign_run]. rewrite lookup_total_nil. by intros ?%elem_of_nil.
  - destruct k as [|k]; simpl.
    + intros Hi%assign_ids_bounds. lia.
    + intros Hi. apply (IH _ k) in Hi. lia.
Qed.

(** Ids grow from call to call: what an earlier call emitted is below
    everything a later call emits. *)
Lemma assign_run_increasing (batches : list (list Detection)) (n : Z) (i j : nat) (a b : Z) :
  (i < j)%nat →
  a ∈ ids_at (assign_run n batches) i → b ∈ ids_at (assign_run n batches) j → a < b.
Proof.
  revert n i j. induction batches as [|dets rest IH]; intros n i j Hij; unfold ids_at.
  - cbn [assign_run]. rewrite lookup_total_nil. by intros ?%elem_of_nil.
  - destruct j as [|j]; [lia|]. destruct i as [|i]; simpl.
    + intros Ha%assign_ids_bounds Hb. apply (assign_run_lower _ _ j) in Hb. lia.
    + intros Ha Hb. eapply (IH _ i j); [lia|exact Ha|exact Hb].
Qed.

(** The ids of one call are pairwise distinct, as the rules below assume
    of their input. *)
Lemma assign_ids_NoDup (n : Z) (dets : list Detection) :
  NoDup (trk_id <$> assign_ids n dets).
Proof. rewrite assign_ids_ids. apply NoDup_seqZ. Qed.

(** C10. A call of [update], on either tracker, with [n] detections
    returns [n] tracked objects in input order; object number [k]
    (counting from 0) carries the id [next_id + k + 1], the detection's
    bbox, the floor midpoint of that bbox as centroid and the detection
    itself; the only state change is [next_id] increased by [n]. Over the
    whole life of a tracker the ids emitted are 1, 2, 3, ... in order, so
    they strictly increase and never repeat, and the dictionary of
    tracked objects stays empty. *)
Theorem update_allocates_fresh_ids :
  (∀ (Frame : Type) (self : VehicleTracker.t) (dets : list Detection) (frame : Frame),
     let '(out, self') := VehicleTracker.update self dets frame in
     length out = length dets
     ∧ (∀ k : nat,
          out !! k =
          (λ det, {| trk_id := VehicleTracker.next_id self + Z.of_nat k + 1;
                     trk_bbox := det_bbox det;
                     trk_centroid :=
                       let '(b0, b1, b2, b3) := det_bbox det in
                       ((b0 + b2) `div` 2, (b1 + b3) `div` 2);
                     original_detection := Some det;
                     on_motorcycle := None |}) <$> dets !! k)
     ∧ VehicleTracker.next_id self' = VehicleTracker.next_id self + Z.of_nat (length dets)
     ∧ VehicleTracker.tracked_vehicles self' = VehicleTracker.tracked_vehicles self)
  ∧ (∀ (Frame : Type) (self : RiderTracker.t) (dets : list Detection) (frame : Frame),
     let '(out, self') := RiderTracker.update self dets frame in
     length out = length dets
     ∧ (∀ k : nat,
          out !! k =
          (λ det, {| trk_id := RiderTracker.next_id self + Z.of_nat k + 1;
                     trk_bbox := det_bbox det;
                     trk_centroid :=
                       let '(b0, b1, b2, b3) := det_bbox det in
                       ((b0 + b2) `div` 2, (b1 + b3) `div` 2);
                     original_detection := Some det;
                     on_motorcycle := None |}) <$> dets !! k)
     ∧ RiderTracker.next_id self' = RiderTracker.next_id self + Z.of_nat (length dets)
     ∧ RiderTracker.tracked_riders self' = RiderTracker.tracked_riders self)
  ∧ (∀ (Frame : Type) (max_age n_init : Z) (frames : list (list Detection * Frame)),
     let '(outs, self') := VehicleTracker.run (VehicleTracker.init max_age n_init) frames in
     lifetime_ids outs = seqZ 1 (Z.of_nat (detection_count frames))
     ∧ VehicleTracker.tracked_vehicles self' = ∅)
  ∧ (∀ (Frame : Type) (max_age n_init : Z) (frames : list (list Detection * Frame)),
     let '(outs, self') := RiderTracker.run (RiderTracker.init max_age n_init) frames in
     lifetime_ids outs = seqZ 1 (Z.of_nat (detection_count frames))
     ∧ RiderTracker.tracked_riders self' = ∅).
Proof.
  split; [|split; [|split]].
  - intros Frame self dets frame. rewrite vehicle_update_eq.
    split; [|split; [|done]]; unfold assign_ids.
    + by rewrite length_imap.
    + intros k. rewrite list_lookup_imap.
      destruct (dets !! k) as [det|]; [|done]. simpl. unfold tracked_of, bbox_centroid.
      by destruct (det_bbox det) as [[[b0 b1] b2] b3].
  - intros Frame self dets frame. rewrite rider_update_eq.
    split; [|split; [|done]]; unfold assign_ids.
    + by rewrite length_imap.
    + intros k. rewrite list_lookup_imap.
      destruct (dets !! k) as [det|]; [|done]. simpl. unfold tracked_of, bbox_centroid.
      by destruct (det_bbox det) as [[[b0 b1] b2] b3].
  - intros Frame max_age n_init frames. rewrite vehicle_run_eq.
    split; [|done]. rewrite assign_run_lifetime. unfold detection_count. by simpl.
  - intros Frame max_age n_init frames. rewrite rider_run_eq.
    split; [|done]. rewrite assign_run_lifetime. unfold detection_count. by simpl.
Qed.

(** C1 does not hold of the code: a motionless object, detected in two
    consecutive frames, is emitted with id 1 and then with id 2, by the
    vehicle tracker and by the rider tracker alike. *)
Lemma identity_not_stable :
  ¬ identity_stable vehicle_ids 100 ∧ ¬ identity_stable rider_ids 100.
Proof.
  assert (Hmove : moves_within_gate 100 [car_at 0 0; car_at 0 0]).
  { intros k d d' Hd Hd'. destruct k as [|[|k]]; simplify_eq/=. done. }
  split; intros Hstable.
  - specialize (Hstable _ Hmove 1 2). cbv -[elem_of] in Hstable.
    discriminate Hstable; set_solver.
  - specialize (Hstable _ Hmove 1 2). cbv -[elem_of] in Hstable.
    discriminate Hstable; set_solver.
Qed.

(** C1, amended. The trackers keep no identity: in every sequence of
    calls of [update], on either tracker and from any state, each id
    emitted by a call is strictly greater than each id emitted by an
    earlier call, so an object never has the same id in two frames. *)
Theorem ids_never_retained {Frame : Type} (vt : VehicleTracker.t) (rt : RiderTracker.t)
    (frames : list (list Detection * Frame)) (outs : list (list Tracked))
    (i j : nat) (a b : Z) :
  outs = (VehicleTracker.run vt frames).1 ∨ outs = (RiderTracker.run rt frames).1 →
  (i < j)%nat →
  a ∈ ids_at outs i → b ∈ ids_at outs j →
  a < b.
Proof.
  intros [-> | ->] Hij.
  - rewrite vehicle_run_eq. apply assign_run_increasing, Hij.
  - rewrite rider_run_eq. apply assign_run_increasing, Hij.
Qed.

Lemma ids_never_retained_witness :
  let frames := [([car_at 0 0], tt); ([car_at 3 4], tt)] in
  let outs := (VehicleTracker.run (VehicleTracker.init 30 3) frames).1 in
  (0 < 1)%nat ∧ 1 ∈ ids_at outs 0 ∧ 2 ∈ ids_at outs 1 ∧ 1 < 2.
Proof.
  intros frames outs.
  assert (H1 : 1 ∈ ids_at outs 0) by (apply (bool_decide_unpack _); vm_compute; exact I).
  assert (H2 : 2 ∈ ids_at outs 1) by (apply (bool_decide_unpack _); vm_compute; exact I).
  split; [lia|]. split; [exact H1|]. split; [exact H2|].
  apply (ids_never_retained (VehicleTracker.init 30 3) (RiderTracker.init 30 3)
           frames outs 0 1 1 2); [by left | lia | exact H1 | exact H2].
Defined.

(** C2. In every sequence of calls of [VehicleTracker.update], an actor
    emitted by some call and then absent for more than [max_age]
    consecutive calls is absent from the output of every later call, and
    every actor created later has another (in fact a greater) id. *)
Theorem stale_actor_never_returns {Frame : Type} (max_age n_init : Z)
    (frames : list (list Detection * Frame)) (k : nat) (i : Z) :
  let outs := (VehicleTracker.run (VehicleTracker.init max_age n_init) frames).1 in
  i ∈ ids_at outs k →
  (∀ j : nat, (k < j ≤ k + Z.to_nat max_age + 1)%nat → i ∉ ids_at outs j) →
  ∀ j : nat, (k + Z.to_nat max_age + 1 < j)%nat →
    (i ∉ ids_at outs j) ∧ (∀ o : Tracked, o ∈ outs !!! j → i < trk_id o).
Proof.
  intros outs Hi _ j Hj. subst outs. rewrite vehicle_run_eq in *. simpl in *.
  assert (Hlt : ∀ b, b ∈ ids_at (assign_run 0 frames.*1) j → i < b).
  { intros b Hb. eapply (assign_run_increasing _ _ k j); [lia|exact Hi|exact Hb]. }
  split.
  - intros Hin. apply Hlt in Hin. lia.
  - intros o Ho. apply Hlt. unfold ids_at. by apply list_elem_of_fmap_2.
Qed.

Lemma stale_actor_never_returns_witness :
  let frames := replicate 40 ([car_at 0 0], tt) in
  let outs := (VehicleTracker.run (VehicleTracker.init 30 3) frames).1 in
  1 ∈ ids_at outs 0
  ∧ (∀ j : nat, (0 < j ≤ 0 + Z.to_nat 30 + 1)%nat → 1 ∉ ids_at outs j)
  ∧ ((1 ∉ ids_at outs 35) ∧ (∀ o : Tracked, o ∈ outs !!! 35%nat → 1 < trk_id o)).
Proof.
  intros frames outs.
  assert (H1 : 1 ∈ ids_at outs 0) by (apply (bool_decide_unpack _); vm_compute; exact I).
  assert (H2 : ∀ j : nat, (0 < j ≤ 0 + Z.to_nat 30 + 1)%nat → 1 ∉ ids_at outs j).
  { intros j Hj.
    assert (Hb : bool_decide (Forall (λ j, 1 ∉ ids_at outs j) (seq 1 31)))
      by (vm_compute; exact I).
    apply bool_decide_unpack in Hb. rewrite Forall_forall in Hb.
    apply Hb, elem_of_seq. simpl in Hj. lia. }
  split; [exact H1|]. split; [exact H2|].
  apply (stale_actor_never_returns 30 3 frames 0 1 H1 H2 35). simpl. lia.
Defined.

(** ** Binary64: rounding and the error of a computed speed

    The primitive floats are specified by [SpecFloat]: an operation
    computes an integer mantissa, an exponent and the location of the
    exact result past that mantissa, and [binary_round_aux] rounds to
    nearest, ties to even. This section derives from that specification
    what the estimator needs: for positive numbers far from overflow and
    underflow, the conversion of an integer, multiplication, addition,
    division and square root return a finite positive number within a
    relative error of 2^-53 of the exact result; the errors of the
    operations of [estimate_speed] are then added up. *)

(** *** Powers of two and numbers of digits *)

(** The number of binary digits of a positive integer is its logarithm
    plus one. *)
Lemma digits2_pos_log2 (p : positive) : Zpos (digits2_pos p) = Z.log2 (Zpos p) + 1.
Proof.
  assert (Hsize : ∀ q, digits2_pos q = Pos.size q).
  { intros q. induction q as [q IH|q IH|]; simpl; by rewrite ?IH. }
  rewrite Hsize. destruct p; simpl; lia.
Qed.

Lemma Zdigits2_log2 (m : Z) : 0 < m → Zdigits2 m = Z.log2 m + 1.
Proof. destruct m as [|p|p]; [lia| |lia]. intros _. apply digits2_pos_log2. Qed.

(** Shifting a mantissa to the right by one bit, and by [n] bits. *)
Lemma shr_1_half (mrs : shr_record) :
  0 ≤ shr_m mrs → shr_m (shr_1 mrs) = shr_m mrs / 2.
Proof.
  destruct mrs as [m r s]. cbn [shr_m]. intros Hm.
  destruct m as [|[p|p|]|p]; cbn [shr_1 shr_m]; try done.
  - apply Z.div_unique with (r := 1); lia.
  - apply Z.div_unique with (r := 0); lia.
Qed.

Lemma iter_shr_1 (n : positive) (mrs : shr_record) :
  0 ≤ shr_m mrs → shr_m (SpecFloat.iter_pos shr_1 n mrs) = shr_m mrs / 2 ^ Zpos n.
Proof.
  revert mrs. induction n as [n IH|n IH|]; intros mrs Hm; cbn [SpecFloat.iter_pos].
  - assert (H1 : 0 ≤ shr_m (shr_1 mrs)).
    { rewrite shr_1_half by done. by apply Z.div_pos. }
    assert (H2 : 0 ≤ shr_m (SpecFloat.iter_pos shr_1 n (shr_1 mrs))).
    { rewrite IH by done. apply Z.div_pos; [done|]. by apply Z.pow_pos_nonneg. }
    rewrite IH, IH, shr_1_half by done.
    rewrite !Z.div_div by (try apply Z.pow_pos_nonneg; lia).
    f_equal. replace (Z.pos n~1) with (1 + Z.pos n + Z.pos n) by lia.
    rewrite !Z.pow_add_r, Z.pow_1_r by lia. ring.
  - assert (H2 : 0 ≤ shr_m (SpecFloat.iter_pos shr_1 n mrs)).
    { rewrite IH by done. apply Z.div_pos; [done|]. by apply Z.pow_pos_nonneg. }
    rewrite IH, IH by done.
    rewrite !Z.div_div by (try apply Z.pow_pos_nonneg; lia).
    f_equal. replace (Z.pos n~0) with (Z.pos n + Z.pos n) by lia.
    by rewrite Z.pow_add_r by lia.
  - rewrite shr_1_half by done. by rewrite Z.pow_1_r.
Qed.

Lemma round_nearest_even_bounds (m : Z) (l : location) :
  m ≤ round_nearest_even m l ≤ m + 1.
Proof. destruct l as [|[]]; simpl; try lia. destruct (Z.even m); lia. Qed.

Lemma shr_m_of_loc (m : Z) (l : location) : shr_m (shr_record_of_loc m l) = m.
Proof. by destruct l as [|[]]. Qed.

(** [exp2] is positive, multiplicative and increasing. *)
Lemma exp2_pos (e : Z) : (0 < exp2 e)%R.
Proof. apply powerRZ_lt. lra. Qed.

Lemma exp2_add (a b : Z) : exp2 (a + b) = (exp2 a * exp2 b)%R.
Proof. apply powerRZ_add. lra. Qed.

Lemma exp2_IZR (n : Z) : 0 ≤ n → exp2 n = IZR (2 ^ n).
Proof.
  intros Hn. unfold exp2. destruct n as [|p|p]; [done| |lia].
  unfold powerRZ. rewrite pow_IZR. by rewrite positive_nat_Z.
Qed.

Lemma exp2_ge_1 (n : Z) : 0 ≤ n → (1 <= exp2 n)%R.
Proof.
  intros Hn. rewrite exp2_IZR by done. apply IZR_le.
  pose proof (Z.pow_pos_nonneg 2 n). lia.
Qed.

Lemma exp2_le (a b : Z) : a ≤ b → (exp2 a <= exp2 b)%R.
Proof.
  intros Hab.
  assert (Hb : exp2 b = (exp2 a * exp2 (b - a))%R) by (rewrite <- exp2_add; f_equal; lia).
  pose proof (exp2_pos a). pose proof (exp2_ge_1 (b - a) ltac:(lia)). rewrite Hb. nra.
Qed.

Lemma exp2_lt (a b : Z) : a < b → (exp2 a < exp2 b)%R.
Proof.
  intros Hab.
  assert (Hb : exp2 b = (exp2 a * 2 * exp2 (b - a - 1))%R).
  { replace 2%R with (exp2 1) by (unfold exp2; simpl; lra).
    rewrite <- !exp2_add. f_equal. lia. }
  pose proof (exp2_pos a). pose proof (exp2_ge_1 (b - a - 1) ltac:(lia)). rewrite Hb. nra.
Qed.

Lemma exp2_lt_inv (a b : Z) : (exp2 a < exp2 b)%R → a < b.
Proof.
  intros Hlt. destruct (Z_lt_le_dec a b) as [|Hle]; [done|].
  apply exp2_le in Hle. lra.
Qed.

Lemma exp2_opp (a : Z) : (exp2 (- a) * exp2 a = 1)%R.
Proof. rewrite <- exp2_add. by replace (- a + a) with 0 by lia. Qed.

(** A positive integer of [d] digits lies from 2^(d-1) to 2^d - 1. *)
Lemma digits_lower (m : Z) : 0 < m → (exp2 (Zdigits2 m - 1) <= IZR m)%R.
Proof.
  intros Hm. rewrite Zdigits2_log2 by done. pose proof (Z.log2_nonneg m).
  replace (Z.log2 m + 1 - 1) with (Z.log2 m) by lia.
  rewrite exp2_IZR by done. apply IZR_le. by apply Z.log2_spec.
Qed.

Lemma digits_upper (m : Z) : 0 < m → (IZR m + 1 <= exp2 (Zdigits2 m))%R.
Proof.
  intros Hm. rewrite Zdigits2_log2 by done. pose proof (Z.log2_nonneg m).
  rewrite exp2_IZR by lia. rewrite <- plus_IZR. apply IZR_le.
  pose proof (Z.log2_spec m Hm). replace (Z.log2 m + 1) with (Z.succ (Z.log2 m)) by lia. lia.
Qed.

(** *** Rounding to nearest *)

Lemma loc_of_shr_record_of_loc (m : Z) (l : location) :
  loc_of_shr_record (shr_record_of_loc m l) = l.
Proof. by destruct l as [|[]]. Qed.

Lemma IZR_xO (p : positive) : IZR (Z.pos p~0) = (2 * IZR (Z.pos p))%R.
Proof. by rewrite <- mult_IZR. Qed.

Lemma IZR_xI (p : positive) : IZR (Z.pos p~1) = (2 * IZR (Z.pos p) + 1)%R.
Proof. by rewrite <- mult_IZR, <- plus_IZR. Qed.

(** A shift to the right by one bit keeps track of where the exact
    number lies: the bit shifted out and the bits shifted out before
    it decide the new location. *)
Lemma shr_1_located (mrs : shr_record) (u : R) :
  0 ≤ shr_m mrs →
  located (shr_m mrs) (loc_of_shr_record mrs) u →
  located (shr_m (shr_1 mrs)) (loc_of_shr_record (shr_1 mrs)) (u / 2).
Proof.
  destruct mrs as [m r s]. cbn [shr_m]. intros Hm.
  destruct m as [|[p|p|]|p]; [| | | |lia];
    destruct r, s; cbn [shr_1 shr_m loc_of_shr_record located orb];
    try rewrite (IZR_xO p); try rewrite (IZR_xI p); lra.
Qed.

Lemma iter_shr_1_nonneg (n : positive) (mrs : shr_record) :
  0 ≤ shr_m mrs → 0 ≤ shr_m (SpecFloat.iter_pos shr_1 n mrs).
Proof.
  intros Hm. rewrite iter_shr_1 by done. apply Z.div_pos; [done|].
  by apply Z.pow_pos_nonneg.
Qed.

Lemma exp2_m1 : exp2 (-1) = (/ 2)%R.
Proof. unfold exp2. simpl. lra. Qed.

Lemma iter_shr_1_located (n : positive) (mrs : shr_record) (u : R) :
  0 ≤ shr_m mrs →
  located (shr_m mrs) (loc_of_shr_record mrs) u →
  located (shr_m (SpecFloat.iter_pos shr_1 n mrs))
    (loc_of_shr_record (SpecFloat.iter_pos shr_1 n mrs)) (u * exp2 (- Z.pos n)).
Proof.
  revert mrs u. induction n as [n IH|n IH|]; intros mrs u Hm Hloc; cbn [SpecFloat.iter_pos].
  - assert (H1 : 0 ≤ shr_m (shr_1 mrs)).
    { rewrite shr_1_half by done. by apply Z.div_pos. }
    pose proof (iter_shr_1_nonneg n _ H1) as H2.
    replace (u * exp2 (- Z.pos n~1))%R with (u / 2 * exp2 (- Z.pos n) * exp2 (- Z.pos n))%R.
    + apply IH; [done|]. apply IH; [done|]. by apply shr_1_located.
    + replace (- Z.pos n~1) with (-1 + (- Z.pos n + - Z.pos n)) by lia.
      rewrite !exp2_add, exp2_m1. lra.
  - pose proof (iter_shr_1_nonneg n _ Hm) as H2.
    replace (u * exp2 (- Z.pos n~0))%R with (u * exp2 (- Z.pos n) * exp2 (- Z.pos n))%R.
    + apply IH; [done|]. by apply IH.
    + replace (- Z.pos n~0) with (- Z.pos n + - Z.pos n) by lia.
      rewrite !exp2_add. lra.
  - change (- Z.pos 1) with (-1). rewrite exp2_m1. by apply shr_1_located.
Qed.

(** Rounding to nearest moves a number by at most one half. *)
Lemma round_located (m : Z) (l : location) (u : R) :
  located m l u →
  (Rabs (IZR (round_nearest_even m l) - u) <= / 2)%R
  ∧ (IZR m <= u)%R
  ∧ (l = loc_Exact → IZR (round_nearest_even m l) = u).
Proof.
  destruct l as [|[]]; cbn [located round_nearest_even]; intros Hloc.
  - subst u. split; [|done]. replace (IZR m - IZR m)%R with 0%R by lra.
    rewrite Rabs_R0. lra.
  - subst u. split; [|split; [lra|done]].
    destruct (Z.even m); [|rewrite plus_IZR]; apply Rabs_le; lra.
  - split; [|split; [lra|done]]. apply Rabs_le; lra.
  - split; [|split; [lra|done]]. rewrite plus_IZR. apply Rabs_le; lra.
Qed.

(** Shifting to the canonical exponent, for a number in the normal range. *)
Lemma shr_fexp_correct (m e : Z) (l : location) (u : R) :
  0 < m → located m l u → -1021 ≤ Zdigits2 m + e →
  ∃ mrs e1, shr_fexp prec emax m e l = (mrs, e1)
    ∧ 0 < shr_m mrs
    ∧ located (shr_m mrs) (loc_of_shr_record mrs) (u * exp2 (e - e1))
    ∧ ((Zdigits2 m ≤ 53 ∧ e1 = e ∧ shr_m mrs = m ∧ loc_of_shr_record mrs = l)
       ∨ (53 < Zdigits2 m ∧ e1 = e + (Zdigits2 m - 53) ∧ Zdigits2 (shr_m mrs) = 53
          ∧ shr_m mrs = m / 2 ^ (Zdigits2 m - 53))).
Proof.
  intros Hm Hloc Hmag. unfold shr_fexp, shr.
  pose proof (Z.log2_nonneg m) as Hlog. pose proof (Zdigits2_log2 m Hm) as Hd.
  assert (Hn : fexp prec emax (Zdigits2 m + e) - e = Zdigits2 m - 53).
  { unfold fexp, SpecFloat.emin, prec, emax. lia. }
  rewrite Hn.
  destruct (Zdigits2 m - 53) as [|n|n] eqn:Hshift.
  - eexists _, _. split; [done|]. rewrite shr_m_of_loc, loc_of_shr_record_of_loc.
    split; [done|]. split; [|left; split; [lia|done]].
    replace (e - e) with 0 by lia. by replace (u * exp2 0)%R with u by (unfold exp2; simpl; lra).
  - eexists _, _. split; [done|].
    assert (H0 : 0 ≤ shr_m (shr_record_of_loc m l)) by (rewrite shr_m_of_loc; lia).
    rewrite iter_shr_1 by done. rewrite shr_m_of_loc.
    assert (Hpow : 2 ^ Z.pos n ≤ m).
    { transitivity (2 ^ Z.log2 m); [apply Z.pow_le_mono_r; lia|].
      by apply Z.log2_spec. }
    assert (Hq : 0 < m / 2 ^ Z.pos n).
    { apply Z.div_str_pos. split; [by apply Z.pow_pos_nonneg|done]. }
    split; [done|]. split.
    + replace (e - (e + Z.pos n)) with (- Z.pos n) by lia.
      rewrite <- (shr_m_of_loc m l) at 1. rewrite <- iter_shr_1 by done.
      apply iter_shr_1_located; [done|].
      by rewrite shr_m_of_loc, loc_of_shr_record_of_loc.
    + right. split; [lia|]. split; [lia|]. split; [|done].
      rewrite Zdigits2_log2 by done.
      rewrite <- Z.shiftr_div_pow2, Z.log2_shiftr by lia. lia.
  - eexists _, _. split; [done|]. rewrite shr_m_of_loc, loc_of_shr_record_of_loc.
    split; [done|]. split; [|left; split; [lia|done]].
    replace (e - e) with 0 by lia. by replace (u * exp2 0)%R with u by (unfold exp2; simpl; lra).
Qed.

(** Rounding to nearest, for a number in the normal range: the result
    is finite and its relative error is at most 2^-53. *)
Lemma binary_round_aux_correct (s : bool) (m e : Z) (l : location) (u : R) :
  0 < m → located m l u →
  l = loc_Exact ∨ 53 ≤ Zdigits2 m →
  -1021 ≤ Zdigits2 m + e → Zdigits2 m + e ≤ 1023 → e ≤ 971 →
  ∃ M E, binary_round_aux prec emax s m e l = S754_finite s M E
    ∧ (Rabs (IZR (Z.pos M) * exp2 E - u * exp2 e) <= exp2 (-53) * (u * exp2 e))%R.
Proof.
  intros Hm Hloc Hl Hlow Hhigh He. unfold binary_round_aux.
  pose proof (Z.log2_nonneg m) as Hlog. pose proof (Zdigits2_log2 m Hm) as Hd.
  destruct (shr_fexp_correct m e l u Hm Hloc Hlow) as (mrs1 & e1 & -> & Hm1 & Hloc1 & Hcase1).
  set (m1 := shr_m mrs1) in *. set (l1 := loc_of_shr_record mrs1) in *.
  set (u1 := (u * exp2 (e - e1))%R) in *.
  pose proof (round_nearest_even_bounds m1 l1) as HM.
  destruct (round_located m1 l1 u1 Hloc1) as (Hhalf & Hu1 & Hexact).
  set (M := round_nearest_even m1 l1) in *.
  assert (HMpos : 0 < M) by lia.
  pose proof (Z.log2_nonneg m1) as Hlog1. pose proof (Zdigits2_log2 m1 Hm1) as Hd1.
  pose proof (Z.log2_nonneg M) as HlogM. pose proof (Zdigits2_log2 M HMpos) as HdM.
  assert (Hmono : Z.log2 m1 ≤ Z.log2 M) by (apply Z.log2_le_mono; lia).
  assert (Hfacts : Zdigits2 m1 ≤ 53 ∧ Zdigits2 m1 + e1 = Zdigits2 m + e
                   ∧ (Zdigits2 m1 = 53 ∨ l1 = loc_Exact) ∧ e1 ≤ 971
                   ∧ (Zdigits2 m1 = 53 → e1 ≤ 970)).
  { destruct Hcase1 as [(Hd53 & -> & Hm1m & Hl1)|(Hd53 & -> & Hd153 & _)].
    - rewrite Hm1m, Hl1. repeat split; try lia. destruct Hl as [->|Hl]; [by right|left; lia].
    - repeat split; try lia. }
  destruct Hfacts as (Hd1le & Hmag1 & Hkind & He1 & He1').
  assert (Hvalue : (u1 * exp2 e1 = u * exp2 e)%R).
  { unfold u1. rewrite Rmult_assoc, <- exp2_add. do 2 f_equal. lia. }
  assert (Hrel : (Rabs (IZR M - u1) <= exp2 (-53) * u1)%R).
  { pose proof (exp2_pos (-53)) as Heps.
    assert (0 < IZR m1)%R by (by apply IZR_lt).
    destruct Hkind as [H53|Hex].
    - pose proof (digits_lower m1 Hm1) as Hlowm. rewrite H53 in Hlowm.
      assert (Hhalf' : (exp2 (-53) * exp2 (53 - 1) = / 2)%R).
      { rewrite <- exp2_add. apply exp2_m1. }
      nra.
    - rewrite (Hexact Hex). replace (u1 - u1)%R with 0%R by lra. rewrite Rabs_R0. nra. }
  assert (HMle : M ≤ 2 ^ 53).
  { assert (m1 < 2 ^ 53); [|lia].
    apply Z.log2_lt_pow2; [done|lia]. }
  destruct (shr_fexp_correct M e1 loc_Exact (IZR M) HMpos eq_refl)
    as (mrs2 & e2 & -> & Hm2 & Hloc2 & Hcase2); [lia|].
  assert (Hres : ∃ p, shr_m mrs2 = Z.pos p ∧ e2 ≤ 971
                      ∧ (IZR (Z.pos p) * exp2 e2 = IZR M * exp2 e1)%R).
  { destruct Hcase2 as [(HdM53 & -> & HM2 & _)|(HdM53 & -> & _ & HM2)].
    - destruct (shr_m mrs2) as [|p|p]; [lia| |lia]. exists p. rewrite <- HM2. done.
    - assert (HM53 : M = 2 ^ 53).
      { assert (2 ^ 53 ≤ M); [|lia].
        transitivity (2 ^ Z.log2 M); [apply Z.pow_le_mono_r; lia|by apply Z.log2_spec]. }
      assert (HdM54 : Zdigits2 M = 54).
      { rewrite HM53. reflexivity. }
      rewrite HdM54 in *. rewrite HM53 in HM2. change (2 ^ 53 / 2 ^ (54 - 53)) with (2 ^ 52) in HM2.
      assert (Hm1d : Zdigits2 m1 = 53).
      { assert (52 ≤ Z.log2 m1); [|lia]. apply Z.log2_le_pow2; [done|].
        change (2 ^ 52) with 4503599627370496. change (2 ^ 53) with 9007199254740992 in HM53.
        lia. }
      specialize (He1' Hm1d).
      destruct (shr_m mrs2) as [|p|p]; [done| |done]. exists p.
      split; [done|]. split; [lia|].
      rewrite HM2, HM53. replace (e1 + (54 - 53)) with (1 + e1) by lia.
      rewrite exp2_add. replace (exp2 1) with 2%R by (unfold exp2; simpl; lra).
      rewrite <- Rmult_assoc. f_equal. rewrite <- mult_IZR. done. }
  destruct Hres as (p & -> & He2 & Hval).
  assert (Hfin : (e2 <=? emax - prec) = true).
  { apply Z.leb_le. unfold emax, prec. lia. }
  rewrite Hfin. exists p, e2. split; [done|].
  rewrite Hval, <- Hvalue.
  replace (IZR M * exp2 e1 - u1 * exp2 e1)%R with ((IZR M - u1) * exp2 e1)%R by lra.
  pose proof (exp2_pos e1) as Hpe. rewrite Rabs_mult, (Rabs_pos_eq (exp2 e1)) by lra.
  nra.
Qed.

Lemma located_bounds (m : Z) (l : location) (u : R) :
  located m l u → (IZR m <= u < IZR m + 1)%R.
Proof. destruct l as [|[]]; cbn [located]; lra. Qed.

(** The same, with the range given on the value. *)
Lemma binary_round_aux_value (s : bool) (m e : Z) (l : location) (u : R) :
  0 < m → located m l u →
  l = loc_Exact ∨ 53 ≤ Zdigits2 m →
  (exp2 (-1022) <= u * exp2 e)%R → (u * exp2 e < exp2 1023)%R → e ≤ 971 →
  ∃ M E, binary_round_aux prec emax s m e l = S754_finite s M E
    ∧ (Rabs (IZR (Z.pos M) * exp2 E - u * exp2 e) <= exp2 (-53) * (u * exp2 e))%R.
Proof.
  intros Hm Hloc Hl Hlow Hhigh He.
  pose proof (located_bounds m l u Hloc) as Hu.
  pose proof (digits_lower m Hm) as Hdl. pose proof (digits_upper m Hm) as Hdu.
  pose proof (exp2_pos e) as Hpe.
  apply (binary_round_aux_correct s m e l u); try done.
  - assert (-1022 < Zdigits2 m + e); [|lia]. apply exp2_lt_inv.
    rewrite exp2_add. nra.
  - assert (Zdigits2 m - 1 + e < 1023); [|lia]. apply exp2_lt_inv.
    rewrite exp2_add. nra.
Qed.

(** *** The operations on positive numbers *)

Lemma pos_value_pos (f : float) (v : R) : pos_value f v → (0 < v)%R.
Proof.
  intros (m & e & _ & ->). apply Rmult_lt_0_compat; [by apply IZR_lt|apply exp2_pos].
Qed.

(** The exponent of a finite binary64 number is at most 971, and is
    bounded by its value. *)
Lemma finite_exponent (f : float) (s : bool) (m : positive) (e : Z) :
  Prim2SF f = S754_finite s m e → e ≤ 971.
Proof.
  intros Hf. pose proof (Prim2SF_valid f) as Hv. rewrite Hf in Hv.
  unfold SpecFloat.valid_binary, bounded in Hv. apply andb_prop in Hv as [_ Hv].
  apply Z.leb_le in Hv. unfold emax, prec in Hv. lia.
Qed.

Lemma value_exponent (m : positive) (e b : Z) :
  (IZR (Z.pos m) * exp2 e < exp2 b)%R → e < b.
Proof.
  intros Hlt. apply exp2_lt_inv. pose proof (exp2_pos e).
  assert (1 <= IZR (Z.pos m))%R by (apply IZR_le; lia). nra.
Qed.

(** The number of digits plus the exponent, from bounds on the value. *)
Lemma mag_lower (m : positive) (e a : Z) :
  (exp2 a <= IZR (Z.pos m) * exp2 e)%R → a < Zdigits2 (Z.pos m) + e.
Proof.
  intros Hle. apply exp2_lt_inv. rewrite exp2_add.
  pose proof (digits_upper (Z.pos m) ltac:(lia)). pose proof (exp2_pos e). nra.
Qed.

Lemma mag_upper (m : positive) (e b : Z) :
  (IZR (Z.pos m) * exp2 e < exp2 b)%R → Zdigits2 (Z.pos m) + e ≤ b.
Proof.
  intros Hlt. assert (Zdigits2 (Z.pos m) - 1 + e < b); [|lia]. apply exp2_lt_inv.
  rewrite exp2_add.
  pose proof (digits_lower (Z.pos m) ltac:(lia)). pose proof (exp2_pos e). nra.
Qed.

Lemma exp2_480_960 : (exp2 480 * exp2 480 < exp2 1023)%R.
Proof. rewrite <- exp2_add. by apply exp2_lt. Qed.

(** *** Multiplication *)

(** The product of two positive numbers is within 2^-53 of the exact
    product, when that neither overflows nor underflows. *)
Lemma mul_value (f g : float) (vf vg : R) :
  pos_value f vf → pos_value g vg →
  (vf < exp2 480)%R → (vg < exp2 480)%R → (exp2 (-1022) <= vf * vg)%R →
  ∃ v, pos_value (f * g) v ∧ (Rabs (v - vf * vg) <= exp2 (-53) * (vf * vg))%R.
Proof.
  intros (m1 & e1 & Hf & ->) (m2 & e2 & Hg & ->) H1 H2 Hlow.
  pose proof (value_exponent _ _ _ H1) as He1. pose proof (value_exponent _ _ _ H2) as He2.
  assert (Hprod : (IZR (Z.pos (m1 * m2)) * exp2 (e1 + e2)
                   = IZR (Z.pos m1) * exp2 e1 * (IZR (Z.pos m2) * exp2 e2))%R).
  { rewrite Pos2Z.inj_mul, mult_IZR, exp2_add. ring. }
  assert (Hpos1 : (0 < IZR (Z.pos m1) * exp2 e1)%R).
  { apply Rmult_lt_0_compat; [by apply IZR_lt|apply exp2_pos]. }
  assert (Hpos2 : (0 < IZR (Z.pos m2) * exp2 e2)%R).
  { apply Rmult_lt_0_compat; [by apply IZR_lt|apply exp2_pos]. }
  destruct (binary_round_aux_value false (Z.pos (m1 * m2)) (e1 + e2) loc_Exact
              (IZR (Z.pos (m1 * m2)))) as (M & E & Hr & Herr);
    [done | done | by left | by rewrite Hprod | | lia |].
  { rewrite Hprod. pose proof exp2_480_960. nra. }
  exists (IZR (Z.pos M) * exp2 E)%R. split.
  - exists M, E. split; [|done]. by rewrite FloatAxioms.mul_spec, Hf, Hg.
  - by rewrite <- Hprod.
Qed.

(** *** Conversion of an integer *)

Lemma Pos_iter_xO (p d : positive) : Z.pos (Pos.iter xO p d) = Z.pos p * 2 ^ Z.pos d.
Proof.
  induction d as [|d IH] using Pos.peano_ind.
  - simpl. lia.
  - rewrite Pos.iter_succ, Pos2Z.inj_xO, IH, Pos2Z.inj_succ, Z.pow_succ_r by lia. ring.
Qed.

(** Aligning a mantissa to a smaller exponent keeps the value. *)
Lemma shl_align_value (mx : positive) (ex ex' : Z) :
  (IZR (Z.pos (shl_align mx ex ex').1) * exp2 (shl_align mx ex ex').2
   = IZR (Z.pos mx) * exp2 ex)%R
  ∧ (shl_align mx ex ex').2 ≤ ex.
Proof.
  unfold shl_align. destruct (ex' - ex) as [|d|d] eqn:Hd; cbn [fst snd]; [done..|].
  split; [|lia]. rewrite Pos_iter_xO, mult_IZR, <- exp2_IZR by lia.
  rewrite Rmult_assoc, <- exp2_add. do 2 f_equal. lia.
Qed.

Lemma binary_round_value (s : bool) (p : positive) (e : Z) :
  (exp2 (-1022) <= IZR (Z.pos p) * exp2 e)%R → (IZR (Z.pos p) * exp2 e < exp2 1023)%R →
  e ≤ 971 →
  ∃ M E, binary_round prec emax s p e = S754_finite s M E
    ∧ (Rabs (IZR (Z.pos M) * exp2 E - IZR (Z.pos p) * exp2 e)
       <= exp2 (-53) * (IZR (Z.pos p) * exp2 e))%R.
Proof.
  intros Hlow Hhigh He. unfold binary_round.
  destruct (shl_align_value p e (fexp prec emax (Z.pos (digits2_pos p) + e))) as [Hval Hexp].
  destruct (shl_align p e _) as [mz ez]. cbn [fst snd] in Hval, Hexp.
  rewrite <- Hval in *.
  by apply (binary_round_aux_value s (Z.pos mz) ez loc_Exact (IZR (Z.pos mz)));
    [lia | | left | | | lia].
Qed.

(** [float(z)] for a positive integer [z] is within 2^-53 of [z]. *)
Lemma float_of_int_value (z : Z) :
  0 < z < 2 ^ 63 →
  ∃ v, pos_value (float_of_int z) v ∧ (Rabs (v - IZR z) <= exp2 (-53) * IZR z)%R.
Proof.
  intros Hz. unfold float_of_int.
  destruct (z <? 0) eqn:Hneg; [lia|].
  destruct z as [|p|p]; [lia| |lia].
  assert (Hone : (1 <= IZR (Z.pos p))%R) by (apply IZR_le; lia).
  assert (Hlt : (IZR (Z.pos p) < exp2 63)%R).
  { rewrite exp2_IZR by lia. apply IZR_lt. lia. }
  destruct (binary_round_value false p 0) as (M & E & Hr & Herr).
  - replace (exp2 0) with 1%R by done. pose proof (exp2_lt (-1022) 0 ltac:(lia)).
    replace (exp2 0) with 1%R in * by done. lra.
  - replace (exp2 0) with 1%R by done. pose proof (exp2_lt 63 1023 ltac:(lia)). lra.
  - lia.
  - replace (exp2 0) with 1%R in Herr by done. rewrite !Rmult_1_r in Herr.
    exists (IZR (Z.pos M) * exp2 E)%R. split; [|done]. exists M, E. split; [|done].
    rewrite of_uint63_spec, Uint63.of_Z_spec, Z.mod_small by (change wB with (2 ^ 63); lia).
    done.
Qed.

(** *** Addition *)

Lemma shl_align_exponent (mx : positive) (ex ex' : Z) :
  ex' ≤ ex → (shl_align mx ex ex').2 = ex'.
Proof.
  intros Hle. unfold shl_align. destruct (ex' - ex) as [|d|d] eqn:Hd; cbn [snd]; lia.
Qed.

(** The sum of two positive numbers is within 2^-53 of the exact sum. *)
Lemma add_value (f g : float) (vf vg : R) :
  pos_value f vf → pos_value g vg →
  (exp2 (-480) <= vf < exp2 480)%R → (exp2 (-480) <= vg < exp2 480)%R →
  ∃ v, pos_value (f + g) v ∧ (Rabs (v - (vf + vg)) <= exp2 (-53) * (vf + vg))%R.
Proof.
  intros (m1 & e1 & Hf & ->) (m2 & e2 & Hg & ->) [Hl1 Hu1] [Hl2 Hu2].
  pose proof (finite_exponent _ _ _ _ Hf) as He1.
  set (ez := Z.min e1 e2).
  destruct (shl_align_value m1 e1 ez) as [Hv1 _].
  destruct (shl_align_value m2 e2 ez) as [Hv2 _].
  rewrite shl_align_exponent in Hv1, Hv2 by lia.
  set (a := (shl_align m1 e1 ez).1) in *. set (b := (shl_align m2 e2 ez).1) in *.
  assert (Hsum : (IZR (Z.pos (a + b)) * exp2 ez
                  = IZR (Z.pos m1) * exp2 e1 + IZR (Z.pos m2) * exp2 e2)%R).
  { rewrite Pos2Z.inj_add, plus_IZR, <- Hv1, <- Hv2. ring. }
  pose proof (exp2_lt (-1022) (-480) ltac:(lia)).
  assert (exp2 480 + exp2 480 < exp2 1023)%R.
  { pose proof (exp2_lt 481 1023 ltac:(lia)) as Hlt. replace 481 with (1 + 480) in Hlt by lia.
    rewrite exp2_add in Hlt. replace (exp2 1) with 2%R in Hlt by (unfold exp2; simpl; lra). lra. }
  destruct (binary_round_value false (a + b) ez) as (M & E & Hr & Herr).
  { rewrite Hsum. pose proof (exp2_pos (-480)). lra. }
  { rewrite Hsum. lra. }
  { lia. }
  exists (IZR (Z.pos M) * exp2 E)%R. split; [|by rewrite <- Hsum].
  exists M, E. split; [|done].
  rewrite FloatAxioms.add_spec, Hf, Hg. done.
Qed.

(** *** Division *)

(** The remainder of the integer division locates the exact quotient. *)
Lemma new_location_located (q r b : Z) :
  0 < b → 0 ≤ r < b → located q (new_location b r) (IZR q + IZR r / IZR b).
Proof.
  intros Hb Hr. set (t := (IZR r / IZR b)%R).
  assert (Hb' : (0 < IZR b)%R) by (by apply IZR_lt).
  assert (Ht : (t * IZR b = IZR r)%R) by (unfold t; field; lra).
  assert (Hr' : (0 <= IZR r < IZR b)%R) by (split; [apply IZR_le|apply IZR_lt]; lia).
  assert (Ht0 : r = 0 → t = 0%R).
  { intros H. unfold t. rewrite H. unfold Rdiv. apply Rmult_0_l. }
  assert (Ht1 : (t < 1)%R).
  { apply (Rmult_lt_reg_r (IZR b)); [done|]. rewrite Ht. lra. }
  assert (Hlt : r ≠ 0 → 2 * r < b → (0 < t < / 2)%R).
  { intros H0 H. apply IZR_lt in H. rewrite mult_IZR in H.
    assert (0 < IZR r)%R by (apply IZR_lt; lia).
    split; apply (Rmult_lt_reg_r (IZR b)); try done; rewrite Ht; lra. }
  assert (Hgt : b < 2 * r → (/ 2 < t)%R).
  { intros H. apply IZR_lt in H. rewrite mult_IZR in H.
    apply (Rmult_lt_reg_r (IZR b)); [done|]. rewrite Ht. lra. }
  assert (Heq : 2 * r = b → (t = / 2)%R).
  { intros H. apply (f_equal IZR) in H. rewrite mult_IZR in H.
    apply (Rmult_eq_reg_r (IZR b)); [|lra]. rewrite Ht. lra. }
  unfold new_location. destruct (Z.even b) eqn:Heven.
  - unfold new_location_even. destruct (r =? 0) eqn:Hr0.
    + apply Z.eqb_eq in Hr0. cbn [located]. rewrite (Ht0 Hr0). lra.
    + apply Z.eqb_neq in Hr0.
      destruct (2 * r ?= b) eqn:Hc; cbn [located].
      * apply Z.compare_eq in Hc. rewrite (Heq Hc). lra.
      * change (2 * r < b) in Hc. specialize (Hlt Hr0 Hc). lra.
      * apply Z.compare_gt_iff in Hc. specialize (Hgt Hc). lra.
  - assert (Hodd : 2 * r ≠ b).
    { intros <-. rewrite Z.even_mul in Heven. done. }
    unfold new_location_odd. destruct (r =? 0) eqn:Hr0.
    + apply Z.eqb_eq in Hr0. cbn [located]. rewrite (Ht0 Hr0). lra.
    + apply Z.eqb_neq in Hr0.
      destruct (2 * r + 1 ?= b) eqn:Hc; cbn [located].
      * apply Z.compare_eq in Hc. assert (Hc' : 2 * r < b) by lia. specialize (Hlt Hr0 Hc'). lra.
      * change (2 * r + 1 < b) in Hc. assert (Hc' : 2 * r < b) by lia.
        specialize (Hlt Hr0 Hc'). lra.
      * apply Z.compare_gt_iff in Hc. assert (Hc' : b < 2 * r) by lia.
        specialize (Hgt Hc'). lra.
Qed.

Lemma exp2_sub (a b : Z) : exp2 (a - b) = (exp2 a / exp2 b)%R.
Proof.
  pose proof (exp2_pos b).
  assert (Hab : (exp2 (a - b) * exp2 b = exp2 a)%R) by (rewrite <- exp2_add; f_equal; lia).
  apply (Rmult_eq_reg_r (exp2 b)); [|lra]. rewrite Hab. field. lra.
Qed.

(** The quotient of two positive numbers is within 2^-53 of the exact
    quotient. *)
Lemma div_value (f g : float) (vf vg : R) :
  pos_value f vf → pos_value g vg →
  (exp2 (-480) <= vf < exp2 480)%R → (exp2 (-480) <= vg < exp2 480)%R →
  ∃ v, pos_value (f / g) v ∧ (Rabs (v - vf / vg) <= exp2 (-53) * (vf / vg))%R.
Proof.
  intros (m1 & e1 & Hf & ->) (m2 & e2 & Hg & ->) [Hl1 Hu1] [Hl2 Hu2].
  pose proof (mag_lower _ _ _ Hl1) as Hma1. pose proof (mag_upper _ _ _ Hu1) as Hmb1.
  pose proof (mag_lower _ _ _ Hl2) as Hma2. pose proof (mag_upper _ _ _ Hu2) as Hmb2.
  set (d1 := Zdigits2 (Z.pos m1)) in *. set (d2 := Zdigits2 (Z.pos m2)) in *.
  assert (Hd1 : d1 = Z.log2 (Z.pos m1) + 1) by (by apply Zdigits2_log2).
  assert (Hd2 : d2 = Z.log2 (Z.pos m2) + 1) by (by apply Zdigits2_log2).
  pose proof (Z.log2_nonneg (Z.pos m1)) as Hl1'.
  pose proof (Z.log2_nonneg (Z.pos m2)) as Hl2'.
  set (e' := Z.min (fexp prec emax (d1 + e1 - (d2 + e2))) (e1 - e2)).
  assert (He' : e' ≤ e1 - e2 ∧ e' ≤ d1 + e1 - (d2 + e2) - 53).
  { unfold e', fexp, SpecFloat.emin, prec, emax. lia. }
  destruct He' as (Hs & Hs').
  set (s := e1 - e2 - e').
  set (m' := match s with Z.pos _ => Z.shiftl (Z.pos m1) s | 0 => Z.pos m1 | Z.neg _ => 0 end).
  assert (Hm' : m' = Z.pos m1 * 2 ^ s).
  { unfold m'. destruct s as [|ps|ps] eqn:Hps; [lia| |lia].
    by rewrite Z.shiftl_mul_pow2. }
  assert (Hge : Z.pos m2 * 2 ^ 52 ≤ m').
  { rewrite Hm'. transitivity (2 ^ d2 * 2 ^ 52).
    - apply Z.mul_le_mono_nonneg_r; [done|]. rewrite Hd2. apply Z.lt_le_incl.
      by apply Z.log2_spec.
    - transitivity (2 ^ (d1 - 1) * 2 ^ s).
      + rewrite <- !Z.pow_add_r by lia. apply Z.pow_le_mono_r; lia.
      + apply Z.mul_le_mono_nonneg_r; [apply Z.pow_nonneg; lia|].
        replace (d1 - 1) with (Z.log2 (Z.pos m1)) by lia. by apply Z.log2_spec. }
  destruct (Z.div_eucl m' (Z.pos m2)) as [q r] eqn:Hdiv.
  pose proof (Z_div_mod m' (Z.pos m2) ltac:(lia)) as Hspec. rewrite Hdiv in Hspec.
  destruct Hspec as [Heq Hr].
  assert (Hq : 2 ^ 52 ≤ q).
  { replace q with (m' / Z.pos m2) by (unfold Z.div; by rewrite Hdiv).
    apply Z.div_le_lower_bound; [done|lia]. }
  assert (Hqpos : 0 < q) by lia.
  assert (Hdq : 53 ≤ Zdigits2 q).
  { rewrite Zdigits2_log2 by done. assert (52 ≤ Z.log2 q); [|lia].
    by apply Z.log2_le_pow2. }
  set (u := (IZR q + IZR r / IZR (Z.pos m2))%R).
  assert (Hpos2 : (0 < IZR (Z.pos m2))%R) by (by apply IZR_lt).
  assert (Hpos1 : (0 < IZR (Z.pos m1))%R) by (by apply IZR_lt).
  pose proof (exp2_pos e1) as Hpe1. pose proof (exp2_pos e2) as Hpe2.
  assert (Hu : (u * exp2 e'
                = IZR (Z.pos m1) * exp2 e1 / (IZR (Z.pos m2) * exp2 e2))%R).
  { assert (Hu' : (u = IZR m' / IZR (Z.pos m2))%R).
    { unfold u. rewrite Heq, plus_IZR, mult_IZR. field. lra. }
    rewrite Hu', Hm', mult_IZR, <- exp2_IZR by lia.
    assert (He1 : exp2 e1 = (exp2 s * exp2 e' * exp2 e2)%R).
    { rewrite <- !exp2_add. f_equal. lia. }
    rewrite He1. field. split; lra. }
  assert (Hquot : (exp2 (-960) <= IZR (Z.pos m1) * exp2 e1 / (IZR (Z.pos m2) * exp2 e2)
                   < exp2 960)%R).
  { set (x := (IZR (Z.pos m1) * exp2 e1)%R) in *. set (y := (IZR (Z.pos m2) * exp2 e2)%R) in *.
    assert (Hy : (0 < y)%R) by (unfold y; nra).
    assert (Hxy : (x / y * y = x)%R) by (field; lra).
    pose proof (exp2_pos (-480)). pose proof (exp2_pos 480).
    assert (H1 : (exp2 (-960) * exp2 480 = exp2 (-480))%R) by (by rewrite <- exp2_add).
    assert (H2 : (exp2 960 * exp2 (-480) = exp2 480)%R) by (by rewrite <- exp2_add).
    pose proof (exp2_pos (-960)). pose proof (exp2_pos 960).
    set (z := (x / y)%R) in *. split.
    - destruct (Rle_lt_dec (exp2 (-960)) z) as [|Hc]; [done|]. nra.
    - destruct (Rle_lt_dec (exp2 960) z) as [Hc|]; [|done]. nra. }
  destruct (binary_round_aux_value false q e' (new_location (Z.pos m2) r) u)
    as (M & E & Hr' & Herr).
  - done.
  - by apply new_location_located.
  - by right.
  - rewrite Hu. pose proof (exp2_lt (-1022) (-960) ltac:(lia)). lra.
  - rewrite Hu. pose proof (exp2_lt 960 1023 ltac:(lia)). lra.
  - lia.
  - exists (IZR (Z.pos M) * exp2 E)%R. split; [|by rewrite <- Hu].
    exists M, E. split; [|done].
    rewrite FloatAxioms.div_spec, Hf, Hg. unfold SF64div, SFdiv, SFdiv_core_binary.
    cbn [xorb]. fold d1 d2 e' s m'. rewrite Hdiv. exact Hr'.
Qed.

(** *** Square root *)

Lemma sqrt_exp2 (a : Z) : sqrt (exp2 (a + a)) = exp2 a.
Proof. rewrite exp2_add. apply sqrt_square. pose proof (exp2_pos a). lra. Qed.

(** The remainder of the integer square root locates the exact root. *)
Lemma sqrtrem_located (n q r : Z) :
  0 ≤ q → n = q * q + r → 0 ≤ r ≤ 2 * q →
  located q (if r =? 0 then loc_Exact else loc_Inexact (if r <=? q then Lt else Gt))
    (sqrt (IZR n)).
Proof.
  intros Hq Hn Hr.
  assert (Hn' : (IZR n = IZR q * IZR q + IZR r)%R) by (by rewrite Hn, plus_IZR, mult_IZR).
  assert (Hq' : (0 <= IZR q)%R) by (by apply IZR_le).
  assert (Hr' : (0 <= IZR r <= 2 * IZR q)%R).
  { split; [apply IZR_le; lia|]. rewrite <- mult_IZR. apply IZR_le. lia. }
  assert (Hn0 : (0 <= IZR n)%R) by nra.
  pose proof (sqrt_pos (IZR n)) as Hu. pose proof (sqrt_sqrt (IZR n) Hn0) as Hsq.
  set (u := sqrt (IZR n)) in *.
  destruct (r =? 0) eqn:Hr0.
  - apply Z.eqb_eq in Hr0. cbn [located]. assert (IZR r = 0%R) by (by subst r).
    assert (Huq : (u * u = IZR q * IZR q)%R) by lra.
    destruct (Rle_lt_dec u (IZR q)) as [Hle|Hlt]; [|nra].
    destruct (Rle_lt_dec (IZR q) u) as [Hle'|Hlt']; [lra|nra].
  - apply Z.eqb_neq in Hr0. assert (1 <= IZR r)%R by (apply IZR_le; lia).
    destruct (r <=? q) eqn:Hrq; cbn [located].
    + apply Z.leb_le in Hrq. assert (IZR r <= IZR q)%R by (by apply IZR_le).
      split.
      * destruct (Rle_lt_dec u (IZR q)) as [Hle|Hlt]; [nra|done].
      * destruct (Rle_lt_dec (IZR q + / 2) u) as [Hle|Hlt]; [nra|done].
    + apply Z.leb_gt in Hrq. assert (IZR q + 1 <= IZR r)%R.
      { rewrite <- plus_IZR. apply IZR_le. lia. }
      split.
      * destruct (Rle_lt_dec u (IZR q + / 2)) as [Hle|Hlt]; [nra|done].
      * destruct (Rle_lt_dec (IZR q + 1) u) as [Hle|Hlt]; [nra|done].
Qed.

(** The square root of a positive number is within 2^-53 of the exact
    root. *)
Lemma sqrt_value (f : float) (vf : R) :
  pos_value f vf →
  (exp2 (-480) <= vf < exp2 480)%R →
  ∃ v, pos_value (PrimFloat.sqrt f) v
       ∧ (Rabs (v - sqrt vf) <= exp2 (-53) * sqrt vf)%R.
Proof.
  intros (m & e & Hf & ->) [Hl Hu].
  pose proof (mag_lower _ _ _ Hl) as Hma. pose proof (mag_upper _ _ _ Hu) as Hmb.
  set (d := Zdigits2 (Z.pos m)) in *.
  assert (Hd : d = Z.log2 (Z.pos m) + 1) by (by apply Zdigits2_log2).
  pose proof (Z.log2_nonneg (Z.pos m)) as Hlog.
  set (e' := Z.min (fexp prec emax (Z.div2 (d + e + 1))) (Z.div2 e)).
  assert (He' : 2 * e' ≤ e ∧ 2 * e' ≤ d + e + 1 - 106).
  { unfold e', fexp, SpecFloat.emin, prec, emax. rewrite !Z.div2_div.
    pose proof (Z.mul_div_le (d + e + 1) 2 ltac:(lia)) as Ha.
    pose proof (Z.mul_div_le e 2 ltac:(lia)) as Hb.
    assert (Hc : -240 ≤ (d + e + 1) / 2) by (apply Z.div_le_lower_bound; lia).
    set (a := (d + e + 1) / 2) in *. set (b := e / 2) in *. clearbody a b. lia. }
  destruct He' as (Hs & Hs').
  set (s := e - 2 * e').
  set (m' := match s with Z.pos _ => Z.shiftl (Z.pos m) s | 0 => Z.pos m | Z.neg _ => 0 end).
  assert (Hm' : m' = Z.pos m * 2 ^ s).
  { unfold m'. destruct s as [|ps|ps] eqn:Hps; [lia| |lia].
    by rewrite Z.shiftl_mul_pow2. }
  assert (Hge : 2 ^ 104 ≤ m').
  { rewrite Hm'. transitivity (2 ^ (d - 1) * 2 ^ s).
    - rewrite <- !Z.pow_add_r by lia. apply Z.pow_le_mono_r; lia.
    - apply Z.mul_le_mono_nonneg_r; [apply Z.pow_nonneg; lia|].
      replace (d - 1) with (Z.log2 (Z.pos m)) by lia. by apply Z.log2_spec. }
  destruct (Z.sqrtrem m') as [q r] eqn:Hsqrt.
  pose proof (Z.sqrtrem_spec m' ltac:(lia)) as Hspec. rewrite Hsqrt in Hspec.
  destruct Hspec as [Heq Hr].
  assert (Hq0 : 0 ≤ q).
  { pose proof (Z.sqrtrem_sqrt m') as Hfst. rewrite Hsqrt in Hfst. cbn [fst] in Hfst.
    rewrite Hfst. apply Z.sqrt_nonneg. }
  assert (Hq : 2 ^ 52 ≤ q).
  { change (2 ^ 104) with (4503599627370496 * 4503599627370496) in Hge.
    change (2 ^ 52) with 4503599627370496. nia. }
  assert (Hqpos : 0 < q) by lia.
  assert (Hdq : 53 ≤ Zdigits2 q).
  { rewrite Zdigits2_log2 by done. assert (52 ≤ Z.log2 q); [|lia].
    by apply Z.log2_le_pow2. }
  pose proof (exp2_pos e') as Hpe'.
  assert (Hval : (IZR (Z.pos m) * exp2 e = IZR m' * (exp2 e' * exp2 e'))%R).
  { rewrite Hm', mult_IZR, <- exp2_IZR by lia. rewrite <- exp2_add, Rmult_assoc, <- exp2_add.
    do 2 f_equal. lia. }
  assert (Hm'0 : (0 <= IZR m')%R) by (apply IZR_le; lia).
  assert (Hu' : (sqrt (IZR m') * exp2 e' = sqrt (IZR (Z.pos m) * exp2 e))%R).
  { rewrite Hval, sqrt_mult by nra. f_equal. rewrite sqrt_square; lra. }
  assert (Hrange : (exp2 (-240) <= sqrt (IZR (Z.pos m) * exp2 e) < exp2 240)%R).
  { rewrite <- (sqrt_exp2 (-240)), <- (sqrt_exp2 240).
    change (-240 + -240) with (-480). change (240 + 240) with 480.
    pose proof (exp2_pos (-480)).
    split; [by apply sqrt_le_1_alt|]. apply sqrt_lt_1_alt. lra. }
  destruct (binary_round_aux_value false q e'
              (if r =? 0 then loc_Exact else loc_Inexact (if r <=? q then Lt else Gt))
              (sqrt (IZR m'))) as (M & E & Hr' & Herr).
  - done.
  - by apply sqrtrem_located.
  - by right.
  - rewrite Hu'. pose proof (exp2_lt (-1022) (-240) ltac:(lia)). lra.
  - rewrite Hu'. pose proof (exp2_lt 240 1023 ltac:(lia)). lra.
  - lia.
  - exists (IZR (Z.pos M) * exp2 E)%R. split; [|by rewrite <- Hu'].
    exists M, E. split; [|done].
    rewrite FloatAxioms.sqrt_spec, Hf. unfold SF64sqrt, SFsqrt, SFsqrt_core_binary.
    fold d e' s m'. rewrite Hsqrt. exact Hr'.
Qed.

(** *** Accumulating relative errors *)

Lemma near_of_Rabs (δ v x : R) : (Rabs (v - x) <= δ * x)%R → near δ v x.
Proof.
  intros H. unfold near.
  pose proof (Rle_abs (v - x)). pose proof (Rle_abs (- (v - x))) as H'.
  rewrite Rabs_Ropp in H'. lra.
Qed.

Lemma near_Rabs (δ v x : R) : near δ v x → (Rabs (v - x) <= δ * x)%R.
Proof. intros [H1 H2]. apply Rabs_le. lra. Qed.

Lemma near_refl (v : R) : near 0 v v.
Proof. unfold near. lra. Qed.

Lemma near_weaken (δ δ' v x : R) : near δ v x → (0 <= x)%R → (δ <= δ')%R → near δ' v x.
Proof. unfold near. intros [H1 H2] Hx Hd. split; nra. Qed.

(** Relative errors add up, with a second-order term that the bound
    [δ] of the conclusion has to cover. *)
Lemma near_trans (δ1 δ2 δ v w x : R) :
  near δ1 v w → near δ2 w x → (0 <= x)%R →
  (0 <= δ1 <= 1)%R → (0 <= δ2 <= 1)%R →
  ((1 + δ1) * (1 + δ2) <= 1 + δ)%R →
  near δ v x.
Proof.
  unfold near. intros [H1 H2] [H3 H4] Hx Hd1 Hd2 Hd.
  assert (0 <= w)%R by nra.
  split.
  - assert ((1 - δ) * x <= (1 - δ1) * ((1 - δ2) * x))%R; [|nra].
    assert (1 - δ <= (1 - δ1) * (1 - δ2))%R by nra. nra.
  - assert ((1 + δ1) * ((1 + δ2) * x) <= (1 + δ) * x)%R; [|nra]. nra.
Qed.

Lemma near_mul (δ1 δ2 δ v1 v2 x1 x2 : R) :
  near δ1 v1 x1 → near δ2 v2 x2 → (0 <= x1)%R → (0 <= x2)%R →
  (0 <= δ1 <= 1)%R → (0 <= δ2 <= 1)%R →
  ((1 + δ1) * (1 + δ2) <= 1 + δ)%R →
  near δ (v1 * v2) (x1 * x2).
Proof.
  unfold near. intros [H1 H2] [H3 H4] Hx1 Hx2 Hd1 Hd2 Hd.
  assert (0 <= v1)%R by nra. assert (0 <= v2)%R by nra.
  assert (Hp : (0 <= x1 * x2)%R) by nra.
  split.
  - assert ((1 - δ) * (x1 * x2) <= ((1 - δ1) * x1) * ((1 - δ2) * x2))%R.
    { assert (1 - δ <= (1 - δ1) * (1 - δ2))%R by nra.
      replace (((1 - δ1) * x1) * ((1 - δ2) * x2))%R
        with ((1 - δ1) * (1 - δ2) * (x1 * x2))%R by ring. nra. }
    assert (((1 - δ1) * x1) * ((1 - δ2) * x2) <= v1 * v2)%R; [|lra].
    apply Rmult_le_compat; nra.
  - assert (v1 * v2 <= ((1 + δ1) * x1) * ((1 + δ2) * x2))%R.
    { apply Rmult_le_compat; nra. }
    replace (((1 + δ1) * x1) * ((1 + δ2) * x2))%R
      with ((1 + δ1) * (1 + δ2) * (x1 * x2))%R in * by ring. nra.
Qed.

Lemma near_add (δ v1 v2 x1 x2 : R) :
  near δ v1 x1 → near δ v2 x2 → near δ (v1 + v2) (x1 + x2).
Proof. unfold near. intros [H1 H2] [H3 H4]. lra. Qed.

Lemma near_sqrt (δ v x : R) :
  near δ v x → (0 <= x)%R → (0 <= δ <= 1)%R → near δ (sqrt v) (sqrt x).
Proof.
  unfold near. intros [H1 H2] Hx Hd.
  pose proof (sqrt_pos x) as Hsx. pose proof (sqrt_sqrt x Hx) as Hsq.
  assert (Hv : (0 <= v)%R) by nra.
  split.
  - rewrite <- (sqrt_square ((1 - δ) * sqrt x)) by nra.
    apply sqrt_le_1_alt.
    replace ((1 - δ) * sqrt x * ((1 - δ) * sqrt x))%R
      with ((1 - δ) * (1 - δ) * (sqrt x * sqrt x))%R by ring.
    rewrite Hsq. nra.
  - rewrite <- (sqrt_square ((1 + δ) * sqrt x)) by nra.
    apply sqrt_le_1_alt.
    replace ((1 + δ) * sqrt x * ((1 + δ) * sqrt x))%R
      with ((1 + δ) * (1 + δ) * (sqrt x * sqrt x))%R by ring.
    rewrite Hsq. nra.
Qed.

Lemma near_div (δ1 δ2 δ v1 v2 x1 x2 : R) :
  near δ1 v1 x1 → near δ2 v2 x2 → (0 <= x1)%R → (0 < x2)%R →
  (0 <= δ1 <= 1)%R → (0 <= δ2 < 1)%R → (δ <= 1)%R →
  (1 + δ1 <= (1 + δ) * (1 - δ2))%R →
  near δ (v1 / v2) (x1 / x2).
Proof.
  unfold near. intros [H1 H2] [H3 H4] Hx1 Hx2 Hd1 Hd2 Hd3 Hd.
  assert (Hv2 : (0 < v2)%R) by nra.
  assert (Hq : (0 <= x1 / x2)%R) by (apply Rmult_le_pos; [done|]; left; by apply Rinv_0_lt_compat).
  assert (Hx : (x1 / x2 * x2 = x1)%R) by (field; lra).
  set (y := (x1 / x2)%R) in *.
  assert (Hδ : (0 <= δ)%R) by nra.
  split.
  - apply (Rmult_le_reg_r v2); [done|].
    replace (v1 / v2 * v2)%R with v1 by (field; lra).
    assert ((1 - δ) * y * v2 <= (1 - δ) * y * ((1 + δ2) * x2))%R.
    { apply Rmult_le_compat_l; [nra|lra]. }
    assert ((1 - δ) * (1 + δ2) <= 1 - δ1)%R by nra.
    replace ((1 - δ) * y * ((1 + δ2) * x2))%R with ((1 - δ) * (1 + δ2) * (y * x2))%R in * by ring.
    rewrite Hx in *. nra.
  - apply (Rmult_le_reg_r v2); [done|].
    replace (v1 / v2 * v2)%R with v1 by (field; lra).
    assert ((1 + δ) * y * ((1 - δ2) * x2) <= (1 + δ) * y * v2)%R.
    { apply Rmult_le_compat_l; [nra|lra]. }
    replace ((1 + δ) * y * ((1 - δ2) * x2))%R with ((1 + δ) * (1 - δ2) * (y * x2))%R in * by ring.
    rewrite Hx in *. nra.
Qed.

(** *** The speed computed in binary64 *)

Lemma exp2_neg_IZR (n : Z) : 0 ≤ n → exp2 (- n) = (/ IZR (2 ^ n))%R.
Proof.
  intros Hn. pose proof (exp2_opp n) as H. rewrite (exp2_IZR n) in H by done.
  assert (0 < IZR (2 ^ n))%R by (apply IZR_lt; apply Z.pow_pos_nonneg; lia).
  apply (Rmult_eq_reg_r (IZR (2 ^ n))); [|lra]. rewrite H. field. lra.
Qed.

Lemma exp2_neg_pos (p : positive) : exp2 (Z.neg p) = (/ IZR (2 ^ Z.pos p))%R.
Proof. change (Z.neg p) with (- Z.pos p). apply exp2_neg_IZR. lia. Qed.

(** The unit roundoff 2^-53, and a range of values well inside the
    normal range of binary64. *)
Lemma eps_value : exp2 (-53) = (/ 9007199254740992)%R.
Proof. by rewrite (exp2_neg_pos 53). Qed.

Lemma range_ok (v : R) :
  (/ 1267650600228229401496703205376 <= v <= 1267650600228229401496703205376)%R →
  (exp2 (-480) <= v < exp2 480)%R.
Proof.
  intros [Hl Hu].
  pose proof (exp2_le (-480) (-100) ltac:(lia)) as H1. rewrite (exp2_neg_pos 100) in H1.
  pose proof (exp2_lt 100 480 ltac:(lia)) as H2. rewrite (exp2_IZR 100) in H2 by lia.
  change (2 ^ 100) with 1267650600228229401496703205376 in *. lra.
Qed.

Lemma range_mul_ok (v w : R) :
  (/ 1267650600228229401496703205376 <= v)%R →
  (/ 1267650600228229401496703205376 <= w)%R →
  (exp2 (-1022) <= v * w)%R.
Proof.
  intros Hv Hw.
  pose proof (exp2_le (-1022) (-200) ltac:(lia)) as H1.
  replace (-200) with (-100 + -100) in H1 by lia. rewrite exp2_add in H1.
  rewrite (exp2_neg_pos 100) in H1.
  change (2 ^ 100) with 1267650600228229401496703205376 in *.
  assert (0 < / 1267650600228229401496703205376)%R by lra. nra.
Qed.

Lemma near_bounds (δ v x lo hi : R) :
  near δ v x → (0 <= δ <= / 2)%R → (0 <= lo <= x)%R → (x <= hi)%R →
  (lo / 2 <= v <= 2 * hi)%R.
Proof. unfold near. intros [H1 H2] Hd Hlo Hhi. nra. Qed.

(** The constants of the source as binary64 numbers. *)
Lemma lit_0_1_value :
  ∃ v, pos_value 0x1.999999999999ap-4%float v ∧ near (exp2 (-53)) v 0.1%R.
Proof.
  exists (IZR 7205759403792794 * exp2 (-56))%R. split.
  - exists 7205759403792794%positive, (-56). split; [vm_compute; reflexivity|done].
  - rewrite eps_value, (exp2_neg_pos 56).
    change (2 ^ 56) with 72057594037927936. unfold near. lra.
Qed.

Lemma lit_3_6_value :
  ∃ v, pos_value 0x1.ccccccccccccdp+1%float v ∧ near (exp2 (-53)) v 3.6%R.
Proof.
  exists (IZR 8106479329266893 * exp2 (-51))%R. split.
  - exists 8106479329266893%positive, (-51). split; [vm_compute; reflexivity|done].
  - rewrite eps_value, (exp2_neg_pos 51).
    change (2 ^ 51) with 2251799813685248. unfold near. lra.
Qed.

Lemma million_value : pos_value 1000000%float 1000000%R.
Proof.
  exists 8589934592000000%positive, (-33). split; [vm_compute; reflexivity|].
  rewrite (exp2_neg_pos 33). change (2 ^ 33) with 8589934592. lra.
Qed.

(** The square of the converted coordinate difference, which may be
    negative. *)
Lemma square_value_pos (z : Z) :
  0 < z < 2 ^ 31 →
  ∃ v, pos_value (float_of_int z * float_of_int z) v
       ∧ near (3.01 * exp2 (-53)) v (IZR (z * z)).
Proof.
  intros Hz. assert (2 ^ 31 < 2 ^ 63) by done.
  destruct (float_of_int_value z) as (v1 & Hp1 & He1%near_of_Rabs); [lia|].
  assert (Hzr : (1 <= IZR z <= 2147483648)%R).
  { change 2147483648%R with (IZR (2 ^ 31)). split; apply IZR_le; lia. }
  pose proof eps_value as Heps.
  destruct (near_bounds _ _ _ 1 2147483648 He1) as [Hl1 Hu1]; [rewrite Heps; lra|lra..|].
  destruct (range_ok v1) as [_ Hr1]; [lra|].
  destruct (mul_value _ _ v1 v1 Hp1 Hp1 Hr1 Hr1) as (v & Hp & He%near_of_Rabs).
  { apply range_mul_ok; lra. }
  exists v. split; [done|]. rewrite mult_IZR.
  apply (near_trans (exp2 (-53)) (2.005 * exp2 (-53)) _ v (v1 * v1)); try done.
  - apply (near_mul (exp2 (-53)) (exp2 (-53))); try done; rewrite ?Heps; lra.
  - nra.
  - rewrite Heps. lra.
  - rewrite Heps. lra.
  - rewrite Heps. lra.
Qed.

Lemma square_of_negative (z : Z) :
  z < 0 →
  PrimFloat.mul (float_of_int z) (float_of_int z)
  = PrimFloat.mul (float_of_int (- z)) (float_of_int (- z)).
Proof.
  intros Hz. apply Prim2SF_inj. rewrite !FloatAxioms.mul_spec. unfold float_of_int.
  destruct (z <? 0) eqn:H1; [|lia]. destruct (- z <? 0) eqn:H2; [lia|].
  rewrite FloatAxioms.opp_spec.
  destruct (Prim2SF (of_uint63 (of_Z (- z)))) as [[]|[]| |[] m e]; reflexivity.
Qed.

Lemma square_value (z : Z) :
  z ≠ 0 → Z.abs z < 2 ^ 31 →
  ∃ v, pos_value (float_of_int z * float_of_int z) v
       ∧ near (3.01 * exp2 (-53)) v (IZR (z * z)).
Proof.
  intros Hz Habs. destruct (Z_lt_le_dec z 0) as [Hneg|Hpos].
  - rewrite square_of_negative by done.
    replace (z * z) with (- z * - z) by lia. apply square_value_pos. lia.
  - apply square_value_pos. lia.
Qed.

Lemma square_bounds (z : Z) :
  z ≠ 0 → Z.abs z < 2 ^ 31 → (1 <= IZR (z * z) <= 4611686018427387904)%R.
Proof.
  intros Hz Habs. change 4611686018427387904%R with (IZR (2 ^ 62)).
  change (2 ^ 31) with 2147483648 in Habs. change (2 ^ 62) with 4611686018427387904.
  split; apply IZR_le; nia.
Qed.

Lemma add_zero_l (g : float) (v : R) : pos_value g v → pos_value (0 + g) v.
Proof.
  intros (m & e & Hg & ->). exists m, e. split; [|done].
  rewrite FloatAxioms.add_spec, Hg. reflexivity.
Qed.

Lemma add_zero_r (g : float) (v : R) : pos_value g v → pos_value (g + 0) v.
Proof.
  intros (m & e & Hg & ->). exists m, e. split; [|done].
  rewrite FloatAxioms.add_spec, Hg. reflexivity.
Qed.

(** The sum of the two squares, of which one may be zero. *)
Lemma sum_squares_value (dx dy : Z) :
  Z.abs dx < 2 ^ 31 → Z.abs dy < 2 ^ 31 → dx ≠ 0 ∨ dy ≠ 0 →
  ∃ v, pos_value (float_of_int dx * float_of_int dx + float_of_int dy * float_of_int dy) v
       ∧ near (4.02 * exp2 (-53)) v (IZR (dx * dx + dy * dy)).
Proof.
  intros Hx Hy Hnz. pose proof eps_value as Heps.
  destruct (decide (dx = 0)) as [->|Hx0]; [|destruct (decide (dy = 0)) as [->|Hy0]].
  - destruct Hnz as [|Hy0]; [done|].
    destruct (square_value dy Hy0 Hy) as (v & Hp & He).
    pose proof (square_bounds dy Hy0 Hy).
    exists v. split; [by apply (add_zero_l _ v)|].
    replace (0 * 0 + dy * dy) with (dy * dy) by lia.
    apply (near_weaken (3.01 * exp2 (-53))); [done|lra|rewrite Heps; lra].
  - destruct (square_value dx Hx0 Hx) as (v & Hp & He).
    pose proof (square_bounds dx Hx0 Hx).
    exists v. split; [by apply (add_zero_r _ v)|].
    replace (dx * dx + 0 * 0) with (dx * dx) by lia.
    apply (near_weaken (3.01 * exp2 (-53))); [done|lra|rewrite Heps; lra].
  - destruct (square_value dx Hx0 Hx) as (vx & Hpx & Hex).
    destruct (square_value dy Hy0 Hy) as (vy & Hpy & Hey).
    pose proof (square_bounds dx Hx0 Hx) as Hbx. pose proof (square_bounds dy Hy0 Hy) as Hby.
    destruct (near_bounds _ _ _ 1 4611686018427387904 Hex) as [Hlx Hux];
      [rewrite Heps; lra|lra..|].
    destruct (near_bounds _ _ _ 1 4611686018427387904 Hey) as [Hly Huy];
      [rewrite Heps; lra|lra..|].
    destruct (add_value _ _ vx vy Hpx Hpy) as (v & Hp & He%near_of_Rabs);
      [apply range_ok; lra..|].
    exists v. split; [done|]. rewrite plus_IZR.
    apply (near_trans (exp2 (-53)) (3.01 * exp2 (-53)) _ v (vx + vy)); try done.
    + by apply near_add.
    + lra.
    + rewrite Heps. lra.
    + rewrite Heps. lra.
    + rewrite Heps. lra.
Qed.

Lemma div_bounds (x y lo1 hi1 lo2 hi2 : R) :
  (0 < lo1 <= x)%R → (x <= hi1)%R → (0 < lo2 <= y)%R → (y <= hi2)%R →
  (lo1 / hi2 <= x / y <= hi1 / lo2)%R.
Proof.
  intros Hx1 Hx2 Hy1 Hy2. unfold Rdiv.
  assert (/ hi2 <= / y)%R by (apply Rinv_le_contravar; lra).
  assert (/ y <= / lo2)%R by (apply Rinv_le_contravar; lra).
  assert (0 < / hi2)%R by (apply Rinv_0_lt_compat; lra).
  assert (0 < / y)%R by (apply Rinv_0_lt_compat; lra).
  split; apply Rmult_le_compat; lra.
Qed.

(** The elapsed time in seconds. *)
Lemma seconds_value (td : Z) :
  0 < td < 2 ^ 53 →
  ∃ v, pos_value (float_of_int td / 1000000) v
       ∧ near (2.01 * exp2 (-53)) v (IZR td / 1000000)
       ∧ (0.000001 <= IZR td / 1000000 <= 9007199254.740992)%R.
Proof.
  intros Htd. assert (2 ^ 53 < 2 ^ 63) by done.
  destruct (float_of_int_value td) as (vt & Hpt & Het%near_of_Rabs); [lia|].
  assert (Ht : (1 <= IZR td <= 9007199254740992)%R).
  { change 9007199254740992%R with (IZR (2 ^ 53)). split; apply IZR_le; lia. }
  destruct (near_bounds _ _ _ 1 9007199254740992 Het) as [Hlt Hut];
    [rewrite ?eps_value; lra|lra..|].
  destruct (div_value _ _ vt 1000000 Hpt million_value) as (vs & Hps & Hes%near_of_Rabs);
    [apply range_ok; lra..|].
  exists vs. split; [done|]. split; [|lra].
  apply (near_trans (exp2 (-53)) (exp2 (-53)) _ vs (vt / 1000000));
    [done | | lra | (rewrite ?eps_value; lra)..].
  unfold near in *. lra.
Qed.

(** The speed of a vehicle that has moved. *)
Lemma speed_value (dx dy td : Z) :
  Z.abs dx < 2 ^ 31 → Z.abs dy < 2 ^ 31 → dx ≠ 0 ∨ dy ≠ 0 → 0 < td < 2 ^ 53 →
  ∃ v, pos_value
         (PrimFloat.sqrt (float_of_int dx * float_of_int dx
                          + float_of_int dy * float_of_int dy)
          * 0x1.999999999999ap-4 / (float_of_int td / 1000000)
          * 0x1.ccccccccccccdp+1)%float v
       ∧ near (16 * exp2 (-53)) v
           (sqrt (IZR (dx * dx + dy * dy)) * 0.1 / (IZR td / 1000000) * 3.6)%R.
Proof.
  intros Hx Hy Hnz Htd.
  (* the sum of squares *)
  destruct (sum_squares_value dx dy Hx Hy Hnz) as (vS & HpS & HeS).
  set (D := IZR (dx * dx + dy * dy)) in *.
  assert (HD : (1 <= D <= 9223372036854775808)%R).
  { unfold D. change 9223372036854775808%R with (IZR (2 ^ 63)).
    change (2 ^ 31) with 2147483648 in Hx, Hy. change (2 ^ 63) with 9223372036854775808.
    split; apply IZR_le; nia. }
  destruct (near_bounds _ _ _ 1 9223372036854775808 HeS) as [HlS HuS]; [rewrite ?eps_value; lra|lra..|].
  (* its square root *)
  destruct (sqrt_value _ vS HpS) as (vr & Hpr & Her%near_of_Rabs); [apply range_ok; lra|].
  assert (Hr : (1 <= sqrt D <= 4294967296)%R).
  { split.
    - rewrite <- sqrt_1. apply sqrt_le_1_alt. lra.
    - rewrite <- (sqrt_square 4294967296) by lra. apply sqrt_le_1_alt. lra. }
  assert (Her' : near (5.03 * exp2 (-53)) vr (sqrt D)).
  { apply (near_trans (exp2 (-53)) (4.02 * exp2 (-53)) _ vr (sqrt vS));
      [done | | lra | (rewrite ?eps_value; lra)..]. apply near_sqrt; [done|lra|rewrite ?eps_value; lra]. }
  destruct (near_bounds _ _ _ 1 4294967296 Her') as [Hlr Hur]; [rewrite ?eps_value; lra|lra..|].
  (* times 0.1 *)
  destruct lit_0_1_value as (vc1 & Hpc1 & Hec1).
  destruct (near_bounds _ _ _ 0.1 0.1 Hec1) as [Hlc1 Huc1]; [rewrite ?eps_value; lra|lra..|].
  destruct (mul_value _ _ vr vc1 Hpr Hpc1) as (va & Hpa & Hea%near_of_Rabs);
    [apply range_ok; lra | apply range_ok; lra | apply range_mul_ok; lra |].
  assert (Hea' : near (7.05 * exp2 (-53)) va (sqrt D * 0.1)).
  { apply (near_trans (exp2 (-53)) (6.04 * exp2 (-53)) _ va (vr * vc1));
      [done | | lra | (rewrite ?eps_value; lra)..].
    apply (near_mul (5.03 * exp2 (-53)) (exp2 (-53))); [done | done | lra | lra | (rewrite ?eps_value; lra)..]. }
  assert (HA : (0.1 <= sqrt D * 0.1 <= 429496729.6)%R) by lra.
  destruct (near_bounds _ _ _ 0.1 429496729.6 Hea') as [Hla Hua]; [rewrite ?eps_value; lra|lra..|].
  (* the elapsed seconds *)
  destruct (seconds_value td Htd) as (vs & Hps & Hes' & HS).
  destruct (near_bounds _ _ _ 0.000001 9007199254.740992 Hes') as [Hls Hus]; [rewrite ?eps_value; lra|lra..|].
  (* the speed in metres per second *)
  destruct (div_value _ _ va vs Hpa Hps) as (vb & Hpb & Heb%near_of_Rabs);
    [apply range_ok; lra..|].
  assert (Heb' : near (10.08 * exp2 (-53)) vb (sqrt D * 0.1 / (IZR td / 1000000))).
  { apply (near_trans (exp2 (-53)) (9.07 * exp2 (-53)) _ vb (va / vs));
      [done | | | (rewrite ?eps_value; lra)..].
    - apply (near_div (7.05 * exp2 (-53)) (2.01 * exp2 (-53)));
        [done | done | lra | lra | (rewrite ?eps_value; lra)..].
    - apply Rmult_le_pos; [lra|]. left. apply Rinv_0_lt_compat. lra. }
  pose proof (div_bounds (sqrt D * 0.1) (IZR td / 1000000) 0.1 429496729.6
                0.000001 9007199254.740992 ltac:(lra) ltac:(lra) ltac:(lra) ltac:(lra)) as HB.
  set (B := (sqrt D * 0.1 / (IZR td / 1000000))%R) in *.
  assert (HB' : (0.00000000001 <= B <= 429496729600000)%R) by lra.
  destruct (near_bounds _ _ _ 0.00000000001 429496729600000 Heb') as [Hlb Hub];
    [rewrite ?eps_value; lra|lra..|].
  (* times 3.6 *)
  destruct lit_3_6_value as (vc2 & Hpc2 & Hec2).
  destruct (near_bounds _ _ _ 3.6 3.6 Hec2) as [Hlc2 Huc2]; [rewrite ?eps_value; lra|lra..|].
  destruct (mul_value _ _ vb vc2 Hpb Hpc2) as (v & Hp & He%near_of_Rabs);
    [apply range_ok; lra | apply range_ok; lra | apply range_mul_ok; lra |].
  exists v. split; [done|].
  apply (near_weaken (12.1 * exp2 (-53))); [|lra|rewrite ?eps_value; lra].
  apply (near_trans (exp2 (-53)) (11.09 * exp2 (-53)) _ v (vb * vc2));
    [done | | lra | (rewrite ?eps_value; lra)..].
  apply (near_mul (10.08 * exp2 (-53)) (exp2 (-53))); [done | done | lra | lra | (rewrite ?eps_value; lra)..].
Qed.

(** *** What the estimator needs of binary64 *)

Lemma pos_value_float_value (f : float) (v : R) :
  pos_value f v → float_value f = Some v.
Proof. intros (m & e & Hf & ->). unfold float_value. by rewrite Hf. Qed.

Lemma pos_value_above_zero (f : float) (v : R) :
  pos_value f v → PrimFloat.ltb (float_of_int 0) f = true.
Proof.
  intros (m & e & Hf & _). rewrite FloatAxioms.ltb_spec, Hf.
  by replace (Prim2SF (float_of_int 0)) with (S754_zero false) by (vm_compute; reflexivity).
Qed.

(** In binary64 a number above zero is not equal to zero. *)
Lemma binary64_positive_not_zero (x : float) :
  PrimFloat.ltb (float_of_int 0) x = true → PrimFloat.eqb x (float_of_int 0) = false.
Proof.
  rewrite FloatAxioms.ltb_spec, FloatAxioms.eqb_spec.
  replace (Prim2SF (float_of_int 0)) with (S754_zero false) by (vm_compute; reflexivity).
  destruct (Prim2SF x) as [s|s| |s m e]; try done; by destruct s.
Qed.

(** The number of seconds of a positive number of microseconds is
    positive in binary64. *)
Lemma binary64_seconds_positive (td : Z) :
  0 < td < 2 ^ 53 →
  PrimFloat.ltb (float_of_int 0)
    (PrimFloat.div (float_of_int td) (float_of_int 1000000)) = true.
Proof.
  intros Htd. destruct (seconds_value td Htd) as (v & Hv & _).
  by apply (pos_value_above_zero _ v).
Qed.

(** A vehicle that has not moved is given exactly 0. *)
Lemma speed_kmh_binary64_unmoved (P0 P1 : Point) (t0 t1 : datetime) :
  P1.1 - P0.1 = 0 → P1.2 - P0.2 = 0 → 0 < t1 - t0 < 2 ^ 53 →
  speed_kmh_binary64 P0 P1 t0 t1 = 0%float.
Proof.
  intros Hx Hy Htd. unfold speed_kmh_binary64. rewrite Hx, Hy.
  destruct (seconds_value (t1 - t0) Htd) as (v & (m & e & Hs & _) & _).
  assert (Hq : (0 / (float_of_int (t1 - t0) / 1000000))%float = 0%float).
  { apply Prim2SF_inj. rewrite FloatAxioms.div_spec, Hs. reflexivity. }
  change (PrimFloat.sqrt (float_of_int 0 * float_of_int 0 + float_of_int 0 * float_of_int 0)
          * 0x1.999999999999ap-4)%float with 0%float.
  by rewrite Hq.
Qed.

(** The speed the estimator computes is within a relative error of
    2^-49 of distance * 0.1 * 3.6 / seconds. *)
Lemma speed_kmh_binary64_close (P0 P1 : Point) (t0 t1 : datetime) :
  Z.abs (P1.1 - P0.1) < 2 ^ 31 → Z.abs (P1.2 - P0.2) < 2 ^ 31 →
  0 < t1 - t0 < 2 ^ 53 →
  ∃ v : R,
    float_value (speed_kmh_binary64 P0 P1 t0 t1) = Some v
    ∧ (Rabs (v - euclidean_distance P0 P1 * 0.1 * 3.6 / elapsed_seconds t0 t1)
       <= exp2 (-49) * (euclidean_distance P0 P1 * 0.1 * 3.6 / elapsed_seconds t0 t1))%R.
Proof.
  intros Hx Hy Htd.
  assert (Hdist : euclidean_distance P0 P1
                  = sqrt (IZR ((P1.1 - P0.1) * (P1.1 - P0.1)
                               + (P1.2 - P0.2) * (P1.2 - P0.2)))).
  { unfold euclidean_distance. by rewrite plus_IZR, !mult_IZR, !minus_IZR. }
  assert (Htime : (0 < IZR (t1 - t0))%R) by (apply IZR_lt; lia).
  assert (Hformula : (euclidean_distance P0 P1 * 0.1 * 3.6 / elapsed_seconds t0 t1
                      = euclidean_distance P0 P1 * 0.1 / (IZR (t1 - t0) / 1000000) * 3.6)%R).
  { unfold elapsed_seconds. field. lra. }
  rewrite Hformula.
  destruct (decide (P1.1 - P0.1 = 0 ∧ P1.2 - P0.2 = 0)) as [[Hx0 Hy0]|Hmoved].
  - exists 0%R. rewrite speed_kmh_binary64_unmoved by done. split; [done|].
    rewrite Hdist, Hx0, Hy0. change (0 * 0 + 0 * 0) with 0. rewrite sqrt_0.
    unfold Rdiv. rewrite !Rmult_0_l, Rminus_0_r, Rabs_R0, Rmult_0_r. lra.
  - destruct (speed_value (P1.1 - P0.1) (P1.2 - P0.2) (t1 - t0) Hx Hy) as (v & Hv & Hnear);
      [lia | done |].
    exists v. split; [by apply pos_value_float_value|].
    rewrite Hdist. apply near_Rabs.
    replace (exp2 (-49)) with (16 * exp2 (-53))%R; [done|].
    rewrite (exp2_neg_pos 49), (exp2_neg_pos 53).
    change (2 ^ 49) with 562949953421312. change (2 ^ 53) with 9007199254740992. lra.
Qed.

(** ** Speed estimator *)

Lemma Rltb_true (x y : R) : (x < y)%R → Rltb x y = true.
Proof. intros Hlt. unfold Rltb. by destruct (Rlt_dec x y). Qed.

Lemma Rltb_false (x y : R) : (y <= x)%R → Rltb x y = false.
Proof. intros Hle. unfold Rltb. destruct (Rlt_dec x y); [lra|done]. Qed.

Lemma Rltb_spec (x y : R) : Rltb x y = true ↔ (x < y)%R.
Proof. unfold Rltb. destruct (Rlt_dec x y); split; (done || lra). Qed.

Lemma Reqb_false (x y : R) : x ≠ y → Reqb x y = false.
Proof. intros Hne. unfold Reqb. by destruct (Req_dec_T x y). Qed.

Lemma total_seconds_R (t0 t1 : datetime) :
  total_seconds (F:=R) (t1 - t0) = elapsed_seconds t0 t1.
Proof. reflexivity. Qed.

Lemma elapsed_pos (t0 t1 : datetime) : t0 < t1 → (0 < elapsed_seconds t0 t1)%R.
Proof.
  intros Hlt. unfold elapsed_seconds.
  assert (0 < IZR (t1 - t0))%R by (apply IZR_lt; lia). lra.
Qed.

Lemma elapsed_nonpos (t0 t1 : datetime) : t1 ≤ t0 → (elapsed_seconds t0 t1 <= 0)%R.
Proof.
  intros Hle. unfold elapsed_seconds.
  assert (IZR (t1 - t0) <= 0)%R by (apply IZR_le; lia). lra.
Qed.

Lemma norm_R (p q : Point) : norm (F:=R) (array_sub q p) = euclidean_distance p q.
Proof.
  unfold norm, array_sub, euclidean_distance. simpl. by rewrite !minus_IZR.
Qed.

Lemma euclidean_distance_nonneg (p q : Point) : (0 <= euclidean_distance p q)%R.
Proof. apply sqrt_pos. Qed.

(** The branch taken when a stored observation is older than the call:
    the speed is returned and the estimator is left as it was. *)
Lemma estimate_speed_moving (self : SpeedEstimator) (id : Z) (P0 P1 : Point)
    (t0 t1 : datetime) :
  previous_positions self !! id = Some P0 →
  previous_times self !! id = Some t0 →
  t0 < t1 →
  estimate_speed (F:=R) id P1 t1 self =
  inr ((euclidean_distance P0 P1 * 0.1 * 3.6 / elapsed_seconds t0 t1)%R, self).
Proof.
  intros Hpos Htime Hlt. unfold estimate_speed. rewrite Hpos, Htime.
  rewrite total_seconds_R, norm_R. pose proof (elapsed_pos _ _ Hlt) as Hdt.
  cbn [fltb fmul of_int Arith_R lit_0_1 lit_3_6].
  rewrite Rltb_true by exact Hdt. unfold checked_div.
  cbn [feqb fdiv of_int Arith_R]. rewrite Reqb_false by lra.
  do 2 f_equal. field. lra.
Qed.

(** The branch taken for an unseen id, or when no time has elapsed: the
    observation is recorded and 0 is returned. *)
Lemma estimate_speed_records (self : SpeedEstimator) (id : Z) (pos : Point) (t : datetime) :
  previous_positions self !! id = None
  ∨ (∃ t0, previous_times self !! id = Some t0 ∧ t ≤ t0) →
  estimate_speed (F:=R) id pos t self =
  inr (0%R, {| previous_positions := <[id := pos]> (previous_positions self);
               previous_times := <[id := t]> (previous_times self) |}).
Proof.
  intros [Hnone | (t0 & Htime & Hle)]; unfold estimate_speed.
  - by rewrite Hnone.
  - rewrite Htime. destruct (previous_positions self !! id) as [P0|]; [|done].
    rewrite total_seconds_R. cbn [fltb of_int Arith_R].
    by rewrite Rltb_false by (by apply elapsed_nonpos).
Qed.

Lemma estimate_speed_first_call (id : Z) (pos : Point) (t : datetime) :
  estimate_speed (F:=R) id pos t SpeedEstimator_init = inr (0%R, recorded id pos t).
Proof.
  rewrite estimate_speed_records by (left; apply lookup_empty).
  unfold recorded, SpeedEstimator_init. simpl. by rewrite !insert_empty.
Qed.

Lemma estimator_wf_init : estimator_wf SpeedEstimator_init.
Proof. intros id [x Hx]. simpl in Hx. by rewrite lookup_empty in Hx. Qed.

Lemma estimator_wf_record (self : SpeedEstimator) (id : Z) (pos : Point) (t : datetime) :
  estimator_wf self →
  estimator_wf {| previous_positions := <[id := pos]> (previous_positions self);
                  previous_times := <[id := t]> (previous_times self) |}.
Proof.
  intros Hwf id'. simpl. destruct (decide (id = id')) as [->|Hne].
  - rewrite !lookup_insert_eq. eauto.
  - rewrite !lookup_insert_ne by done. apply Hwf.
Qed.

Lemma estimator_wf_recorded (id : Z) (pos : Point) (t : datetime) :
  estimator_wf (recorded id pos t).
Proof.
  intros id'. unfold recorded. simpl. destruct (decide (id = id')) as [<-|Hne].
  - rewrite !lookup_singleton_eq. eauto.
  - rewrite !lookup_singleton_ne by done. by intros [? ?].
Qed.

Lemma euclidean_distance_horizontal (x0 x1 y : Z) :
  x0 ≤ x1 → euclidean_distance (x0, y) (x1, y) = (IZR x1 - IZR x0)%R.
Proof.
  intros Hx. unfold euclidean_distance. simpl.
  replace ((IZR x1 - IZR x0) * (IZR x1 - IZR x0) + (IZR y - IZR y) * (IZR y - IZR y))%R
    with (Rsqr (IZR x1 - IZR x0)) by (unfold Rsqr; lra).
  apply sqrt_Rsqr. apply IZR_le in Hx. lra.
Qed.

(** Every call on a well-formed estimator returns, with a speed that is
    not negative, and leaves the estimator well formed. *)
Lemma estimate_speed_returns (self : SpeedEstimator) (id : Z) (pos : Point) (t : datetime) :
  estimator_wf self →
  ∃ (v : R) (self' : SpeedEstimator),
    estimate_speed (F:=R) id pos t self = inr (v, self')
    ∧ (0 <= v)%R ∧ estimator_wf self'.
Proof.
  intros Hwf. destruct (previous_positions self !! id) as [P0|] eqn:Hpos.
  - destruct (Hwf id) as [t0 Htime]; [by rewrite Hpos|].
    destruct (Z_lt_le_dec t0 t) as [Hlt|Hle].
    + eexists _, self. split; [by apply estimate_speed_moving|]. split; [|done].
      pose proof (elapsed_pos _ _ Hlt). pose proof (euclidean_distance_nonneg P0 pos).
      apply Rmult_le_pos; [nra|]. left. by apply Rinv_0_lt_compat.
    + eexists _, _. split; [apply estimate_speed_records; eauto|].
      split; [lra|]. by apply estimator_wf_record.
  - eexists _, _. split; [apply estimate_speed_records; by left|].
    split; [lra|]. by apply estimator_wf_record.
Qed.

(** The branch taken in binary64 when a stored observation is older
    than the call, by less than 2^53 microseconds. *)
Lemma estimate_speed_moving_binary64 (self : SpeedEstimator) (id : Z) (P0 P1 : Point)
    (t0 t1 : datetime) :
  previous_positions self !! id = Some P0 →
  previous_times self !! id = Some t0 →
  0 < t1 - t0 < 2 ^ 53 →
  estimate_speed (F:=float) id P1 t1 self = inr (speed_kmh_binary64 P0 P1 t0 t1, self).
Proof.
  intros Hpos Htime Hrange. unfold estimate_speed. rewrite Hpos, Htime.
  assert (Hsec : fltb (of_int 0) (total_seconds (F:=float) (t1 - t0)) = true)
    by (by apply binary64_seconds_positive).
  assert (Hzero : feqb (total_seconds (F:=float) (t1 - t0)) (of_int 0) = false)
    by (by apply binary64_positive_not_zero).
  rewrite Hsec. unfold checked_div. by rewrite Hzero.
Qed.




(** The two calls of the example in sequence: a first call for an unseen
    id records and returns 0, the next call returns the speed. *)
Lemma estimate_speed_two_calls (self : SpeedEstimator) (id : Z) (P0 P1 : Point)
    (t0 t1 : Z) :
  previous_positions self !! id = None →
  t0 < t1 →
  ∃ self1,
    estimate_speed (F:=R) id P0 t0 self = inr (0%R, self1)
    ∧ estimate_speed (F:=R) id P1 t1 self1 =
      inr ((euclidean_distance P0 P1 * 0.1 * 3.6 / elapsed_seconds t0 t1)%R, self1).
Proof.
  intros Hnew Hlt. eexists. split; [apply estimate_speed_records; by left|].
  apply estimate_speed_moving; [apply lookup_insert_eq..|done].
Qed.

(** The same example evaluated in binary64: the first call records and
    returns 0, the second returns exactly 36.0. *)
Example estimate_speed_binary64 :
  estimate_speed (F:=float) 7 (0, 0) 0 SpeedEstimator_init
    = inr (0%float, recorded 7 (0, 0) 0)
  ∧ value_of (estimate_speed (F:=float) 7 (100, 0) 1000000 (recorded 7 (0, 0) 0))
    = Some 36%float.
Proof. split; vm_compute; reflexivity. Qed.

(** C4 fails on the code. With (0,0) at time 0 stored for id 7, the call
    [estimate_speed(7, (100,0), 1s)] returns 36 km/h and leaves the
    estimator as it was: the stored position and time are still (0,0)
    and 0, not the (100,0) and 1s just passed in. *)
Theorem estimate_speed_keeps_old_observation :
  ∃ self' : SpeedEstimator,
    estimate_speed (F:=R) 7 (100, 0) 1000000 (recorded 7 (0, 0) 0) = inr (36%R, self')
    ∧ previous_positions self' !! 7 = Some (0, 0)
    ∧ previous_times self' !! 7 = Some 0
    ∧ previous_positions self' !! 7 ≠ Some (100, 0)
    ∧ previous_times self' !! 7 ≠ Some 1000000.
Proof.
  exists (recorded 7 (0, 0) 0).
  assert (H1 : previous_positions (recorded 7 (0, 0) 0) !! 7 = Some (0, 0))
    by apply lookup_singleton_eq.
  assert (H2 : previous_times (recorded 7 (0, 0) 0) !! 7 = Some 0)
    by apply lookup_singleton_eq.
  split; [|by rewrite H1, H2].
  rewrite (estimate_speed_moving _ 7 (0, 0) (100, 0) 0 1000000 H1 H2) by lia.
  do 2 f_equal. rewrite (euclidean_distance_horizontal 0 100 0) by lia.
  unfold elapsed_seconds. change (1000000 - 0) with 1000000. lra.
Qed.

(** The consequence in binary64: a vehicle seen at (0,0), then at
    (100,0) one second later, and still at (100,0) another second later
    is given 18 km/h on the third call (the distance to the first
    observation over two seconds), and the stored observation is still
    the first one. *)
Example estimate_speed_stale_binary64 :
  ∃ self1 self2 self3 : SpeedEstimator,
    estimate_speed (F:=float) 7 (0, 0) 0 SpeedEstimator_init = inr (0%float, self1)
    ∧ estimate_speed (F:=float) 7 (100, 0) 1000000 self1 = inr (36%float, self2)
    ∧ estimate_speed (F:=float) 7 (100, 0) 2000000 self2 = inr (18%float, self3)
    ∧ self3 = recorded 7 (0, 0) 0.
Proof.
  exists (recorded 7 (0, 0) 0), (recorded 7 (0, 0) 0), (recorded 7 (0, 0) 0).
  repeat split; vm_compute; reflexivity.
Qed.

(** C5. On a well-formed estimator every call returns (no exception: no
    missing key, no division by zero) a speed that is not negative, and
    leaves the estimator well formed; when the id is unseen, or when the
    time elapsed since its stored observation is zero or negative, the
    speed returned is 0. *)
Theorem estimate_speed_degenerate (self : SpeedEstimator) (id : Z) (pos : Point)
    (t : datetime) :
  estimator_wf self →
  (∃ (v : R) (self' : SpeedEstimator),
     estimate_speed (F:=R) id pos t self = inr (v, self')
     ∧ (0 <= v)%R ∧ estimator_wf self')
  ∧ (previous_positions self !! id = None
     ∨ (∃ t0, previous_times self !! id = Some t0 ∧ t ≤ t0) →
     value_of (estimate_speed (F:=R) id pos t self) = Some 0%R).
Proof.
  intros Hwf. split.
  - by apply estimate_speed_returns.
  - intros Hcase. by rewrite estimate_speed_records.
Qed.

Lemma estimate_speed_degenerate_witness :
  estimator_wf (recorded 7 (0, 0) 1000000)
  ∧ (∃ t0, previous_times (recorded 7 (0, 0) 1000000) !! 7 = Some t0 ∧ 1000000 ≤ t0)
  ∧ value_of (estimate_speed (F:=R) 7 (100, 0) 1000000 (recorded 7 (0, 0) 1000000))
    = Some 0%R.
Proof.
  assert (Hwf : estimator_wf (recorded 7 (0, 0) 1000000))
    by apply estimator_wf_recorded.
  assert (Hold : ∃ t0, previous_times (recorded 7 (0, 0) 1000000) !! 7 = Some t0
                       ∧ 1000000 ≤ t0).
  { exists 1000000. split; [apply lookup_singleton_eq | lia]. }
  split; [exact Hwf|]. split; [exact Hold|].
  apply (proj2 (estimate_speed_degenerate _ 7 (100, 0) 1000000 Hwf)). by right.
Defined.

(** The same in binary64, where the branch is decided by a comparison of
    floats: a number of microseconds that is zero or negative gives a
    number of seconds that is not above zero. *)
Lemma binary64_seconds_not_positive (td : Z) :
  - 2 ^ 63 < td ≤ 0 →
  fltb (of_int 0) (total_seconds (F:=float) td) = false.
Proof.
  intros Htd. destruct (decide (td = 0)) as [->|Hneg]; [by vm_compute|].
  unfold total_seconds. cbn [fltb fdiv of_int Arith_float].
  rewrite FloatAxioms.ltb_spec, FloatAxioms.div_spec.
  replace (Prim2SF (float_of_int 0)) with (S754_zero false) by (vm_compute; reflexivity).
  replace (Prim2SF (float_of_int 1000000))
    with (S754_finite false 8589934592000000 (-33)) by (vm_compute; reflexivity).
  unfold float_of_int. destruct (td <? 0) eqn:Hlt; [|lia].
  rewrite FloatAxioms.opp_spec.
  destruct (float_of_int_value (- td)) as (v & (m & e & Hf & _) & _); [lia|].
  unfold float_of_int in Hf. destruct (- td <? 0) eqn:Hlt'; [lia|]. rewrite Hf.
  unfold SF64div, SFdiv. cbn [SFopp negb xorb].
  destruct (SFdiv_core_binary _ _ _ _ _ _) as [[mz ez] lz].
  unfold binary_round_aux.
  destruct (shr_fexp _ _ _ _ _) as [mrs1 e1]. destruct (shr_fexp _ _ _ _ _) as [mrs2 e2].
  destruct (shr_m mrs2); [done| |done]. by destruct (_ <=? _).
Qed.

(** C5 in binary64: on a well-formed estimator every call returns and
    leaves the estimator well formed; for an unseen id, or when the time
    elapsed since the stored observation is zero or negative, it returns
    0 and records the observation; and whenever the stored observation
    is older, the speed returned is a finite number that is not
    negative. *)
Lemma estimate_speed_degenerate_binary64 (self : SpeedEstimator) (id : Z) (pos : Point)
    (t : datetime) :
  estimator_wf self →
  (∃ (v : float) (self' : SpeedEstimator),
     estimate_speed (F:=float) id pos t self = inr (v, self') ∧ estimator_wf self')
  ∧ (previous_positions self !! id = None
     ∨ (∃ t0, previous_times self !! id = Some t0 ∧ t ≤ t0 ∧ t0 - t < 2 ^ 63) →
     estimate_speed (F:=float) id pos t self
     = inr (0%float,
            {| previous_positions := <[id := pos]> (previous_positions self);
               previous_times := <[id := t]> (previous_times self) |}))
  ∧ (∀ P0 t0,
       previous_positions self !! id = Some P0 → previous_times self !! id = Some t0 →
       t0 < t → t - t0 < 2 ^ 53 →
       Z.abs (pos.1 - P0.1) < 2 ^ 31 → Z.abs (pos.2 - P0.2) < 2 ^ 31 →
       ∃ (v : float) (r : R),
         value_of (estimate_speed (F:=float) id pos t self) = Some v
         ∧ float_value v = Some r ∧ (0 <= r)%R).
Proof.
  intros Hwf. split; [|split].
  - unfold estimate_speed.
    destruct (previous_positions self !! id) as [P0|] eqn:Hpos.
    + destruct (Hwf id) as [t0 Htime]; [by rewrite Hpos|]. rewrite Htime.
      destruct (fltb _ _) eqn:Hlt.
      * unfold checked_div.
        assert (Hzero : feqb (total_seconds (F:=float) (t - t0)) (of_int 0) = false)
          by (by apply binary64_positive_not_zero).
        rewrite Hzero. eauto.
      * eexists _, _. split; [done|]. by apply estimator_wf_record.
    + eexists _, _. split; [done|]. by apply estimator_wf_record.
  - intros [Hnone|(t0 & Htime & Hle & Hrange)]; unfold estimate_speed.
    + by rewrite Hnone.
    + rewrite Htime. destruct (previous_positions self !! id) as [P0|]; [|done].
      by rewrite binary64_seconds_not_positive by lia.
  - intros P0 t0 Hpos Htime Hlt Hrange Hx Hy.
    rewrite (estimate_speed_moving_binary64 self id P0 pos t0 t) by (done || lia).
    destruct (speed_kmh_binary64_close P0 pos t0 t Hx Hy) as (r & Hr & Hclose); [lia|].
    exists (speed_kmh_binary64 P0 pos t0 t), r. split; [done|]. split; [done|].
    set (X := (euclidean_distance P0 pos * 0.1 * 3.6 / elapsed_seconds t0 t)%R) in *.
    assert (HX : (0 <= X)%R).
    { unfold X. pose proof (euclidean_distance_nonneg P0 pos).
      pose proof (elapsed_pos t0 t Hlt). apply Rmult_le_pos; [nra|].
      left. by apply Rinv_0_lt_compat. }
    apply near_of_Rabs in Hclose as [Hlow _].
    assert (exp2 (-49) <= 1)%R.
    { rewrite (exp2_neg_pos 49). change (2 ^ 49) with 562949953421312. lra. }
    nra.
Qed.

(** ** Loops that collect events *)

Section Loops.
Context {S A V : Type}.
Implicit Types (body : list V → A → M S (list V)) (xs : list A) (acc : list V).

Lemma for_each_app body xs ys acc (s : S) :
  for_each (xs ++ ys) body acc s =
  match for_each xs body acc s with
  | inl e => inl e
  | inr (acc', s') => for_each ys body acc' s'
  end.
Proof.
  revert acc s. induction xs as [|x xs IH]; intros acc s; [done|].
  simpl. unfold bind. destruct (body acc x s) as [e|[acc' s']]; [done|]. apply IH.
Qed.

Lemma for_each_prepend body xs acc (s : S) :
  appending body → for_each xs body acc s = prepend acc (for_each xs body [] s).
Proof.
  intros Happ. revert acc s. induction xs as [|x xs IH]; intros acc s.
  - simpl. unfold ret. simpl. by rewrite app_nil_r.
  - simpl. unfold bind. rewrite (Happ acc x s).
    destruct (body [] x s) as [e|[e1 s1]]; [done|]. simpl.
    rewrite (IH (acc ++ e1)), (IH e1).
    destruct (for_each xs body [] s1) as [e|[e2 s2]]; [done|]. simpl.
    by rewrite app_assoc.
Qed.

(** A loop over [pre ++ x :: post] that returns went through the three
    parts in turn, and returns their events in that order. *)
Lemma for_each_split body pre x post (s s' : S) (evs : list V) :
  appending body →
  for_each (pre ++ x :: post) body [] s = inr (evs, s') →
  ∃ e_pre s1 e s2 e_post,
    for_each pre body [] s = inr (e_pre, s1)
    ∧ body [] x s1 = inr (e, s2)
    ∧ for_each post body [] s2 = inr (e_post, s')
    ∧ evs = e_pre ++ e ++ e_post.
Proof.
  intros Happ. rewrite for_each_app.
  destruct (for_each pre body [] s) as [err|[e_pre s1]]; [done|].
  simpl. unfold bind. rewrite (Happ e_pre x s1).
  destruct (body [] x s1) as [err|[e s2]] eqn:Hx; [done|]. simpl.
  rewrite (for_each_prepend _ _ (e_pre ++ e)) by done.
  destruct (for_each post body [] s2) as [err|[e_post s3]] eqn:Hpost; [done|].
  simpl. intros [= <- <-]. exists e_pre, s1, e, s2, e_post.
  repeat split; [done..|]. symmetry. apply app_assoc.
Qed.

(** A loop whose body always returns, returns. *)
Lemma for_each_total body (Inv : S → Prop) xs acc (s : S) :
  (∀ acc x s, Inv s → ∃ acc' s', body acc x s = inr (acc', s') ∧ Inv s') →
  Inv s → ∃ acc' s', for_each xs body acc s = inr (acc', s') ∧ Inv s'.
Proof.
  intros Hbody. revert acc s. induction xs as [|x xs IH]; intros acc s Hs.
  - by exists acc, s.
  - simpl. unfold bind. destruct (Hbody acc x s Hs) as (acc1 & s1 & -> & Hs1).
    by apply IH.
Qed.

End Loops.

(** The events of a loop are about the actors it ran over. *)
Lemma for_each_actors {S F : Type}
    (body : list (Violation F) → Tracked → M S (list (Violation F)))
    (xs : list Tracked) (s s' : S) (evs : list (Violation F)) :
  appending body → emits_own body →
  for_each xs body [] s = inr (evs, s') →
  ∀ ev, ev ∈ evs → event_actor ev ∈ trk_id <$> xs.
Proof.
  intros Happ Hown. revert s evs. induction xs as [|x xs IH]; intros s evs.
  - simpl. unfold ret. intros [= <- <-] ev Hev. by apply elem_of_nil in Hev.
  - simpl. unfold bind. destruct (body [] x s) as [err|[e s1]] eqn:Hx; [done|].
    rewrite for_each_prepend by done.
    destruct (for_each xs body [] s1) as [err|[e2 s2]] eqn:Hrest; [done|]. simpl.
    intros [= <- <-] ev [Hev|Hev]%elem_of_app.
    + rewrite (Hown _ _ _ _ Hx ev Hev). apply list_elem_of_here.
    + apply list_elem_of_further. by apply (IH _ _ Hrest).
Qed.

Lemma events_about_none {F : Type} (i : Z) (evs : list (Violation F)) :
  (∀ ev, ev ∈ evs → event_actor ev ≠ i) → events_about i evs = [].
Proof.
  intros Hne. unfold events_about. induction evs as [|ev evs IH]; [done|].
  rewrite filter_cons_False by (apply Hne; left). apply IH.
  intros ev' Hev'. apply Hne. by right.
Qed.

Lemma events_about_all {F : Type} (i : Z) (evs : list (Violation F)) :
  (∀ ev, ev ∈ evs → event_actor ev = i) → events_about i evs = evs.
Proof.
  intros Heq. unfold events_about. induction evs as [|ev evs IH]; [done|].
  rewrite filter_cons_True by (apply Heq; left). f_equal. apply IH.
  intros ev' Hev'. apply Heq. by right.
Qed.

(** In a loop over actors with distinct ids, the events about an actor
    are those its own iteration emitted. *)
Lemma for_each_own_events {S F : Type}
    (body : list (Violation F) → Tracked → M S (list (Violation F)))
    (pre post : list Tracked) (x : Tracked) (s s' : S) (evs : list (Violation F)) :
  appending body → emits_own body →
  NoDup (trk_id <$> (pre ++ x :: post)) →
  for_each (pre ++ x :: post) body [] s = inr (evs, s') →
  ∃ e_pre s1 s2,
    for_each pre body [] s = inr (e_pre, s1)
    ∧ body [] x s1 = inr (events_about (trk_id x) evs, s2).
Proof.
  intros Happ Hown Hnd Hrun.
  destruct (for_each_split _ _ _ _ _ _ _ Happ Hrun)
    as (e_pre & s1 & e & s2 & e_post & Hpre & Hx & Hpost & ->).
  exists e_pre, s1, s2. split; [done|]. rewrite Hx. do 2 f_equal.
  rewrite fmap_app, fmap_cons in Hnd.
  apply NoDup_app in Hnd as (_ & Hpre_x & Hnd).
  apply NoDup_cons in Hnd as [Hpost_x _].
  unfold events_about. rewrite !filter_app.
  fold (events_about (trk_id x) e_pre) (events_about (trk_id x) e)
       (events_about (trk_id x) e_post).
  rewrite (events_about_none _ e_pre), (events_about_none _ e_post),
    (events_about_all _ e); [by rewrite app_nil_r | | |].
  - intros ev Hev. by apply (Hown _ _ _ _ Hx).
  - intros ev Hev Heq. apply Hpost_x. rewrite <- Heq.
    by apply (for_each_actors _ _ _ _ _ Happ Hown Hpost).
  - intros ev Hev Heq. apply (Hpre_x (trk_id x)); [|left].
    rewrite <- Heq. by apply (for_each_actors _ _ _ _ _ Happ Hown Hpre).
Qed.

(** ** Triple riding *)

Lemma sqrt_lt_100 (a : R) : (0 <= a)%R → (sqrt a < 100)%R ↔ (a < 10000)%R.
Proof.
  intros Ha. assert (H100 : sqrt 10000 = 100%R).
  { replace 10000%R with (100 * 100)%R by lra. apply sqrt_square. lra. }
  split; intros Hlt.
  - apply sqrt_lt_0_alt. by rewrite H100.
  - rewrite <- H100. by apply sqrt_lt_1_alt.
Qed.

(** The distance test of the source, on the reals, is the comparison of
    the squared distance with 100 squared. *)
Lemma near_R (p q : Point) :
  fltb (norm (F:=R) (array_sub p q)) (of_int 100) = bool_decide (sq_dist p q < 100 * 100).
Proof.
  unfold norm, array_sub, sq_dist. cbn [fst snd fltb fsqrt fadd fmul of_int Arith_R].
  set (dx := p.1 - q.1). set (dy := p.2 - q.2).
  assert (Hsq : (IZR dx * IZR dx + IZR dy * IZR dy)%R = IZR (dx * dx + dy * dy))
    by (by rewrite plus_IZR, !mult_IZR).
  rewrite Hsq. assert (0 ≤ dx * dx + dy * dy) by nia.
  assert (Hiff : (sqrt (IZR (dx * dx + dy * dy)) < 100)%R ↔ dx * dx + dy * dy < 100 * 100).
  { rewrite sqrt_lt_100 by (by apply IZR_le). split.
    - intros Hlt. by apply lt_IZR.
    - intros Hlt. by apply IZR_lt in Hlt. }
  case_bool_decide as Hd.
  - apply Rltb_true. by apply Hiff.
  - apply Rltb_false. apply Rnot_lt_le. intros Hlt. by apply Hd, Hiff.
Qed.

Lemma count_riders_R (vehicle : Tracked) (rider_tracks : list Tracked) :
  _count_riders_near_vehicle (F:=R) vehicle rider_tracks
  = riders_in_radius vehicle rider_tracks.
Proof.
  unfold _count_riders_near_vehicle, riders_in_radius.
  rewrite <- (Z.add_0_l (Z.of_nat _)). generalize 0 as count.
  induction rider_tracks as [|rider rest IH]; intros count; cbn [fold_left].
  - simpl. lia.
  - rewrite IH, near_R. case_bool_decide.
    + rewrite filter_cons_True by done. simpl length. lia.
    + by rewrite filter_cons_False by done.
Qed.

Section TripleRiding.
Context {F : Type} `{Arith F}.
Implicit Types (self : ViolationDetector (F:=F)) (w : World F).

Lemma triple_riding_body_eq self rider_tracks acc vehicle w :
  triple_riding_body self rider_tracks acc vehicle w =
  let n := _count_riders_near_vehicle vehicle rider_tracks in
  if is_motorcycle vehicle && (getattr (TRIPLE_RIDING_MAX_PERSONS (config self)) 2 <? n)
  then inr (acc ++ [triple_riding (trk_id vehicle) n (clock_tape w (clock_calls w))
                      (trk_bbox vehicle)], advance_clock w)
  else inr (acc, w).
Proof.
  unfold triple_riding_body. destruct (is_motorcycle vehicle); [|done].
  simpl. by destruct (_ <? _).
Qed.

Lemma triple_riding_appending self rider_tracks :
  appending (triple_riding_body self rider_tracks).
Proof.
  intros acc x w. rewrite !triple_riding_body_eq. simpl.
  destruct (_ && _); simpl; [done|]. by rewrite app_nil_r.
Qed.

Lemma triple_riding_emits_own self rider_tracks :
  emits_own (triple_riding_body self rider_tracks).
Proof.
  intros x w e w'. rewrite triple_riding_body_eq. simpl.
  destruct (_ && _); intros [= <- <-] ev Hev.
  - apply list_elem_of_singleton in Hev. by subst ev.
  - by apply elem_of_nil in Hev.
Qed.

Lemma detect_triple_riding_total self vehicle_tracks rider_tracks w :
  ∃ evs w', detect_triple_riding self vehicle_tracks rider_tracks w = inr (evs, w').
Proof.
  destruct (for_each_total (triple_riding_body self rider_tracks) (λ _, True)
              vehicle_tracks [] w) as (evs & w' & Hrun & _); [|done|by eauto].
  intros acc x s _. rewrite triple_riding_body_eq. simpl. destruct (_ && _); eauto.
Qed.

End TripleRiding.

(** C7. For a motorcycle among vehicles with distinct ids,
    [detect_triple_riding] returns a list in which the events about that
    motorcycle are exactly one [triple_riding] event carrying the number
    [n] of riders less than 100 pixels away when [n] exceeds the
    configured maximum, and none otherwise. *)
Theorem triple_riding_rule (self : ViolationDetector (F:=R))
    (vehicle_tracks rider_tracks : list Tracked) (vehicle : Tracked) (w : World R) :
  vehicle ∈ vehicle_tracks →
  NoDup (trk_id <$> vehicle_tracks) →
  is_motorcycle vehicle = true →
  let n := riders_in_radius vehicle rider_tracks in
  let max_persons := getattr (TRIPLE_RIDING_MAX_PERSONS (config self)) 2 in
  ∃ evs w',
    detect_triple_riding self vehicle_tracks rider_tracks w = inr (evs, w')
    ∧ (max_persons < n →
       ∃ ts, events_about (trk_id vehicle) evs
             = [triple_riding (trk_id vehicle) n ts (trk_bbox vehicle)])
    ∧ (n ≤ max_persons → events_about (trk_id vehicle) evs = []).
Proof.
  intros Hin Hnd Hmoto n max_persons.
  destruct (detect_triple_riding_total self vehicle_tracks rider_tracks w)
    as (evs & w' & Hrun).
  exists evs, w'. split; [done|].
  apply list_elem_of_split in Hin as (pre & post & ->).
  destruct (for_each_own_events _ _ _ _ _ _ _
              (triple_riding_appending self rider_tracks)
              (triple_riding_emits_own self rider_tracks) Hnd Hrun)
    as (e_pre & w1 & w2 & _ & Hbody).
  rewrite triple_riding_body_eq, count_riders_R, Hmoto in Hbody. simpl in Hbody.
  fold n max_persons in Hbody. split; intros Hn.
  - rewrite (proj2 (Z.ltb_lt _ _) Hn) in Hbody. injection Hbody as <- _. eauto.
  - rewrite (proj2 (Z.ltb_ge _ _) Hn) in Hbody. by injection Hbody as <- _.
Qed.

(** With the maximum 3 of main.py: four riders within the radius give
    one event with [rider_count = 4], three give none. *)
Lemma triple_riding_rule_witness :
  (motorcycle_1 ∈ [motorcycle_1]
   ∧ NoDup (trk_id <$> [motorcycle_1])
   ∧ is_motorcycle motorcycle_1 = true)
  ∧ (∃ evs w' ts,
       detect_triple_riding (F:=R) main_detector [motorcycle_1] four_riders
         (constant_world 0%R) = inr (evs, w')
       ∧ events_about 1 evs = [triple_riding 1 4 ts (280, 280, 320, 320)])
  ∧ (∃ evs w',
       detect_triple_riding (F:=R) main_detector [motorcycle_1] three_riders
         (constant_world 0%R) = inr (evs, w')
       ∧ events_about 1 evs = []).
Proof.
  assert (Hin : motorcycle_1 ∈ [motorcycle_1]) by apply list_elem_of_here.
  assert (Hnd : NoDup (trk_id <$> [motorcycle_1])) by (apply NoDup_singleton).
  assert (Hmoto : is_motorcycle motorcycle_1 = true) by reflexivity.
  split; [by repeat split|]. split.
  - destruct (triple_riding_rule main_detector [motorcycle_1] four_riders motorcycle_1
                (constant_world 0%R) Hin Hnd Hmoto) as (evs & w' & Hrun & Hfire & _).
    destruct Hfire as [ts Hts]; [vm_compute; reflexivity|].
    exists evs, w', ts. split; [exact Hrun | exact Hts].
  - destruct (triple_riding_rule main_detector [motorcycle_1] three_riders motorcycle_1
                (constant_world 0%R) Hin Hnd Hmoto) as (evs & w' & Hrun & _ & Hquiet).
    exists evs, w'. split; [exact Hrun|]. apply Hquiet. vm_compute. discriminate.
Defined.

(** The same two calls evaluated in binary64. *)
Example triple_riding_binary64 :
  value_of (detect_triple_riding (F:=float) main_detector [motorcycle_1] four_riders
              (constant_world 0%float))
    = Some [triple_riding 1 4 0 (280, 280, 320, 320)]
  ∧ value_of (detect_triple_riding (F:=float) main_detector [motorcycle_1] three_riders
                (constant_world 0%float))
    = Some [].
Proof. split; vm_compute; reflexivity. Qed.

(** ** Overspeeding *)

Section Overspeeding.
Context {F : Type} `{Arith F}.
Implicit Types (self : ViolationDetector (F:=F)) (w : World F) (est : SpeedEstimator).

Lemma overspeeding_body_eq self frame_time acc vehicle est w :
  overspeeding_body self frame_time acc vehicle (est, w) =
  match estimate_speed (trk_id vehicle) (trk_centroid vehicle) frame_time est with
  | inl e => inl e
  | inr (speed, est') =>
      if fltb (of_int (getattr (OVERSPEED_THRESHOLD (config self)) 60)) speed
         && fltb (of_int 5) speed
      then inr (acc ++ [overspeeding (trk_id vehicle) speed (clock_tape w (clock_calls w))
                          (trk_bbox vehicle)], (est', advance_clock w))
      else inr (acc, (est', w))
  end.
Proof.
  unfold overspeeding_body, bind, on_fst. simpl.
  destruct (estimate_speed _ _ _ est) as [e|[speed est']]; [done|].
  by destruct (_ && _).
Qed.

Lemma overspeeding_appending self frame_time :
  appending (overspeeding_body self frame_time).
Proof.
  intros acc x [est w]. rewrite !overspeeding_body_eq.
  destruct (estimate_speed _ _ _ est) as [e|[speed est']]; [done|].
  destruct (_ && _); simpl; [done|]. by rewrite app_nil_r.
Qed.

Lemma overspeeding_emits_own self frame_time :
  emits_own (overspeeding_body self frame_time).
Proof.
  intros x [est w] e s'. rewrite overspeeding_body_eq.
  destruct (estimate_speed _ _ _ est) as [err|[speed est']]; [done|].
  destruct (_ && _); intros [= <- <-] ev Hev.
  - apply list_elem_of_singleton in Hev. by subst ev.
  - by apply elem_of_nil in Hev.
Qed.

(** A call for one id leaves the observations of the other ids alone. *)
Lemma estimate_speed_other (id id' : Z) (pos : Point) (t : datetime) est est' (v : F) :
  estimate_speed id' pos t est = inr (v, est') → id' ≠ id → agree_at id est est'.
Proof.
  intros Hcall Hne. unfold estimate_speed in Hcall.
  assert (Hrec : agree_at id est
            {| previous_positions := <[id' := pos]> (previous_positions est);
               previous_times := <[id' := t]> (previous_times est) |}).
  { split; simpl; by rewrite lookup_insert_ne. }
  destruct (previous_positions est !! id') as [P0|].
  - destruct (previous_times est !! id') as [t0|]; [|done].
    destruct (fltb _ _).
    + destruct (checked_div _ _); [done|]. by injection Hcall as _ <-.
    + by injection Hcall as _ <-.
  - by injection Hcall as _ <-.
Qed.

(** What a call returns depends on the observation held for its id only. *)
Lemma estimate_speed_agree (id : Z) (pos : Point) (t : datetime) est1 est2 :
  agree_at id est1 est2 →
  value_of (estimate_speed (F:=F) id pos t est1) = value_of (estimate_speed id pos t est2).
Proof.
  intros [Hpos Htime]. unfold estimate_speed. rewrite Hpos, Htime.
  destruct (previous_positions est2 !! id) as [P0|]; [|done].
  destruct (previous_times est2 !! id) as [t0|]; [|done].
  destruct (fltb _ _); [|done]. by destruct (checked_div _ _).
Qed.

(** The loop over vehicles with other ids leaves the observation of [id] alone. *)
Lemma overspeeding_loop_agree self frame_time (id : Z) (pre : list Tracked) acc est w
    acc' est1 w1 :
  for_each pre (overspeeding_body self frame_time) acc (est, w) = inr (acc', (est1, w1)) →
  id ∉ trk_id <$> pre →
  agree_at id est est1.
Proof.
  revert acc est w. induction pre as [|x pre IH]; intros acc est w.
  - simpl. unfold ret. by intros [= _ <- _] _.
  - simpl. unfold bind. rewrite overspeeding_body_eq. intros Hrun Hid.
    apply not_elem_of_cons in Hid as [Hne Hid].
    destruct (estimate_speed _ _ _ est) as [err|[speed est']] eqn:Hcall; [done|].
    pose proof (estimate_speed_other id _ _ _ _ _ _ Hcall (not_eq_sym Hne)) as [Hp Ht].
    destruct (_ && _); apply IH in Hrun as [Hp' Ht']; try done;
      split; congruence.
Qed.

End Overspeeding.

Section OverspeedingRule.
Context {F : Type} `{Arith F}.
Implicit Types (self : ViolationDetector (F:=F)) (w : World F) (est : SpeedEstimator).

Hypothesis positive_not_zero :
  ∀ x : F, fltb (of_int 0) x = true → feqb x (of_int 0) = false.

(** Every call on a well-formed estimator returns and leaves the
    estimator well formed. *)
Lemma estimate_speed_total est (id : Z) (pos : Point) (t : datetime) :
  estimator_wf est →
  ∃ (v : F) est', estimate_speed id pos t est = inr (v, est') ∧ estimator_wf est'.
Proof.
  intros Hwf. unfold estimate_speed.
  destruct (previous_positions est !! id) as [P0|] eqn:Hpos.
  - destruct (Hwf id) as [t0 Htime]; [by rewrite Hpos|]. rewrite Htime.
    destruct (fltb _ _) eqn:Hlt.
    + unfold checked_div. rewrite (positive_not_zero _ Hlt). eauto.
    + eexists _, _. split; [done|]. by apply estimator_wf_record.
  - eexists _, _. split; [done|]. by apply estimator_wf_record.
Qed.

Lemma detect_overspeeding_returns self (vehicle_tracks : list Tracked)
    (frame_time : datetime) est w :
  estimator_wf est →
  ∃ evs st', detect_overspeeding self vehicle_tracks frame_time (est, w) = inr (evs, st').
Proof.
  intros Hwf.
  destruct (for_each_total (overspeeding_body self frame_time) (λ st, estimator_wf st.1)
              vehicle_tracks [] (est, w)) as (evs & st' & Hrun & _); [|done|by eauto].
  intros acc x [est0 w0] Hwf0. rewrite overspeeding_body_eq.
  destruct (estimate_speed_total est0 (trk_id x) (trk_centroid x) frame_time Hwf0)
    as (v & est' & -> & Hwf').
  destruct (_ && _); eauto.
Qed.

(** The events about one vehicle, among vehicles with distinct ids, are
    decided by the speed estimated for it at the start of the call. *)
Lemma overspeeding_events self (vehicle_tracks : list Tracked) (vehicle : Tracked)
    (frame_time : datetime) est w :
  estimator_wf est →
  vehicle ∈ vehicle_tracks →
  NoDup (trk_id <$> vehicle_tracks) →
  ∃ speed evs st' ts,
    value_of (estimate_speed (trk_id vehicle) (trk_centroid vehicle) frame_time est)
      = Some speed
    ∧ detect_overspeeding self vehicle_tracks frame_time (est, w) = inr (evs, st')
    ∧ events_about (trk_id vehicle) evs
      = if fltb (of_int (getattr (OVERSPEED_THRESHOLD (config self)) 60)) speed
           && fltb (of_int 5) speed
        then [overspeeding (trk_id vehicle) speed ts (trk_bbox vehicle)]
        else [].
Proof.
  intros Hwf Hin Hnd.
  destruct (detect_overspeeding_returns self vehicle_tracks frame_time est w Hwf)
    as (evs & st' & Hrun).
  apply list_elem_of_split in Hin as (pre & post & ->).
  destruct (for_each_own_events _ _ _ _ _ _ _
              (overspeeding_appending self frame_time)
              (overspeeding_emits_own self frame_time) Hnd Hrun)
    as (e_pre & [est1 w1] & st2 & Hpre & Hbody).
  assert (Hagree : agree_at (trk_id vehicle) est est1).
  { apply (overspeeding_loop_agree _ _ _ _ _ _ _ _ _ _ Hpre).
    rewrite fmap_app, fmap_cons in Hnd. apply NoDup_app in Hnd as (_ & Hpre_x & _).
    intros Hx. apply (Hpre_x _ Hx). left. }
  pose proof (estimate_speed_agree (trk_id vehicle) (trk_centroid vehicle)
                frame_time _ _ Hagree) as Hsame.
  rewrite overspeeding_body_eq in Hbody.
  destruct (estimate_speed _ _ _ est1) as [err|[speed est2]]; [done|].
  exists speed, evs, st', (clock_tape w1 (clock_calls w1)).
  split; [exact Hsame|]. split; [exact Hrun|].
  destruct (_ && _); by injection Hbody as <- _.
Qed.

End OverspeedingRule.

(** C6. In binary64, for a vehicle among vehicles with distinct ids, the
    events [detect_overspeeding] returns about that vehicle are exactly
    one [overspeeding] event, carrying the speed estimated for the
    vehicle, when that speed is strictly greater than the configured
    threshold and strictly greater than the noise floor 5, and none
    otherwise. *)
Theorem overspeeding_rule (self : ViolationDetector (F:=float))
    (vehicle_tracks : list Tracked) (vehicle : Tracked) (frame_time : datetime)
    (est : SpeedEstimator) (w : World float) :
  estimator_wf est →
  vehicle ∈ vehicle_tracks →
  NoDup (trk_id <$> vehicle_tracks) →
  ∃ speed evs st',
    value_of (estimate_speed (trk_id vehicle) (trk_centroid vehicle) frame_time est)
      = Some speed
    ∧ detect_overspeeding self vehicle_tracks frame_time (est, w) = inr (evs, st')
    ∧ (PrimFloat.ltb (float_of_int (getattr (OVERSPEED_THRESHOLD (config self)) 60)) speed
         = true
       ∧ PrimFloat.ltb 5 speed = true →
       ∃ ts, events_about (trk_id vehicle) evs
             = [overspeeding (trk_id vehicle) speed ts (trk_bbox vehicle)])
    ∧ (¬ (PrimFloat.ltb (float_of_int (getattr (OVERSPEED_THRESHOLD (config self)) 60))
            speed = true
          ∧ PrimFloat.ltb 5 speed = true) →
       events_about (trk_id vehicle) evs = []).
Proof.
  intros Hwf Hin Hnd.
  destruct (@overspeeding_events float Arith_float binary64_positive_not_zero self
              vehicle_tracks vehicle frame_time est w Hwf Hin Hnd)
    as (speed & evs & st' & ts & Hv & Hrun & Hevs).
  exists speed, evs, st'. split; [exact Hv|]. split; [exact Hrun|].
  cbn [fltb of_int Arith_float] in Hevs. change (float_of_int 5) with 5%float in Hevs.
  split.
  - intros [Hthr Hfloor]. rewrite Hthr, Hfloor in Hevs. by exists ts.
  - intros Hnot. destruct (PrimFloat.ltb (float_of_int _) speed) eqn:Hthr; [|done].
    destruct (PrimFloat.ltb 5 speed) eqn:Hfloor; [|done]. by destruct Hnot.
Qed.

(** With a threshold of 80 km/h, which is not the default of the rule: a
    vehicle whose estimated speed is 81.0 (81 pixels in 0.36 s) gets one
    event, a vehicle whose estimated speed is exactly 80.0 (80 pixels in
    0.36 s) gets none. With the threshold 60 of main.py: a vehicle whose
    estimated speed is the binary64 number next above 60 (600 pixels in
    3.6 s) gets one event, a vehicle whose estimated speed is the
    binary64 number next below 60 (45 pixels in 0.27 s) gets none. *)
Lemma overspeeding_rule_witness :
  (estimator_wf (recorded 1 (0, 0) 0)
   ∧ actor 1 (81, 0) 2 ∈ [actor 1 (81, 0) 2]
   ∧ NoDup (trk_id <$> [actor 1 (81, 0) 2]))
  ∧ (∃ evs st' ts,
       value_of (estimate_speed (F:=float) 1 (81, 0) 360000 (recorded 1 (0, 0) 0))
         = Some 81%float
       ∧ detect_overspeeding (F:=float) detector_80 [actor 1 (81, 0) 2] 360000
           (recorded 1 (0, 0) 0, constant_world 0%float) = inr (evs, st')
       ∧ events_about 1 evs = [overspeeding 1 81%float ts (61, -20, 101, 20)])
  ∧ (∃ evs st',
       value_of (estimate_speed (F:=float) 1 (80, 0) 360000 (recorded 1 (0, 0) 0))
         = Some 80%float
       ∧ detect_overspeeding (F:=float) detector_80 [actor 1 (80, 0) 2] 360000
           (recorded 1 (0, 0) 0, constant_world 0%float) = inr (evs, st')
       ∧ events_about 1 evs = [])
  ∧ (∃ evs st' ts,
       value_of (estimate_speed (F:=float) 1 (600, 0) 3600000 (recorded 1 (0, 0) 0))
         = Some 0x1.e000000000001p+5%float
       ∧ detect_overspeeding (F:=float) main_detector [actor 1 (600, 0) 2] 3600000
           (recorded 1 (0, 0) 0, constant_world 0%float) = inr (evs, st')
       ∧ events_about 1 evs
         = [overspeeding 1 0x1.e000000000001p+5%float ts (580, -20, 620, 20)])
  ∧ (∃ evs st',
       value_of (estimate_speed (F:=float) 1 (45, 0) 270000 (recorded 1 (0, 0) 0))
         = Some 0x1.dffffffffffffp+5%float
       ∧ detect_overspeeding (F:=float) main_detector [actor 1 (45, 0) 2] 270000
           (recorded 1 (0, 0) 0, constant_world 0%float) = inr (evs, st')
       ∧ events_about 1 evs = []).
Proof.
  assert (Hwf : estimator_wf (recorded 1 (0, 0) 0)) by apply estimator_wf_recorded.
  assert (Hin : ∀ v : Tracked, v ∈ [v]) by (intros v; apply list_elem_of_here).
  assert (Hnd : ∀ v : Tracked, NoDup (trk_id <$> [v])) by (intros v; apply NoDup_singleton).
  assert (Hrule : ∀ (self : ViolationDetector (F:=float)) (x : Z) (t : datetime) (v : float),
            value_of (estimate_speed (F:=float) 1 (x, 0) t (recorded 1 (0, 0) 0)) = Some v →
            ∃ evs st',
              detect_overspeeding self [actor 1 (x, 0) 2] t
                (recorded 1 (0, 0) 0, constant_world 0%float) = inr (evs, st')
              ∧ (PrimFloat.ltb (float_of_int (getattr (OVERSPEED_THRESHOLD (config self)) 60)) v
                   = true
                 ∧ PrimFloat.ltb 5 v = true →
                 ∃ ts, events_about 1 evs
                       = [overspeeding 1 v ts (x - 20, 0 - 20, x + 20, 0 + 20)])
              ∧ (¬ (PrimFloat.ltb
                      (float_of_int (getattr (OVERSPEED_THRESHOLD (config self)) 60)) v = true
                    ∧ PrimFloat.ltb 5 v = true) →
                 events_about 1 evs = [])).
  { intros self x t v Hest.
    destruct (overspeeding_rule self [actor 1 (x, 0) 2] (actor 1 (x, 0) 2) t
                (recorded 1 (0, 0) 0) (constant_world 0%float) Hwf (Hin _) (Hnd _))
      as (speed & evs & st' & Hv & Hrun & Hfire & Hquiet).
    change (trk_id (actor 1 (x, 0) 2)) with 1 in *.
    change (trk_centroid (actor 1 (x, 0) 2)) with (x, 0) in Hv.
    rewrite Hest in Hv. injection Hv as <-. by exists evs, st'. }
  assert (H81 : value_of (estimate_speed (F:=float) 1 (81, 0) 360000 (recorded 1 (0, 0) 0))
                = Some 81%float) by (vm_compute; reflexivity).
  assert (H80 : value_of (estimate_speed (F:=float) 1 (80, 0) 360000 (recorded 1 (0, 0) 0))
                = Some 80%float) by (vm_compute; reflexivity).
  assert (Hup : value_of (estimate_speed (F:=float) 1 (600, 0) 3600000 (recorded 1 (0, 0) 0))
                = Some 0x1.e000000000001p+5%float) by (vm_compute; reflexivity).
  assert (Hdown : value_of (estimate_speed (F:=float) 1 (45, 0) 270000 (recorded 1 (0, 0) 0))
                  = Some 0x1.dffffffffffffp+5%float) by (vm_compute; reflexivity).
  split; [by repeat split|]. split; [|split; [|split]].
  - destruct (Hrule detector_80 81 360000 _ H81) as (evs & st' & Hrun & Hfire & _).
    destruct Hfire as [ts Hts]; [split; vm_compute; reflexivity|].
    by exists evs, st', ts.
  - destruct (Hrule detector_80 80 360000 _ H80) as (evs & st' & Hrun & _ & Hquiet).
    exists evs, st'. split; [done|]. split; [done|]. apply Hquiet.
    intros [Hthr _]. vm_compute in Hthr. discriminate.
  - destruct (Hrule main_detector 600 3600000 _ Hup) as (evs & st' & Hrun & Hfire & _).
    destruct Hfire as [ts Hts]; [split; vm_compute; reflexivity|].
    by exists evs, st', ts.
  - destruct (Hrule main_detector 45 270000 _ Hdown) as (evs & st' & Hrun & _ & Hquiet).
    exists evs, st'. split; [done|]. split; [done|]. apply Hquiet.
    intros [Hthr _]. vm_compute in Hthr. discriminate.
Defined.

(** With the threshold 60 of main.py, 610 pixels and 600 pixels in 3.6 s
    do not give 61.0 and 60.0 in binary64: the rounded products are
    60.999999999999993 and 60.000000000000007, both above 60, so both
    vehicles are reported. *)
Example overspeeding_binary64 :
  value_of (detect_overspeeding (F:=float) main_detector [actor 1 (610, 0) 2] 3600000
              (recorded 1 (0, 0) 0, constant_world 0%float))
    = Some [overspeeding 1 0x1.e7fffffffffffp+5%float 0 (590, -20, 630, 20)]
  ∧ value_of (detect_overspeeding (F:=float) main_detector [actor 1 (600, 0) 2] 3600000
                (recorded 1 (0, 0) 0, constant_world 0%float))
    = Some [overspeeding 1 0x1.e000000000001p+5%float 0 (580, -20, 620, 20)].
Proof. split; vm_compute; reflexivity. Qed.

(** ** Helmetless riding *)

Section Helmetless.
Context {F : Type} `{Arith F}.
Implicit Types (self : ViolationDetector (F:=F)) (w : World F).

Lemma helmetless_body_eq (helmet_person_ids : list Z) acc rider w :
  helmetless_body helmet_person_ids acc rider w =
  if rides_motorcycle rider then
    if fltb (random_tape w (random_calls w)) lit_0_6
    then inr (acc ++ [helmetless_riding (trk_id rider) (clock_tape w (clock_calls w))
                        (trk_bbox rider)], advance_clock (advance_random w))
    else inr (acc, advance_random w)
  else inr (acc, w).
Proof.
  unfold helmetless_body, rides_motorcycle. destruct (default true _); [|done].
  unfold bind, random. by destruct (fltb _ _).
Qed.

Lemma helmetless_appending (helmet_person_ids : list Z) :
  appending (helmetless_body (F:=F) helmet_person_ids).
Proof.
  intros acc x w. rewrite !helmetless_body_eq.
  destruct (rides_motorcycle x); [|simpl; by rewrite app_nil_r].
  destruct (fltb _ _); simpl; [done|]. by rewrite app_nil_r.
Qed.

Lemma helmetless_emits_own (helmet_person_ids : list Z) :
  emits_own (helmetless_body (F:=F) helmet_person_ids).
Proof.
  intros x w e w'. rewrite helmetless_body_eq.
  destruct (rides_motorcycle x); [destruct (fltb _ _)|]; intros [= <- <-] ev Hev;
    try (by apply elem_of_nil in Hev).
  apply list_elem_of_singleton in Hev. by subst ev.
Qed.

(** The helmet detections play no part in the call. *)
Lemma helmetless_ignores_detections self (rider_tracks : list Tracked)
    (helmets helmets' : list HelmetDetection) w :
  detect_helmetless_riding self rider_tracks helmets w
  = detect_helmetless_riding self rider_tracks helmets' w.
Proof. reflexivity. Qed.

Lemma detect_helmetless_total self (rider_tracks : list Tracked)
    (helmets : list HelmetDetection) w :
  ∃ evs w', detect_helmetless_riding self rider_tracks helmets w = inr (evs, w').
Proof.
  destruct (for_each_total
              (helmetless_body (person_id <$> filter (λ h, helmet_detected h = true) helmets))
              (λ _, True) rider_tracks [] w) as (evs & w' & Hrun & _); [|done|by eauto].
  intros acc x s _. rewrite helmetless_body_eq.
  destruct (rides_motorcycle x); [destruct (fltb _ _)|]; eauto.
Qed.

(** The loop reads the random source once for each rider on a motorcycle. *)
Lemma helmetless_loop_draws (helmet_person_ids : list Z) (pre : list Tracked) acc w acc' w1 :
  for_each pre (helmetless_body helmet_person_ids) acc w = inr (acc', w1) →
  random_tape w1 = random_tape w
  ∧ random_calls w1
    = (random_calls w + length (filter (λ r, rides_motorcycle r = true) pre))%nat.
Proof.
  revert acc w. induction pre as [|x pre IH]; intros acc w.
  - simpl. unfold ret. intros [= _ <-]. split; [done|]. simpl. lia.
  - simpl. unfold bind. rewrite helmetless_body_eq.
    destruct (rides_motorcycle x) eqn:Hx.
    + rewrite filter_cons_True by done.
      destruct (fltb _ _); intros [-> ->]%IH; simpl; split; (done || lia).
    + rewrite filter_cons_False by (by rewrite Hx). apply IH.
Qed.

End Helmetless.

(** C8 does not hold of the code, on the reals or in binary64: a rider
    whose supplied helmet flag is [True] is reported when the random
    source returns 0.5. *)
Lemma helmet_flags_not_followed :
  ¬ helmet_rule_follows_flags R ∧ ¬ helmet_rule_follows_flags float.
Proof.
  assert (Hflag : ¬ flagged_helmetless helmet_on_1 1).
  { intros (h & Hh & _ & Hoff). apply list_elem_of_singleton in Hh. by subst h. }
  split; intros Hclaim.
  - apply Hflag.
    apply (Hclaim main_detector [rider_1] helmet_on_1 (constant_world 0.5%R)
             (advance_clock (advance_random (constant_world 0.5%R)))
             [helmetless_riding 1 0 (280, 240, 320, 280)] rider_1);
      [apply list_elem_of_here | | done].
    unfold detect_helmetless_riding. cbn [for_each]. unfold bind.
    rewrite helmetless_body_eq. change (rides_motorcycle rider_1) with true.
    cbn [fltb lit_0_6 Arith_R constant_world random_tape random_calls].
    rewrite Rltb_true by lra. reflexivity.
  - apply Hflag.
    apply (Hclaim main_detector [rider_1] helmet_on_1 (constant_world 0.5%float)
             (advance_clock (advance_random (constant_world 0.5%float)))
             [helmetless_riding 1 0 (280, 240, 320, 280)] rider_1);
      [apply list_elem_of_here | vm_compute; reflexivity | done].
Qed.

(** C8, amended. For a rider among riders with distinct ids, the events
    [detect_helmetless_riding] returns about that rider are exactly one
    [helmetless_riding] event when the rider's ['on_motorcycle'] entry is
    absent or true and the value [random.random()] returns for that rider
    is below 0.6, and none otherwise; the helmet detections supplied do
    not affect the result. *)
Theorem helmetless_rule_by_draw {F : Type} `{Arith F} (self : ViolationDetector (F:=F))
    (pre post : list Tracked) (rider : Tracked) (w : World F) :
  NoDup (trk_id <$> (pre ++ rider :: post)) →
  let draw :=
    random_tape w (random_calls w + length (filter (λ r, rides_motorcycle r = true) pre)) in
  ∃ evs w',
    (∀ helmet_detections : list HelmetDetection,
       detect_helmetless_riding self (pre ++ rider :: post) helmet_detections w
       = inr (evs, w'))
    ∧ (rides_motorcycle rider = true ∧ fltb draw lit_0_6 = true →
       ∃ ts, events_about (trk_id rider) evs
             = [helmetless_riding (trk_id rider) ts (trk_bbox rider)])
    ∧ (¬ (rides_motorcycle rider = true ∧ fltb draw lit_0_6 = true) →
       events_about (trk_id rider) evs = []).
Proof.
  intros Hnd draw.
  destruct (detect_helmetless_total self (pre ++ rider :: post) [] w) as (evs & w' & Hrun).
  exists evs, w'. split.
  { intros helmets. by rewrite (helmetless_ignores_detections _ _ helmets []). }
  destruct (for_each_own_events _ _ _ _ _ _ _
              (helmetless_appending _) (helmetless_emits_own _) Hnd Hrun)
    as (e_pre & w1 & w2 & Hpre & Hbody).
  apply helmetless_loop_draws in Hpre as [Htape Hcalls].
  rewrite helmetless_body_eq, Htape, Hcalls in Hbody. fold draw in Hbody. split.
  - intros [Hmoto Hdraw]. rewrite Hmoto, Hdraw in Hbody. injection Hbody as <- _. eauto.
  - intros Hnot. destruct (rides_motorcycle rider); [destruct (fltb draw lit_0_6)|].
    + by destruct Hnot.
    + by injection Hbody as <- _.
    + by injection Hbody as <- _.
Qed.

(** In binary64, with the random source returning 0.5: the rider is
    reported although the helmet detection supplied for it says [True]. *)
Lemma helmetless_rule_by_draw_witness :
  NoDup (trk_id <$> ([] ++ rider_1 :: []))
  ∧ (rides_motorcycle rider_1 = true
     ∧ fltb (random_tape (constant_world 0.5%float) (0 + 0)) lit_0_6 = true)
  ∧ (∃ evs w' ts,
       detect_helmetless_riding (F:=float) main_detector [rider_1] helmet_on_1
         (constant_world 0.5%float) = inr (evs, w')
       ∧ events_about 1 evs = [helmetless_riding 1 ts (280, 240, 320, 280)]).
Proof.
  assert (Hnd : NoDup (trk_id <$> ([] ++ rider_1 :: []))) by apply NoDup_singleton.
  assert (Hcond : rides_motorcycle rider_1 = true
                  ∧ fltb (random_tape (constant_world 0.5%float) (0 + 0)) lit_0_6 = true)
    by (split; vm_compute; reflexivity).
  split; [exact Hnd|]. split; [exact Hcond|].
  destruct (helmetless_rule_by_draw (F:=float) main_detector [] [] rider_1
              (constant_world 0.5%float) Hnd) as (evs & w' & Hrun & Hfire & _).
  destruct (Hfire Hcond) as [ts Hts].
  exists evs, w', ts. split; [apply Hrun | exact Hts].
Defined.

(** ** Determinism of the rules *)

Section Respects.
Context {S : Type} (Rel : S → S → Prop).





End Respects.

Section Determinism.
Context {F : Type} `{Arith F}.
Implicit Types (self : ViolationDetector (F:=F)) (w : World F).












End Determinism.




(** The call of the witness, evaluated: in both worlds it returns one
    event stamped with the clock reading 0. *)
Example signal_jump_binary64 :
  value_of (detect_signal_jump (F:=float) main_detector [vehicle_at_line] some_light 240
              (shifted_world 0x1.999999999999ap-4%float))
  = Some [signal_jump 1 0 (300, 220, 340, 260)].
Proof. vm_compute. reflexivity. Qed.

(** * Further properties *)

(** ** The rules *)

(** A loop whose body does nothing returns what it was given. *)
Lemma for_each_idle {S A B : Type} (body : B → A → M S B) (xs : list A) (acc : B) (s : S) :
  (∀ x, x ∈ xs → ∀ acc s, body acc x s = inr (acc, s)) →
  for_each xs body acc s = inr (acc, s).
Proof.
  induction xs as [|x xs IH]; intros Hidle; [done|].
  simpl. unfold bind. rewrite (Hidle x) by left. apply IH.
  intros x' Hx'. apply Hidle. by right.
Qed.

(** The events of a loop come from its iterations. *)
Lemma for_each_events_from {S A V : Type} (body : list V → A → M S (list V))
    (Q : A → V → Prop) (xs : list A) (s s' : S) (evs : list V) :
  appending body →
  (∀ x s e s', body [] x s = inr (e, s') → Forall (Q x) e) →
  for_each xs body [] s = inr (evs, s') →
  Forall (λ ev, ∃ x, x ∈ xs ∧ Q x ev) evs.
Proof.
  intros Happ Hbody. revert s evs. induction xs as [|x xs IH]; intros s evs.
  - simpl. unfold ret. intros [= <- <-]. constructor.
  - simpl. unfold bind. destruct (body [] x s) as [err|[e s1]] eqn:Hx; [done|].
    rewrite for_each_prepend by done.
    destruct (for_each xs body [] s1) as [err|[e2 s2]] eqn:Hrest; [done|]. simpl.
    intros [= <- <-]. apply Forall_app. split.
    + eapply Forall_impl; [by eapply Hbody|]. intros ev Hev. exists x. split; [left|done].
    + eapply Forall_impl; [by eapply IH|]. intros ev (x' & Hx' & Hev).
      exists x'. split; [by right|done].
Qed.

Section RulesFurther.
Context {F : Type} `{Arith F}.
Implicit Types (self : ViolationDetector (F:=F)) (w : World F).

(** X1. Without a traffic light [detect_signal_jump] returns no event,
    whatever the vehicles, and reads neither the random source nor the
    clock. *)
Theorem signal_jump_needs_light self (vehicle_tracks : list Tracked) (stop_line_y : Z) w :
  detect_signal_jump self vehicle_tracks None stop_line_y w = inr ([], w).
Proof. apply for_each_idle. intros x _ acc s. reflexivity. Qed.

(** X3. [detect_wrong_lane] never returns an event, whatever the lane
    lines, and does not read the clock: [_is_in_correct_lane] always
    answers [True]. *)
Theorem wrong_lane_never_reports {L : Type} self (vehicle_tracks : list Tracked)
    (lane_lines : option (list L)) w :
  detect_wrong_lane self vehicle_tracks lane_lines w = inr ([], w).
Proof.
  apply for_each_idle. intros x _ acc s. unfold wrong_lane_body.
  by destruct lane_lines as [[|l ls]|].
Qed.

Lemma signal_jump_body_eq (light : Z * Z * Z * Z) (stop_line_y : Z) acc vehicle w :
  signal_jump_body (Some light) stop_line_y acc vehicle w =
  if near_stop_line stop_line_y vehicle then
    if fltb (random_tape w (random_calls w)) lit_0_3
    then inr (acc ++ [signal_jump (trk_id vehicle) (clock_tape w (clock_calls w))
                        (trk_bbox vehicle)], advance_clock (advance_random w))
    else inr (acc, advance_random w)
  else inr (acc, w).
Proof.
  unfold signal_jump_body, near_stop_line. simpl. destruct (_ <? 50); [|done].
  unfold bind, random. by destruct (fltb _ _).
Qed.

Lemma signal_jump_appending (light : Z * Z * Z * Z) (stop_line_y : Z) :
  appending (signal_jump_body (F:=F) (Some light) stop_line_y).
Proof.
  intros acc x w. rewrite !signal_jump_body_eq.
  destruct (near_stop_line _ x); [|simpl; by rewrite app_nil_r].
  destruct (fltb _ _); simpl; [done|]. by rewrite app_nil_r.
Qed.

Lemma signal_jump_emits_own (light : Z * Z * Z * Z) (stop_line_y : Z) :
  emits_own (signal_jump_body (F:=F) (Some light) stop_line_y).
Proof.
  intros x w e w'. rewrite signal_jump_body_eq.
  destruct (near_stop_line _ x); [destruct (fltb _ _)|]; intros [= <- <-] ev Hev;
    try (by apply elem_of_nil in Hev).
  apply list_elem_of_singleton in Hev. by subst ev.
Qed.

Lemma detect_signal_jump_total self (vehicle_tracks : list Tracked)
    (light : Z * Z * Z * Z) (stop_line_y : Z) w :
  ∃ evs w', detect_signal_jump self vehicle_tracks (Some light) stop_line_y w = inr (evs, w').
Proof.
  destruct (for_each_total (signal_jump_body (Some light) stop_line_y) (λ _, True)
              vehicle_tracks [] w) as (evs & w' & Hrun & _); [|done|by eauto].
  intros acc x s _. rewrite signal_jump_body_eq.
  destruct (near_stop_line _ x); [destruct (fltb _ _)|]; eauto.
Qed.

(** The loop reads the random source once for each vehicle near the line. *)
Lemma signal_jump_loop_draws (light : Z * Z * Z * Z) (stop_line_y : Z)
    (pre : list Tracked) acc w acc' w1 :
  for_each pre (signal_jump_body (Some light) stop_line_y) acc w = inr (acc', w1) →
  random_tape w1 = random_tape w
  ∧ random_calls w1
    = (random_calls w + length (filter (λ v, near_stop_line stop_line_y v = true) pre))%nat.
Proof.
  revert acc w. induction pre as [|x pre IH]; intros acc w.
  - simpl. unfold ret. intros [= _ <-]. split; [done|]. simpl. lia.
  - cbn [for_each]. unfold bind. rewrite signal_jump_body_eq.
    destruct (near_stop_line stop_line_y x) eqn:Hx.
    + rewrite filter_cons_True by done.
      destruct (fltb _ _); intros [-> ->]%IH; simpl; split; (done || lia).
    + rewrite filter_cons_False by (by rewrite Hx). apply IH.
Qed.

(** X2. With a traffic light present, and for a vehicle among vehicles
    with distinct ids, the events [detect_signal_jump] returns about the
    vehicle are exactly one [signal_jump] event when its centroid is
    less than 50 pixels (in y) from the stop line and the value
    [random.random()] returns for it is below 0.3, and none otherwise;
    the random source is read for the vehicles near the line only, in
    their order. *)
Theorem signal_jump_rule_by_draw self (pre post : list Tracked) (vehicle : Tracked)
    (light : Z * Z * Z * Z) (stop_line_y : Z) w :
  NoDup (trk_id <$> (pre ++ vehicle :: post)) →
  let draw :=
    random_tape w
      (random_calls w + length (filter (λ v, near_stop_line stop_line_y v = true) pre)) in
  ∃ evs w',
    detect_signal_jump self (pre ++ vehicle :: post) (Some light) stop_line_y w
      = inr (evs, w')
    ∧ (near_stop_line stop_line_y vehicle = true ∧ fltb draw lit_0_3 = true →
       ∃ ts, events_about (trk_id vehicle) evs
             = [signal_jump (trk_id vehicle) ts (trk_bbox vehicle)])
    ∧ (¬ (near_stop_line stop_line_y vehicle = true ∧ fltb draw lit_0_3 = true) →
       events_about (trk_id vehicle) evs = []).
Proof.
  intros Hnd draw.
  destruct (detect_signal_jump_total self (pre ++ vehicle :: post) light stop_line_y w)
    as (evs & w' & Hrun).
  exists evs, w'. split; [done|].
  destruct (for_each_own_events _ _ _ _ _ _ _
              (signal_jump_appending _ _) (signal_jump_emits_own _ _) Hnd Hrun)
    as (e_pre & w1 & w2 & Hpre & Hbody).
  apply signal_jump_loop_draws in Hpre as [Htape Hcalls].
  rewrite signal_jump_body_eq, Htape, Hcalls in Hbody. fold draw in Hbody. split.
  - intros [Hnear Hdraw]. rewrite Hnear, Hdraw in Hbody. injection Hbody as <- _. eauto.
  - intros Hnot. destruct (near_stop_line stop_line_y vehicle);
      [destruct (fltb draw lit_0_3)|].
    + by destruct Hnot.
    + by injection Hbody as <- _.
    + by injection Hbody as <- _.
Qed.

(** The count of riders near a vehicle lies between 0 and the number of
    riders. *)
Lemma count_riders_bounds (vehicle : Tracked) (rider_tracks : list Tracked) :
  0 ≤ _count_riders_near_vehicle (F:=F) vehicle rider_tracks
    ≤ Z.of_nat (length rider_tracks).
Proof.
  unfold _count_riders_near_vehicle.
  assert (Hgen : ∀ count,
            count ≤ fold_left
                      (λ count rider,
                         if fltb (norm (array_sub (trk_centroid vehicle) (trk_centroid rider)))
                              (of_int 100)
                         then count + 1 else count) rider_tracks count
                  ≤ count + Z.of_nat (length rider_tracks)).
  { induction rider_tracks as [|rider rest IH]; intros count; cbn [fold_left length].
    - lia.
    - destruct (fltb _ _).
      + specialize (IH (count + 1)). lia.
      + specialize (IH count). lia. }
  specialize (Hgen 0). lia.
Qed.

(** X4. Every event [detect_triple_riding] returns is about a motorcycle
    of [vehicle_tracks] and carries a rider count that exceeds the
    configured maximum and does not exceed the number of riders. *)
Theorem triple_riding_events_bounded self (vehicle_tracks rider_tracks : list Tracked) w :
  ∃ evs w',
    detect_triple_riding self vehicle_tracks rider_tracks w = inr (evs, w')
    ∧ Forall (λ ev, ∃ vehicle n ts,
                vehicle ∈ vehicle_tracks
                ∧ is_motorcycle vehicle = true
                ∧ ev = triple_riding (trk_id vehicle) n ts (trk_bbox vehicle)
                ∧ getattr (TRIPLE_RIDING_MAX_PERSONS (config self)) 2 < n
                    ≤ Z.of_nat (length rider_tracks)) evs.
Proof.
  destruct (detect_triple_riding_total self vehicle_tracks rider_tracks w)
    as (evs & w' & Hrun).
  exists evs, w'. split; [done|].
  pose proof (for_each_events_from (triple_riding_body self rider_tracks)
                (λ vehicle ev, ∃ n ts,
                   is_motorcycle vehicle = true
                   ∧ ev = triple_riding (trk_id vehicle) n ts (trk_bbox vehicle)
                   ∧ getattr (TRIPLE_RIDING_MAX_PERSONS (config self)) 2 < n
                       ≤ Z.of_nat (length rider_tracks))
                vehicle_tracks w w' evs (triple_riding_appending self rider_tracks)) as Hfrom.
  eapply Forall_impl; [apply Hfrom; [|exact Hrun]|].
  - intros x s e s'. rewrite triple_riding_body_eq. simpl.
    destruct (is_motorcycle x) eqn:Hmoto; simpl;
      [destruct (_ <? _) eqn:Hlt|]; intros [= <- <-]; constructor; [|constructor].
    eexists _, _. split; [done|]. split; [done|].
    apply Z.ltb_lt in Hlt. pose proof (count_riders_bounds x rider_tracks). lia.
  - intros ev (x & Hx & n & ts & Hmoto & -> & Hn). by exists x, n, ts.
Qed.

(** X5. When there are no more riders than the configured maximum,
    [detect_triple_riding] returns no event and does not read the clock. *)
Theorem triple_riding_needs_riders self (vehicle_tracks rider_tracks : list Tracked) w :
  Z.of_nat (length rider_tracks) ≤ getattr (TRIPLE_RIDING_MAX_PERSONS (config self)) 2 →
  detect_triple_riding self vehicle_tracks rider_tracks w = inr ([], w).
Proof.
  intros Hfew. apply for_each_idle. intros x _ acc s.
  rewrite triple_riding_body_eq. simpl.
  pose proof (count_riders_bounds x rider_tracks).
  rewrite (proj2 (Z.ltb_ge _ _)) by lia. by rewrite andb_false_r.
Qed.

(** A call of [estimate_speed] for an unseen id records and returns 0. *)
Lemma estimate_speed_unseen (id : Z) (pos : Z * Z) (t : Z) (est : SpeedEstimator) :
  previous_positions est !! id = None →
  estimate_speed (F:=F) id pos t est =
  inr (of_int 0, {| previous_positions := <[id := pos]> (previous_positions est);
                    previous_times := <[id := t]> (previous_times est) |}).
Proof. intros Hnew. unfold estimate_speed. by rewrite Hnew. Qed.

(** The first sighting of vehicles, shared by X6 and the pipeline. *)
Lemma overspeeding_unseen_ids self (vehicle_tracks : list Tracked) (frame_time : Z)
    (est : SpeedEstimator) w :
  fltb (F:=F) (of_int 5) (of_int 0) = false →
  NoDup (trk_id <$> vehicle_tracks) →
  (∀ v, v ∈ vehicle_tracks → previous_positions est !! trk_id v = None) →
  ∃ est',
    detect_overspeeding self vehicle_tracks frame_time (est, w) = inr ([], (est', w))
    ∧ (∀ v, v ∈ vehicle_tracks →
         previous_positions est' !! trk_id v = Some (trk_centroid v)
         ∧ previous_times est' !! trk_id v = Some frame_time)
    ∧ (∀ id, id ∉ trk_id <$> vehicle_tracks → agree_at id est est').
Proof.
  intros H5. unfold detect_overspeeding. revert est.
  induction vehicle_tracks as [|v vs IH]; intros est Hnd Hnew.
  - exists est. split; [done|]. split; [|done]. intros v Hv. by apply elem_of_nil in Hv.
  - rewrite fmap_cons in Hnd. apply NoDup_cons in Hnd as [Hv Hnd].
    set (est1 := {| previous_positions := <[trk_id v := trk_centroid v]> (previous_positions est);
                    previous_times := <[trk_id v := frame_time]> (previous_times est) |}).
    destruct (IH est1 Hnd) as (est' & Hrun & Hrec & Hother).
    { intros v' Hv'. simpl. rewrite lookup_insert_ne; [apply Hnew; by right|].
      intros Heq. apply Hv. rewrite Heq. by apply list_elem_of_fmap_2. }
    exists est'. split; [|split].
    + cbn [for_each]. unfold bind. rewrite overspeeding_body_eq.
      rewrite estimate_speed_unseen by (apply Hnew; left).
      rewrite H5, andb_false_r. exact Hrun.
    + intros v' [->|Hv']%elem_of_cons; [|by apply Hrec].
      destruct (Hother (trk_id v) Hv) as [<- <-]. simpl. by rewrite !lookup_insert_eq.
    + intros id Hid. rewrite fmap_cons in Hid. apply not_elem_of_cons in Hid as [Hne Hid].
      destruct (Hother id Hid) as [Hp Ht]. unfold agree_at. rewrite <- Hp, <- Ht.
      split; simpl; by rewrite lookup_insert_ne.
Qed.

(** X6. When the estimator has seen none of the vehicles (their ids
    being distinct), [detect_overspeeding] returns no event, does not
    read the clock, and leaves the estimator holding, for each vehicle,
    its centroid and the frame time; the other ids are untouched. *)
Theorem overspeeding_first_sighting self (vehicle_tracks : list Tracked) (frame_time : Z)
    (est : SpeedEstimator) w :
  fltb (F:=F) (of_int 5) (of_int 0) = false →
  NoDup (trk_id <$> vehicle_tracks) →
  (∀ v, v ∈ vehicle_tracks → previous_positions est !! trk_id v = None) →
  ∃ est',
    detect_overspeeding self vehicle_tracks frame_time (est, w) = inr ([], (est', w))
    ∧ (∀ v, v ∈ vehicle_tracks →
         previous_positions est' !! trk_id v = Some (trk_centroid v)
         ∧ previous_times est' !! trk_id v = Some frame_time)
    ∧ (∀ id, id ∉ trk_id <$> vehicle_tracks → agree_at id est est').
Proof. apply overspeeding_unseen_ids. Qed.

(** Whatever the light, [detect_signal_jump] returns [signal_jump] events. *)
Lemma signal_jump_events self (vehicle_tracks : list Tracked)
    (traffic_light_bbox : option (Z * Z * Z * Z)) (stop_line_y : Z) w :
  ∃ evs w',
    detect_signal_jump self vehicle_tracks traffic_light_bbox stop_line_y w = inr (evs, w')
    ∧ Forall is_signal_jump evs.
Proof.
  destruct traffic_light_bbox as [light|].
  - destruct (detect_signal_jump_total self vehicle_tracks light stop_line_y w)
      as (evs & w' & Hrun).
    exists evs, w'. split; [done|].
    pose proof (for_each_events_from (signal_jump_body (Some light) stop_line_y)
                  (λ _ ev, is_signal_jump ev) vehicle_tracks w w' evs
                  (signal_jump_appending light stop_line_y)) as Hfrom.
    eapply Forall_impl; [apply Hfrom; [|exact Hrun]|].
    + intros x s e s'. rewrite signal_jump_body_eq.
      destruct (near_stop_line _ x); [destruct (fltb _ _)|]; intros [= <- <-];
        by repeat constructor.
    + by intros ev (_ & _ & Hev).
  - exists [], w. split; [|constructor].
    apply for_each_idle. intros x _ acc s. reflexivity.
Qed.

End RulesFurther.

Lemma signal_jump_rule_by_draw_witness :
  NoDup (trk_id <$> ([actor 2 (100, 400) 2] ++ vehicle_at_line :: []))
  ∧ (near_stop_line 240 vehicle_at_line = true
     ∧ fltb (random_tape (constant_world 0x1.999999999999ap-4%float) (0 + 0)) lit_0_3 = true)
  ∧ (∃ evs w' ts,
       detect_signal_jump (F:=float) main_detector [actor 2 (100, 400) 2; vehicle_at_line]
         some_light 240 (constant_world 0x1.999999999999ap-4%float) = inr (evs, w')
       ∧ events_about 1 evs = [signal_jump 1 ts (300, 220, 340, 260)]).
Proof.
  assert (Hnd : NoDup (trk_id <$> ([actor 2 (100, 400) 2] ++ vehicle_at_line :: [])))
    by (apply (bool_decide_unpack _); vm_compute; exact I).
  assert (Hcond : near_stop_line 240 vehicle_at_line = true
                  ∧ fltb (random_tape (constant_world 0x1.999999999999ap-4%float) (0 + 0))
                      lit_0_3 = true)
    by (split; vm_compute; reflexivity).
  split; [exact Hnd|]. split; [exact Hcond|].
  destruct (signal_jump_rule_by_draw (F:=float) main_detector [actor 2 (100, 400) 2] []
              vehicle_at_line (500, 40, 520, 100) 240
              (constant_world 0x1.999999999999ap-4%float) Hnd)
    as (evs & w' & Hrun & Hfire & _).
  destruct (Hfire Hcond) as [ts Hts].
  exists evs, w', ts. split; [exact Hrun | exact Hts].
Defined.

Lemma triple_riding_needs_riders_witness :
  Z.of_nat (length (take 3 three_riders))
    ≤ getattr (TRIPLE_RIDING_MAX_PERSONS (config (main_detector (F:=float)))) 2
  ∧ detect_triple_riding (F:=float) main_detector [motorcycle_1] (take 3 three_riders)
      (constant_world 0%float) = inr ([], constant_world 0%float).
Proof.
  assert (Hfew : Z.of_nat (length (take 3 three_riders))
                 ≤ getattr (TRIPLE_RIDING_MAX_PERSONS (config (main_detector (F:=float)))) 2)
    by (vm_compute; discriminate).
  split; [exact Hfew|].
  exact (triple_riding_needs_riders main_detector [motorcycle_1] (take 3 three_riders)
           (constant_world 0%float) Hfew).
Defined.

Lemma overspeeding_first_sighting_witness :
  fltb (F:=float) (of_int 5) (of_int 0) = false
  ∧ NoDup (trk_id <$> [actor 1 (610, 0) 2; actor 2 (0, 50) 3])
  ∧ (∀ v, v ∈ [actor 1 (610, 0) 2; actor 2 (0, 50) 3] →
       previous_positions SpeedEstimator_init !! trk_id v = None)
  ∧ (∃ est',
       detect_overspeeding (F:=float) main_detector [actor 1 (610, 0) 2; actor 2 (0, 50) 3]
         3600000 (SpeedEstimator_init, constant_world 0%float)
       = inr ([], (est', constant_world 0%float))
       ∧ previous_positions est' !! 1 = Some (610, 0)
       ∧ previous_times est' !! 2 = Some 3600000).
Proof.
  assert (H5 : fltb (F:=float) (of_int 5) (of_int 0) = false) by reflexivity.
  assert (Hnd : NoDup (trk_id <$> [actor 1 (610, 0) 2; actor 2 (0, 50) 3]))
    by (apply (bool_decide_unpack _); vm_compute; exact I).
  assert (Hnew : ∀ v, v ∈ [actor 1 (610, 0) 2; actor 2 (0, 50) 3] →
                   previous_positions SpeedEstimator_init !! trk_id v = None)
    by (intros v _; apply lookup_empty).
  split; [exact H5|]. split; [exact Hnd|]. split; [exact Hnew|].
  destruct (overspeeding_first_sighting (F:=float) main_detector
              [actor 1 (610, 0) 2; actor 2 (0, 50) 3] 3600000 SpeedEstimator_init
              (constant_world 0%float) H5 Hnd Hnew) as (est' & Hrun & Hrec & _).
  exists est'. split; [exact Hrun|]. split.
  - apply (Hrec (actor 1 (610, 0) 2)). left.
  - apply (Hrec (actor 2 (0, 50) 3)). right. left.
Defined.

(** ** The speed estimator *)

(** X7. A call of [estimate_speed] that returns never forgets: afterwards
    the estimator holds a position and a time for the id of the call, and
    what it holds for every other id is what it held before. *)
Theorem estimate_speed_never_forgets {F : Type} `{Arith F} (self self' : SpeedEstimator)
    (id : Z) (pos : Z * Z) (t : Z) (v : F) :
  estimate_speed id pos t self = inr (v, self') →
  is_Some (previous_positions self' !! id)
  ∧ is_Some (previous_times self' !! id)
  ∧ (∀ id', id' ≠ id → agree_at id' self self').
Proof.
  intros Hcall. split; [|split].
  - unfold estimate_speed in Hcall.
    destruct (previous_positions self !! id) as [P0|] eqn:Hpos.
    + destruct (previous_times self !! id) as [t0|]; [|done].
      destruct (fltb _ _).
      * destruct (checked_div _ _); [done|]. injection Hcall as _ <-. by rewrite Hpos.
      * injection Hcall as _ <-. simpl. rewrite lookup_insert_eq. eauto.
    + injection Hcall as _ <-. simpl. rewrite lookup_insert_eq. eauto.
  - unfold estimate_speed in Hcall.
    destruct (previous_positions self !! id) as [P0|].
    + destruct (previous_times self !! id) as [t0|] eqn:Htime; [|done].
      destruct (fltb _ _).
      * destruct (checked_div _ _); [done|]. injection Hcall as _ <-. by rewrite Htime.
      * injection Hcall as _ <-. simpl. rewrite lookup_insert_eq. eauto.
    + injection Hcall as _ <-. simpl. rewrite lookup_insert_eq. eauto.
  - intros id' Hne. eapply estimate_speed_other; [exact Hcall|]. by apply not_eq_sym.
Qed.

Lemma estimate_speed_never_forgets_witness :
  estimate_speed (F:=float) 7 (100, 0) 1000000
    (recorded 7 (0, 0) 0) = inr (36%float, recorded 7 (0, 0) 0)
  ∧ is_Some (previous_positions (recorded 7 (0, 0) 0) !! 7)
  ∧ is_Some (previous_times (recorded 7 (0, 0) 0) !! 7)
  ∧ (∀ id', id' ≠ 7 → agree_at id' (recorded 7 (0, 0) 0) (recorded 7 (0, 0) 0)).
Proof.
  assert (Hcall : estimate_speed (F:=float) 7 (100, 0) 1000000
                    (recorded 7 (0, 0) 0) = inr (36%float, recorded 7 (0, 0) 0))
    by (vm_compute; reflexivity).
  split; [exact Hcall|].
  exact (estimate_speed_never_forgets _ _ 7 (100, 0) 1000000 36%float Hcall).
Defined.

(** X8. Over the reals [estimate_speed] raises in one situation only: a
    position is stored for the id and no time is, and the exception is
    then the [KeyError] of [self.previous_times[vehicle_id]]. It never
    divides by zero, whatever the estimator holds. *)
Theorem estimate_speed_raises_only_on_missing_time (self : SpeedEstimator) (id : Z)
    (pos : Z * Z) (t : Z) (e : exn) :
  estimate_speed (F:=R) id pos t self = inl e
  ↔ e = KeyError
    ∧ is_Some (previous_positions self !! id)
    ∧ previous_times self !! id = None.
Proof.
  unfold estimate_speed.
  destruct (previous_positions self !! id) as [P0|] eqn:Hpos.
  - destruct (previous_times self !! id) as [t0|] eqn:Htime.
    + split; [|by intros (_ & _ & ?)]. intros Hraise. exfalso.
      cbn [fltb of_int Arith_R] in Hraise.
      destruct (Rltb 0 (total_seconds (t - t0))) eqn:Hlt; [|done].
      apply Rltb_spec in Hlt. unfold checked_div in Hraise.
      cbn [feqb of_int Arith_R] in Hraise. by rewrite Reqb_false in Hraise by lra.
    + split.
      * intros [= <-]. eauto.
      * by intros (-> & _ & _).
  - split; [done|]. by intros (_ & [? ?] & _).
Qed.

Lemma euclidean_distance_zero (p q : Z * Z) : euclidean_distance p q = 0%R ↔ q = p.
Proof.
  unfold euclidean_distance. split.
  - intros Hzero.
    apply sqrt_eq_0 in Hzero; [|apply Rplus_le_le_0_compat; apply Rle_0_sqr].
    apply Rplus_sqr_eq_0 in Hzero as [Hx Hy].
    destruct p as [px py], q as [qx qy]. simpl in *.
    f_equal; apply eq_IZR; lra.
  - intros ->. rewrite <- sqrt_0. f_equal. lra.
Qed.

(** X9. With an observation stored for the id and a later call time, the
    speed returned (over the reals) is 0 exactly when the position of the
    call is the stored position. *)
Theorem estimate_speed_zero_iff_unmoved (self : SpeedEstimator) (id : Z) (P0 P1 : Z * Z)
    (t0 t1 : Z) :
  previous_positions self !! id = Some P0 →
  previous_times self !! id = Some t0 →
  t0 < t1 →
  value_of (estimate_speed (F:=R) id P1 t1 self) = Some 0%R ↔ P1 = P0.
Proof.
  intros Hpos Htime Hlt. rewrite (estimate_speed_moving self id P0 P1 t0 t1) by done.
  simpl. pose proof (elapsed_pos _ _ Hlt) as Hdt.
  pose proof (euclidean_distance_nonneg P0 P1) as Hd.
  rewrite <- euclidean_distance_zero. split.
  - intros [= Hzero].
    assert (Hprod : (euclidean_distance P0 P1 * 0.1 * 3.6)%R
                    = (euclidean_distance P0 P1 * 0.1 * 3.6 / elapsed_seconds t0 t1
                       * elapsed_seconds t0 t1)%R) by (field; lra).
    rewrite Hzero in Hprod. lra.
  - intros ->. f_equal. field. lra.
Qed.

Lemma estimate_speed_zero_iff_unmoved_witness :
  previous_positions (recorded 7 (0, 0) 0) !! 7 = Some (0, 0)
  ∧ previous_times (recorded 7 (0, 0) 0) !! 7 = Some 0
  ∧ 0 < 1000000
  ∧ value_of (estimate_speed (F:=R) 7 (0, 0) 1000000 (recorded 7 (0, 0) 0)) = Some 0%R.
Proof.
  assert (H1 : previous_positions (recorded 7 (0, 0) 0) !! 7 = Some (0, 0))
    by apply lookup_singleton_eq.
  assert (H2 : previous_times (recorded 7 (0, 0) 0) !! 7 = Some 0)
    by apply lookup_singleton_eq.
  assert (H3 : 0 < 1000000) by lia.
  split; [exact H1|]. split; [exact H2|]. split; [exact H3|].
  by apply (estimate_speed_zero_iff_unmoved _ 7 (0, 0) (0, 0) 0 1000000 H1 H2 H3).
Defined.

(** X10. Once an observation [(P0, t0)] is stored for an id, any number
    of calls for that id at later times leave the estimator as it is:
    over the reals each of them returns the speed from [(P0, t0)] to its
    own position and time, not from the call before it. *)
Theorem estimate_speeds_frozen (self : SpeedEstimator) (id : Z) (P0 : Z * Z) (t0 : Z)
    (observations : list ((Z * Z) * Z)) :
  previous_positions self !! id = Some P0 →
  previous_times self !! id = Some t0 →
  Forall (λ o, t0 < o.2) observations →
  estimate_speeds (F:=R) id observations self =
  inr ((λ o, (euclidean_distance P0 o.1 * 0.1 * 3.6 / elapsed_seconds t0 o.2)%R)
         <$> observations, self).
Proof.
  intros Hpos Htime Hlater. induction Hlater as [|[pos t] rest Hlt _ IH]; [done|].
  cbn [estimate_speeds]. unfold bind.
  rewrite (estimate_speed_moving self id P0 pos t0 t) by done.
  rewrite IH. reflexivity.
Qed.

Lemma estimate_speeds_frozen_witness :
  previous_positions (recorded 7 (0, 0) 0) !! 7 = Some (0, 0)
  ∧ previous_times (recorded 7 (0, 0) 0) !! 7 = Some 0
  ∧ Forall (λ o, 0 < o.2) [((100, 0), 1000000); ((100, 0), 2000000)]
  ∧ estimate_speeds (F:=R) 7 [((100, 0), 1000000); ((100, 0), 2000000)]
      (recorded 7 (0, 0) 0)
    = inr ([36%R; 18%R], recorded 7 (0, 0) 0).
Proof.
  assert (H1 : previous_positions (recorded 7 (0, 0) 0) !! 7 = Some (0, 0))
    by apply lookup_singleton_eq.
  assert (H2 : previous_times (recorded 7 (0, 0) 0) !! 7 = Some 0)
    by apply lookup_singleton_eq.
  assert (H3 : Forall (λ o : Z * Z * Z, 0 < o.2) [((100, 0), 1000000); ((100, 0), 2000000)])
    by (repeat constructor).
  split; [exact H1|]. split; [exact H2|]. split; [exact H3|].
  rewrite (estimate_speeds_frozen _ 7 (0, 0) 0 _ H1 H2 H3).
  cbn [fmap list_fmap fst snd]. rewrite (euclidean_distance_horizontal 0 100 0) by lia.
  unfold elapsed_seconds. change (1000000 - 0) with 1000000.
  change (2000000 - 0) with 2000000.
  replace ((100 - 0) * 0.1 * 3.6 / (1000000 / 1000000))%R with 36%R by lra.
  replace ((100 - 0) * 0.1 * 3.6 / (2000000 / 1000000))%R with 18%R by lra.
  reflexivity.
Defined.

(** ** detection.py *)

Lemma select_class_returns (keep : Z → bool) (detections : list Detection) :
  Forall (λ d, is_Some (det_class_id d)) detections →
  ObjectDetector.select_class keep detections =
  inr (filter (λ d, from_option keep false (det_class_id d) = true) detections).
Proof.
  induction 1 as [|d rest [c Hc] _ IH]; [done|].
  simpl. rewrite Hc, IH.
  destruct (keep c) eqn:Hkeep.
  - rewrite filter_cons_True; [done|]. by rewrite Hc.
  - rewrite filter_cons_False; [done|]. rewrite Hc. simpl. by rewrite Hkeep.
Qed.

Lemma select_class_raises (keep : Z → bool) (detections : list Detection) (e : exn) :
  ObjectDetector.select_class keep detections = inl e
  ↔ e = KeyError ∧ Exists (λ d, det_class_id d = None) detections.
Proof.
  revert e. induction detections as [|d rest IH]; intros e.
  - split; [done|]. intros [_ Hex]. by apply Exists_nil in Hex.
  - simpl. destruct (det_class_id d) as [c|] eqn:Hc.
    + destruct (ObjectDetector.select_class keep rest) as [e'|ds].
      * split.
        -- intros [= <-]. destruct (proj1 (IH e') eq_refl) as [-> Hex]. split; [done|].
           by apply Exists_cons_tl.
        -- intros [-> Hex]. apply Exists_cons in Hex as [Hd|Hex]; [congruence|].
           apply IH. by split.
      * split; [done|]. intros [-> Hex].
        apply Exists_cons in Hex as [Hd|Hex]; [congruence|].
        assert (Hbad : @inr exn (list Detection) ds = inl KeyError)
          by (apply (IH KeyError); by split).
        discriminate Hbad.
    + split.
      * intros [= <-]. split; [done|]. by apply Exists_cons_hd.
      * by intros [-> _].
Qed.

(** X11. On a detector as [__init__] leaves it, and for detections that
    all carry a class id, the three class filters return; each result is
    the detections of its classes (2, 3, 5, 7 for vehicles, 0 for
    persons, 9 for traffic lights) in their input order, and no
    detection is in two of the results. *)
Theorem class_filters_exclusive (yolo_available : bool) (detections : list Detection) :
  Forall (λ d, is_Some (det_class_id d)) detections →
  ∃ vehicles persons lights,
    ObjectDetector.detect_vehicles (ObjectDetector.init yolo_available) detections
      = inr vehicles
    ∧ ObjectDetector.detect_persons (ObjectDetector.init yolo_available) detections
      = inr persons
    ∧ ObjectDetector.detect_traffic_lights (ObjectDetector.init yolo_available) detections
      = inr lights
    ∧ (vehicles `sublist_of` detections ∧ persons `sublist_of` detections
       ∧ lights `sublist_of` detections)
    ∧ (∀ d, d ∈ vehicles ↔ d ∈ detections ∧ ∃ c, det_class_id d = Some c ∧ c ∈ [2; 3; 5; 7])
    ∧ (∀ d, d ∈ persons ↔ d ∈ detections ∧ det_class_id d = Some 0)
    ∧ (∀ d, d ∈ lights ↔ d ∈ detections ∧ det_class_id d = Some 9)
    ∧ (∀ d, ¬ (d ∈ vehicles ∧ d ∈ persons) ∧ ¬ (d ∈ vehicles ∧ d ∈ lights)
            ∧ ¬ (d ∈ persons ∧ d ∈ lights)).
Proof.
  intros Hclass. eexists _, _, _.
  unfold ObjectDetector.detect_vehicles, ObjectDetector.detect_persons,
    ObjectDetector.detect_traffic_lights.
  rewrite !select_class_returns by done. simpl.
  split; [done|]. split; [done|]. split; [done|].
  split; [repeat split; apply sublist_filter|].
  assert (Hv : ∀ d, d ∈ filter (λ d, from_option (λ c, bool_decide (c ∈ [2; 3; 5; 7])) false
                                       (det_class_id d) = true) detections
               ↔ d ∈ detections ∧ ∃ c, det_class_id d = Some c ∧ c ∈ [2; 3; 5; 7]).
  { intros d. rewrite list_elem_of_filter. split.
    - intros [Hkeep Hd]. split; [done|]. destruct (det_class_id d) as [c|]; [|done].
      exists c. split; [done|]. by apply bool_decide_eq_true in Hkeep.
    - intros [Hd (c & -> & Hc)]. split; [|done]. by apply bool_decide_eq_true. }
  assert (Hp : ∀ d, d ∈ filter (λ d, from_option (λ c, c =? 0) false (det_class_id d) = true)
                          detections
               ↔ d ∈ detections ∧ det_class_id d = Some 0).
  { intros d. rewrite list_elem_of_filter. split.
    - intros [Hkeep Hd]. split; [done|]. destruct (det_class_id d) as [c|]; [|done].
      simpl in Hkeep. apply Z.eqb_eq in Hkeep. by subst c.
    - by intros [Hd ->]. }
  assert (Hl : ∀ d, d ∈ filter (λ d, from_option (λ c, c =? 9) false (det_class_id d) = true)
                          detections
               ↔ d ∈ detections ∧ det_class_id d = Some 9).
  { intros d. rewrite list_elem_of_filter. split.
    - intros [Hkeep Hd]. split; [done|]. destruct (det_class_id d) as [c|]; [|done].
      simpl in Hkeep. apply Z.eqb_eq in Hkeep. by subst c.
    - by intros [Hd ->]. }
  split; [exact Hv|]. split; [exact Hp|]. split; [exact Hl|].
  intros d. rewrite Hv, Hp, Hl. repeat split.
  - intros [[_ (c & Hc & Hin)] [_ Hc']]. rewrite Hc in Hc'. injection Hc' as ->.
    assert (Hno : 0 ∉ [2; 3; 5; 7]) by (apply (bool_decide_unpack _); vm_compute; exact I).
    done.
  - intros [[_ (c & Hc & Hin)] [_ Hc']]. rewrite Hc in Hc'. injection Hc' as ->.
    assert (Hno : 9 ∉ [2; 3; 5; 7]) by (apply (bool_decide_unpack _); vm_compute; exact I).
    done.
  - intros [[_ Hc] [_ Hc']]. congruence.
Qed.

Lemma class_filters_exclusive_witness :
  Forall (λ d, is_Some (det_class_id d)) [car_at 0 0; car_at 5 5]
  ∧ ObjectDetector.detect_vehicles (ObjectDetector.init true) [car_at 0 0; car_at 5 5]
    = inr [car_at 0 0; car_at 5 5]
  ∧ ObjectDetector.detect_persons (ObjectDetector.init true) [car_at 0 0; car_at 5 5]
    = inr [].
Proof.
  assert (Hclass : Forall (λ d, is_Some (det_class_id d)) [car_at 0 0; car_at 5 5])
    by (repeat constructor; eauto).
  split; [exact Hclass|].
  destruct (class_filters_exclusive true _ Hclass)
    as (vehicles & persons & lights & Hv & Hp & _).
  split.
  - rewrite Hv. vm_compute in Hv. by injection Hv as <-.
  - rewrite Hp. vm_compute in Hp. by injection Hp as <-.
Defined.

(** X12. Each class filter raises exactly when some detection carries no
    class id, and what it raises is a [KeyError]. *)
Theorem class_filters_raise_on_missing_class (self : ObjectDetector.t)
    (detections : list Detection) (e : exn) :
  (ObjectDetector.detect_vehicles self detections = inl e
   ↔ e = KeyError ∧ Exists (λ d, det_class_id d = None) detections)
  ∧ (ObjectDetector.detect_persons self detections = inl e
     ↔ e = KeyError ∧ Exists (λ d, det_class_id d = None) detections)
  ∧ (ObjectDetector.detect_traffic_lights self detections = inl e
     ↔ e = KeyError ∧ Exists (λ d, det_class_id d = None) detections).
Proof. split; [|split]; apply select_class_raises. Qed.

(** X13. [HelmetDetector.detect_helmets] answers for every tracked person,
    in order, that a helmet is worn: the helmeted ids that
    [detect_helmetless_riding] computes from it are the ids of all the
    riders, and no rider is flagged as helmetless. *)
Theorem detect_helmets_all_helmeted {Frame : Type} (frame : Frame)
    (rider_tracks : list Tracked) :
  person_id <$> filter (λ h, helmet_detected h = true) (detect_helmets frame rider_tracks)
    = trk_id <$> rider_tracks
  ∧ ∀ i, ¬ flagged_helmetless (detect_helmets frame rider_tracks) i.
Proof.
  split.
  - induction rider_tracks as [|r rest IH]; [done|].
    unfold detect_helmets in *. rewrite fmap_cons, filter_cons_True by done.
    rewrite !fmap_cons. simpl. by rewrite IH.
  - intros i (h & Hh & _ & Hoff). unfold detect_helmets in Hh.
    apply list_elem_of_fmap in Hh as (r & -> & _). done.
Qed.

(** ** The pipeline of main.py *)

Lemma vehicle_update_or_skip {Frame : Type} (vt : VehicleTracker.t)
    (vehicle_detections : list Detection) (frame : Frame) :
  match vehicle_detections with
  | [] => ([], vt)
  | _ :: _ => VehicleTracker.update vt vehicle_detections frame
  end
  = (assign_ids (VehicleTracker.next_id vt) vehicle_detections,
     {| VehicleTracker.tracked_vehicles := VehicleTracker.tracked_vehicles vt;
        VehicleTracker.next_id :=
          VehicleTracker.next_id vt + Z.of_nat (length vehicle_detections) |}).
Proof.
  destruct vehicle_detections as [|d ds]; [|apply vehicle_update_eq].
  destruct vt. simpl. by rewrite Z.add_0_r.
Qed.

Lemma rider_update_or_skip {Frame : Type} (rt : RiderTracker.t)
    (person_detections : list Detection) (frame : Frame) :
  match person_detections with
  | [] => ([], rt)
  | _ :: _ => RiderTracker.update rt person_detections frame
  end
  = (assign_ids (RiderTracker.next_id rt) person_detections,
     {| RiderTracker.tracked_riders := RiderTracker.tracked_riders rt;
        RiderTracker.next_id :=
          RiderTracker.next_id rt + Z.of_nat (length person_detections) |}).
Proof.
  destruct person_detections as [|d ds]; [|apply rider_update_eq].
  destruct rt. simpl. by rewrite Z.add_0_r.
Qed.

Section PipelineProperties.
Context {F : Type} `{Arith F}.
Hypothesis five_not_below_zero : fltb (F:=F) (of_int 5) (of_int 0) = false.
Implicit Types (self : TrafficViolationDetector (F:=F)) (w : World F).

(** The rules of a frame, on vehicles the estimator has not seen. *)
Lemma run_rules_step self (frame : VideoFrame) (vehicle_tracks : list Tracked)
    (lights : list Detection) (est : SpeedEstimator) w :
  NoDup (trk_id <$> vehicle_tracks) →
  (∀ v, v ∈ vehicle_tracks → previous_positions est !! trk_id v = None) →
  ∃ violations est' w',
    run_rules self frame vehicle_tracks lights (est, w) = inr (violations, (est', w'))
    ∧ Forall is_signal_jump violations
    ∧ (lights = [] → violations = [] ∧ w' = advance_clock w)
    ∧ (∀ v, v ∈ vehicle_tracks →
         is_Some (previous_positions est' !! trk_id v)
         ∧ is_Some (previous_times est' !! trk_id v))
    ∧ (∀ id, id ∉ trk_id <$> vehicle_tracks → agree_at id est est').
Proof.
  intros Hnd Hnew. unfold run_rules, bind. unfold on_snd at 1. unfold now. cbn [fst snd].
  destruct vehicle_tracks as [|v vs].
  - exists [], est, (advance_clock w). split.
    + by destruct lights.
    + split; [constructor|]. split; [done|]. split; [|done].
      intros v Hv. by apply elem_of_nil in Hv.
  - destruct lights as [|light lights'].
    + destruct (overspeeding_unseen_ids (violation_detector self) (v :: vs)
                  (clock_tape w (clock_calls w)) est (advance_clock w)
                  five_not_below_zero Hnd Hnew) as (est' & Hrun & Hrec & Hother).
      exists [], est', (advance_clock w). unfold ret at 1. rewrite Hrun.
      split; [done|]. split; [constructor|]. split; [done|]. split; [|done].
      intros v' Hv'. destruct (Hrec v' Hv') as [-> ->]. eauto.
    + destruct (signal_jump_events (violation_detector self) (v :: vs)
                  (Some (det_bbox light)) (frame_height frame / 2) (advance_clock w))
        as (evs & w2 & Hsignal & Hkind).
      destruct (overspeeding_unseen_ids (violation_detector self) (v :: vs)
                  (clock_tape w (clock_calls w)) est w2
                  five_not_below_zero Hnd Hnew) as (est' & Hrun & Hrec & Hother).
      exists evs, est', w2. unfold on_snd. cbn [fst snd]. rewrite Hsignal, Hrun.
      unfold ret. rewrite app_nil_r.
      split; [done|]. split; [done|]. split; [done|]. split; [|done].
      intros v' Hv'. destruct (Hrec v' Hv') as [-> ->]. eauto.
Qed.

(** One frame: what [process_frame] returns and what it leaves, on a
    detector whose estimator holds the ids the vehicle tracker has
    handed out so far. *)
Lemma process_frame_step self (detections : list Detection) (frame : VideoFrame) w :
  Forall (λ d, is_Some (det_class_id d)) detections →
  ObjectDetector.vehicle_classes (detector self) = [2; 3; 5; 7] →
  ObjectDetector.traffic_light_class (detector self) = 9 →
  0 ≤ VehicleTracker.next_id (vehicle_tracker self) →
  holds_ids (speed_estimator self) (VehicleTracker.next_id (vehicle_tracker self)) →
  ∃ violations vehicle_tracks rider_tracks self' w',
    process_frame self detections frame w
      = inr (violations, vehicle_tracks, rider_tracks, self', w')
    ∧ Forall is_signal_jump violations
    ∧ ((∀ d, d ∈ detections → det_class_id d ≠ Some 9) →
       violations = [] ∧ w' = advance_clock w)
    ∧ detector self' = detector self
    ∧ VehicleTracker.next_id (vehicle_tracker self')
      = VehicleTracker.next_id (vehicle_tracker self)
        + Z.of_nat (length (filter (λ d, is_vehicle d = true) detections))
    ∧ holds_ids (speed_estimator self') (VehicleTracker.next_id (vehicle_tracker self')).
Proof.
  intros Hclass Hvc Hlc Hn Hids. unfold process_frame.
  unfold ObjectDetector.detect_vehicles, ObjectDetector.detect_persons,
    ObjectDetector.detect_traffic_lights.
  rewrite !select_class_returns by done. rewrite Hvc, Hlc.
  change (filter (λ d, from_option (λ c, bool_decide (c ∈ [2; 3; 5; 7])) false
                         (det_class_id d) = true) detections)
    with (filter (λ d, is_vehicle d = true) detections).
  set (vds := filter (λ d, is_vehicle d = true) detections).
  set (lds := filter (λ d, from_option (λ c, c =? 9) false (det_class_id d) = true)
                detections).
  rewrite vehicle_update_or_skip, rider_update_or_skip.
  set (n := VehicleTracker.next_id (vehicle_tracker self)) in *.
  assert (Hnew : ∀ v, v ∈ assign_ids n vds →
                   previous_positions (speed_estimator self) !! trk_id v = None).
  { intros v Hv. apply eq_None_not_Some. intros Hsome.
    apply (Hids (trk_id v)) in Hsome.
    assert (Hin : trk_id v ∈ trk_id <$> assign_ids n vds) by (by apply list_elem_of_fmap_2).
    apply assign_ids_bounds in Hin. lia. }
  destruct (run_rules_step self frame (assign_ids n vds) lds (speed_estimator self) w
              (assign_ids_NoDup n vds) Hnew)
    as (violations & est' & w' & Hrun & Hkind & Hnolight & Hrec & Hother).
  rewrite Hrun. eexists _, _, _, _, _. split; [reflexivity|].
  split; [exact Hkind|]. split; [|split; [done|split; [done|]]].
  - intros Hno9. apply Hnolight. destruct lds as [|d lds'] eqn:Hlds; [done|].
    assert (Hd : d ∈ lds) by (rewrite Hlds; left).
    apply list_elem_of_filter in Hd as [Hkeep Hd]. destruct (Hno9 d Hd).
    destruct (det_class_id d) as [c|]; [|done]. simpl in Hkeep.
    apply Z.eqb_eq in Hkeep. by subst c.
  - simpl. intros id.
    destruct (decide (id ∈ trk_id <$> assign_ids n vds)) as [Hin|Hout].
    + pose proof (assign_ids_bounds _ _ _ Hin) as Hb.
      apply list_elem_of_fmap in Hin as (v & -> & Hv).
      destruct (Hrec v Hv) as [Hp Ht]. split; split; intros _; (done || lia).
    + destruct (Hother id Hout) as [Hp Ht]. rewrite <- Hp, <- Ht.
      rewrite assign_ids_ids, elem_of_seqZ in Hout.
      destruct (Hids id) as [Hpos Htime]. rewrite Hpos, Htime. split; lia.
Qed.

(** Any number of frames, from a detector that satisfies the invariant. *)
Lemma process_frames_inv self (frames : list (list Detection * VideoFrame)) w :
  frames_well_formed frames →
  ObjectDetector.vehicle_classes (detector self) = [2; 3; 5; 7] →
  ObjectDetector.traffic_light_class (detector self) = 9 →
  0 ≤ VehicleTracker.next_id (vehicle_tracker self) →
  holds_ids (speed_estimator self) (VehicleTracker.next_id (vehicle_tracker self)) →
  ∃ vss self' w',
    process_frames self frames w = inr (vss, self', w')
    ∧ length vss = length frames
    ∧ Forall (Forall is_signal_jump) vss
    ∧ VehicleTracker.next_id (vehicle_tracker self')
      = VehicleTracker.next_id (vehicle_tracker self) + vehicle_detection_count frames
    ∧ holds_ids (speed_estimator self') (VehicleTracker.next_id (vehicle_tracker self')).
Proof.
  intros Hwf. revert self w.
  induction Hwf as [|[detections frame] frames Hclass _ IH]; intros self w Hvc Hlc Hn Hids.
  - exists [], self, w. unfold vehicle_detection_count. simpl.
    rewrite Z.add_0_r. split; [done|]. split; [done|]. split; [constructor|]. done.
  - simpl in Hclass.
    destruct (process_frame_step self detections frame w Hclass Hvc Hlc Hn Hids)
      as (violations & vts & rts & self1 & w1 & Hstep & Hkind & _ & Hdet & Hnext & Hids1).
    destruct (IH self1 w1) as (vss & self2 & w2 & Hrest & Hlen & Hkinds & Hnext2 & Hids2);
      [by rewrite Hdet | by rewrite Hdet | lia | done |].
    exists (violations :: vss), self2, w2. cbn [process_frames]. unfold bind.
    rewrite Hstep. cbn. rewrite Hrest. cbn.
    split; [done|]. split; [by rewrite Hlen|]. split; [by constructor|].
    split; [|done]. rewrite Hnext2, Hnext. unfold vehicle_detection_count.
    rewrite fmap_cons. cbn [concat fst]. rewrite filter_app, length_app. lia.
Qed.

Lemma init_invariant (yolo_available : bool) :
  holds_ids (speed_estimator (TrafficViolationDetector_init (F:=F) yolo_available))
    (VehicleTracker.next_id
       (vehicle_tracker (TrafficViolationDetector_init (F:=F) yolo_available))).
Proof.
  intros id. simpl. rewrite !lookup_empty. split; split; (by intros [? ?]) || lia.
Qed.

(** X14. From a freshly built [TrafficViolationDetector], and for frames
    whose detections all carry a class id, detection, tracking and the
    rules raise nothing on any frame, and every violation they collect
    is a [signal_jump]: the speed rule never reports, because the tracker
    hands it ids the estimator has never seen. *)
Theorem pipeline_reports_signal_jumps_only (yolo_available : bool)
    (frames : list (list Detection * VideoFrame)) w :
  frames_well_formed frames →
  ∃ vss self' w',
    process_frames (TrafficViolationDetector_init yolo_available) frames w
      = inr (vss, self', w')
    ∧ length vss = length frames
    ∧ Forall (Forall is_signal_jump) vss.
Proof.
  intros Hwf.
  destruct (process_frames_inv (TrafficViolationDetector_init yolo_available) frames w Hwf)
    as (vss & self' & w' & Hrun & Hlen & Hkinds & _); [done | done | done | |].
  - apply init_invariant.
  - by exists vss, self', w'.
Qed.

(** X15. After any number of such frames the speed estimator holds a
    position and a time for exactly the ids 1 to N, N being the number of
    vehicle detections processed so far (which is also the vehicle
    tracker's counter): no entry is ever removed. *)
Theorem pipeline_estimator_holds_every_id (yolo_available : bool)
    (frames : list (list Detection * VideoFrame)) w :
  frames_well_formed frames →
  ∃ vss self' w',
    process_frames (TrafficViolationDetector_init yolo_available) frames w
      = inr (vss, self', w')
    ∧ VehicleTracker.next_id (vehicle_tracker self') = vehicle_detection_count frames
    ∧ holds_ids (speed_estimator self') (vehicle_detection_count frames).
Proof.
  intros Hwf.
  destruct (process_frames_inv (TrafficViolationDetector_init yolo_available) frames w Hwf)
    as (vss & self' & w' & Hrun & _ & _ & Hnext & Hids); [done | done | done | |].
  - apply init_invariant.
  - exists vss, self', w'. simpl in Hnext. rewrite Z.add_0_l in Hnext.
    split; [done|]. split; [done|]. by rewrite <- Hnext.
Qed.

(** X16. On a freshly built detector, a frame with no traffic light
    among its detections yields no violation at all, and the clock is
    read once. *)
Theorem frame_without_light_reports_nothing (yolo_available : bool)
    (detections : list Detection) (frame : VideoFrame) w :
  Forall (λ d, is_Some (det_class_id d)) detections →
  (∀ d, d ∈ detections → det_class_id d ≠ Some 9) →
  ∃ vehicle_tracks rider_tracks self',
    process_frame (TrafficViolationDetector_init yolo_available) detections frame w
      = inr ([], vehicle_tracks, rider_tracks, self', advance_clock w).
Proof.
  intros Hclass Hno9.
  destruct (process_frame_step (TrafficViolationDetector_init yolo_available)
              detections frame w Hclass)
    as (violations & vts & rts & self' & w' & Hstep & _ & Hnone & _);
    [done | done | done | apply init_invariant |].
  destruct (Hnone Hno9) as [-> ->]. by exists vts, rts, self'.
Qed.

End PipelineProperties.

Lemma pipeline_reports_signal_jumps_only_witness :
  fltb (F:=float) (of_int 5) (of_int 0) = false
  ∧ frames_well_formed two_frames
  ∧ (∃ vss self' w',
       process_frames (F:=float) (TrafficViolationDetector_init true) two_frames
         (constant_world 0x1.999999999999ap-4%float) = inr (vss, self', w')
       ∧ length vss = length two_frames
       ∧ Forall (Forall is_signal_jump) vss).
Proof.
  assert (H5 : fltb (F:=float) (of_int 5) (of_int 0) = false) by reflexivity.
  assert (Hwf : frames_well_formed two_frames) by (repeat constructor; eauto).
  split; [exact H5|]. split; [exact Hwf|].
  exact (pipeline_reports_signal_jumps_only (F:=float) H5 true two_frames
           (constant_world 0x1.999999999999ap-4%float) Hwf).
Defined.

Lemma pipeline_estimator_holds_every_id_witness :
  fltb (F:=float) (of_int 5) (of_int 0) = false
  ∧ frames_well_formed two_frames
  ∧ (∃ vss self' w',
       process_frames (F:=float) (TrafficViolationDetector_init true) two_frames
         (constant_world 0x1.999999999999ap-4%float) = inr (vss, self', w')
       ∧ VehicleTracker.next_id (vehicle_tracker self') = 3
       ∧ holds_ids (speed_estimator self') 3).
Proof.
  assert (H5 : fltb (F:=float) (of_int 5) (of_int 0) = false) by reflexivity.
  assert (Hwf : frames_well_formed two_frames) by (repeat constructor; eauto).
  split; [exact H5|]. split; [exact Hwf|].
  exact (pipeline_estimator_holds_every_id (F:=float) H5 true two_frames
           (constant_world 0x1.999999999999ap-4%float) Hwf).
Defined.

Lemma frame_without_light_reports_nothing_witness :
  fltb (F:=float) (of_int 5) (of_int 0) = false
  ∧ Forall (λ d, is_Some (det_class_id d)) [car_at 0 200; car_at 5 5]
  ∧ (∀ d, d ∈ [car_at 0 200; car_at 5 5] → det_class_id d ≠ Some 9)
  ∧ (∃ vehicle_tracks rider_tracks self',
       process_frame (F:=float) (TrafficViolationDetector_init true)
         [car_at 0 200; car_at 5 5] frame_640_480 (constant_world 0%float)
       = inr ([], vehicle_tracks, rider_tracks, self', advance_clock (constant_world 0%float))).
Proof.
  assert (H5 : fltb (F:=float) (of_int 5) (of_int 0) = false) by reflexivity.
  assert (Hclass : Forall (λ d, is_Some (det_class_id d)) [car_at 0 200; car_at 5 5])
    by (repeat constructor; eauto).
  assert (Hno9 : ∀ d, d ∈ [car_at 0 200; car_at 5 5] → det_class_id d ≠ Some 9).
  { intros d Hd. apply elem_of_cons in Hd as [->|Hd]; [done|].
    apply list_elem_of_singleton in Hd. by subst d. }
  split; [exact H5|]. split; [exact Hclass|]. split; [exact Hno9|].
  exact (frame_without_light_reports_nothing (F:=float) H5 true _ frame_640_480
           (constant_world 0%float) Hclass Hno9).
Defined.

(** ** File names: evidence.py writes them, dashboard.py reads them *)

Lemma is_digit_plain (c : ascii) : is_digit c → plain c.
Proof.
  unfold is_digit, plain. intros Hc.
  repeat (apply elem_of_cons in Hc as [->|Hc]; [by split|]).
  by apply elem_of_nil in Hc.
Qed.

Lemma string_of_uint_plain (d : Decimal.uint) :
  Forall plain (list_ascii_of_string (NilEmpty.string_of_uint d)).
Proof.
  induction d; simpl; constructor; try done; by split.
Qed.

Lemma str_of_int_plain (n : Z) : Forall plain (str_of_int n).
Proof.
  unfold str_of_int, NilZero.string_of_int, NilZero.string_of_uint.
  destruct (Z.to_int n) as [d|d].
  - destruct d; try apply string_of_uint_plain. simpl. constructor; [by split|constructor].
  - simpl. constructor; [by split|].
    destruct d; try apply string_of_uint_plain. simpl. constructor; [by split|constructor].
Qed.

(** A string without a dot, followed by [.jpg], loses the suffix and
    nothing else. *)
Lemma str_replace_suffix (b : list ascii) :
  Forall (λ c, c ≠ "."%char) b →
  str_replace (py_str ".jpg") [] (b ++ py_str ".jpg") = b.
Proof.
  unfold str_replace. induction 1 as [|c b Hc _ IH]; [reflexivity|].
  cbn [app replace_from]. replace (startswith (py_str ".jpg") (c :: b ++ py_str ".jpg"))
    with false; [by rewrite IH|].
  symmetry. cbn [py_str list_ascii_of_string startswith].
  apply andb_false_intro1. apply Ascii.eqb_neq. by apply not_eq_sym.
Qed.

Lemma str_split_nonempty (sep : ascii) (s : list ascii) : str_split sep s ≠ [].
Proof.
  destruct s as [|c s]; [done|]. simpl.
  destruct (Ascii.eqb c sep); [done|]. by destruct (str_split sep s).
Qed.

Lemma str_split_app (sep : ascii) (a b : list ascii) :
  str_split sep (a ++ sep :: b) = str_split sep a ++ str_split sep b.
Proof.
  induction a as [|c a IH].
  - simpl. by rewrite Ascii.eqb_refl.
  - cbn [app str_split]. rewrite IH. destruct (Ascii.eqb c sep); [done|].
    pose proof (str_split_nonempty sep a).
    by destruct (str_split sep a).
Qed.

Lemma str_split_whole (sep : ascii) (s : list ascii) :
  Forall (λ c, c ≠ sep) s → str_split sep s = [s].
Proof.
  induction 1 as [|c s Hc _ IH]; [done|].
  simpl. rewrite IH. by rewrite (proj2 (Ascii.eqb_neq c sep)).
Qed.

Lemma str_join_cons (sep part : list ascii) (parts : list (list ascii)) :
  parts ≠ [] → str_join sep (part :: parts) = part ++ sep ++ str_join sep parts.
Proof. by destruct parts. Qed.

Lemma str_join_head (sep : list ascii) (c : ascii) (part : list ascii)
    (parts : list (list ascii)) :
  str_join sep ((c :: part) :: parts) = c :: str_join sep (part :: parts).
Proof. by destruct parts. Qed.

(** Joining what a split returned gives the string back. *)
Lemma str_join_split (sep : ascii) (s : list ascii) :
  str_join [sep] (str_split sep s) = s.
Proof.
  induction s as [|c s IH]; [done|].
  cbn [str_split]. destruct (Ascii.eqb c sep) eqn:Hc.
  - apply Ascii.eqb_eq in Hc as ->.
    rewrite str_join_cons by apply str_split_nonempty. by rewrite IH.
  - pose proof (str_split_nonempty sep s).
    destruct (str_split sep s) as [|part parts]; [done|].
    by rewrite str_join_head, IH.
Qed.

Lemma str_split_length (sep : ascii) (s : list ascii) :
  length (str_split sep s) = S (length (filter (λ c, c = sep) s)).
Proof.
  induction s as [|c s IH]; [done|].
  cbn [str_split]. destruct (Ascii.eqb c sep) eqn:Hc.
  - apply Ascii.eqb_eq in Hc as ->. rewrite filter_cons_True by done. simpl. by rewrite IH.
  - apply Ascii.eqb_neq in Hc. rewrite filter_cons_False by done.
    pose proof (str_split_nonempty sep s).
    destruct (str_split sep s) as [|part parts]; [done|]. simpl in *. by rewrite <- IH.
Qed.

(** X17. The file name [generate_evidence] builds is read back by
    [load_evidence]: for a violation type without a dot (it may contain
    underscores, as [signal_jump] does), an integer id and a timestamp
    made of a run of digits, an underscore and a run of digits, the parse
    returns the type, the id in decimal, the timestamp string, and the
    plate ['LP-'] followed by the id. *)
Theorem evidence_filename_round_trip (vtype : list ascii) (vehicle_id : Z)
    (date time : list ascii) :
  Forall (λ c, c ≠ "."%char) vtype →
  Forall is_digit date →
  Forall is_digit time →
  parse_filename (image_filename vtype vehicle_id (date ++ py_str "_" ++ time))
  = Some {| parsed_violation_type := vtype;
            parsed_vehicle_id := str_of_int vehicle_id;
            parsed_timestamp_str := date ++ py_str "_" ++ time;
            parsed_license_plate := py_str "LP-" ++ str_of_int vehicle_id |}.
Proof.
  intros Htype Hdate Htime.
  pose proof (str_of_int_plain vehicle_id) as Hid.
  assert (Hdate' : Forall plain date) by (eapply Forall_impl; [done|apply is_digit_plain]).
  assert (Htime' : Forall plain time) by (eapply Forall_impl; [done|apply is_digit_plain]).
  unfold parse_filename, image_filename.
  change (py_str "_") with ["_"%char].
  replace (vtype ++ ["_"%char] ++ str_of_int vehicle_id ++ ["_"%char]
           ++ (date ++ ["_"%char] ++ time) ++ py_str ".jpg")
    with ((vtype ++ "_"%char :: str_of_int vehicle_id ++ "_"%char :: date
           ++ "_"%char :: time) ++ py_str ".jpg")
    by reassoc.
  rewrite str_replace_suffix.
  2:{ assert (Hdot : ∀ l, Forall plain l → Forall (λ c, c ≠ "."%char) l)
        by (intros l Hl; eapply Forall_impl; [exact Hl|]; by intros c [_ ?]).
      apply Forall_app; split; [done|]. constructor; [done|].
      apply Forall_app; split; [by apply Hdot|]. constructor; [done|].
      apply Forall_app; split; [by apply Hdot|]. constructor; [done|]. by apply Hdot. }
  rewrite str_split_app.
  replace (str_of_int vehicle_id ++ "_"%char :: date ++ "_"%char :: time)
    with ((str_of_int vehicle_id ++ "_"%char :: date) ++ "_"%char :: time)
    by reassoc.
  rewrite str_split_app, str_split_app.
  rewrite (str_split_whole _ (str_of_int vehicle_id)),
    (str_split_whole _ date), (str_split_whole _ time);
    try (eapply Forall_impl; [done|]; by intros c [? _]).
  set (head := str_split "_"%char vtype).
  assert (Hlen : length (head ++ ([str_of_int vehicle_id] ++ [date]) ++ [time])
                 = (length head + 3)%nat) by (rewrite !length_app; simpl; lia).
  rewrite Hlen. rewrite (proj2 (Nat.leb_le 4 _)).
  2:{ pose proof (str_split_nonempty "_"%char vtype). fold head in H.
      destruct head; [done|]. simpl. lia. }
  replace (length head + 3 - 3)%nat with (length head) by lia.
  replace (length head + 3 - 2)%nat with (length head + 1)%nat by lia.
  replace (length head + 3 - 1)%nat with (length head + 2)%nat by lia.
  rewrite <- !app_assoc. cbn [app].
  rewrite take_app_length.
  rewrite (list_lookup_total_middle head _ _ (length head)) by done.
  replace (head ++ str_of_int vehicle_id :: date :: [time])
    with ((head ++ [str_of_int vehicle_id]) ++ date :: [time]) at 1
    by reassoc.
  rewrite (list_lookup_total_middle _ _ _ (length head + 1)) by (rewrite length_app; simpl; lia).
  replace (head ++ str_of_int vehicle_id :: date :: [time])
    with ((head ++ [str_of_int vehicle_id; date]) ++ time :: [])
    by reassoc.
  rewrite (list_lookup_total_middle _ _ _ (length head + 2)) by (rewrite length_app; simpl; lia).
  unfold head. change (py_str "_") with ["_"%char]. by rewrite str_join_split.
Qed.

(** The name written for a [signal_jump] of vehicle 12 is read back. *)
Lemma evidence_filename_round_trip_witness :
  Forall (λ c, c ≠ "."%char) (violation_type (F:=float) (signal_jump 12 0 (0, 0, 0, 0)))
  ∧ Forall is_digit (py_str "20240101")
  ∧ Forall is_digit (py_str "120000")
  ∧ evidence_image_filename (F:=float) (signal_jump 12 0 (0, 0, 0, 0))
      (py_str "20240101_120000")
    = py_str "signal_jump_12_20240101_120000.jpg"
  ∧ parse_filename (py_str "signal_jump_12_20240101_120000.jpg")
    = Some {| parsed_violation_type := py_str "signal_jump";
              parsed_vehicle_id := py_str "12";
              parsed_timestamp_str := py_str "20240101_120000";
              parsed_license_plate := py_str "LP-12" |}.
Proof.
  assert (H1 : Forall (λ c, c ≠ "."%char)
                 (violation_type (F:=float) (signal_jump 12 0 (0, 0, 0, 0))))
    by (apply (bool_decide_unpack _); vm_compute; exact I).
  assert (H2 : Forall is_digit (py_str "20240101"))
    by (apply (bool_decide_unpack _); vm_compute; exact I).
  assert (H3 : Forall is_digit (py_str "120000"))
    by (apply (bool_decide_unpack _); vm_compute; exact I).
  split; [exact H1|]. split; [exact H2|]. split; [exact H3|]. split; [reflexivity|].
  exact (evidence_filename_round_trip _ 12 _ _ H1 H2 H3).
Defined.

(** X18. [load_evidence] skips a file exactly when its name, with every
    [.jpg] removed, has fewer than three underscores. *)
Theorem parse_filename_skips_short_names (filename : list ascii) :
  parse_filename filename = None
  ↔ (underscores (str_replace (py_str ".jpg") [] filename) < 3)%nat.
Proof.
  unfold parse_filename, underscores. rewrite str_split_length.
  destruct (4 <=? _)%nat eqn:Hlen.
  - apply Nat.leb_le in Hlen. split; [done|]. lia.
  - apply Nat.leb_gt in Hlen. split; [|done]. lia.
Qed.

(** ** The evidence manager *)

Lemma insert_desc_Permutation {A : Type} (key : A → Z) (x : A) (l : list A) :
  insert_desc key x l ≡ₚ x :: l.
Proof.
  induction l as [|y l IH]; [done|]. simpl.
  destruct (key x <? key y); [|done]. rewrite IH. apply Permutation_swap.
Qed.

Lemma sorted_desc_Permutation {A : Type} (key : A → Z) (l : list A) :
  sorted_desc key l ≡ₚ l.
Proof.
  induction l as [|x l IH]; [done|]. simpl.
  by rewrite insert_desc_Permutation, IH.
Qed.

Lemma insert_desc_sorted {A : Type} (key : A → Z) (x : A) (l : list A) :
  StronglySorted (λ a b, key b ≤ key a) l →
  StronglySorted (λ a b, key b ≤ key a) (insert_desc key x l).
Proof.
  induction 1 as [|y l Hl IH Hy]; simpl.
  - repeat constructor.
  - destruct (key x <? key y) eqn:Hxy.
    + apply Z.ltb_lt in Hxy. constructor; [done|].
      rewrite insert_desc_Permutation. constructor; [lia|done].
    + apply Z.ltb_ge in Hxy. constructor; [by constructor|].
      constructor; [done|]. eapply Forall_impl; [done|]. simpl. lia.
Qed.

Lemma sorted_desc_sorted {A : Type} (key : A → Z) (l : list A) :
  StronglySorted (λ a b, key b ≤ key a) (sorted_desc key l).
Proof.
  induction l as [|x l IH]; [constructor|]. simpl. by apply insert_desc_sorted.
Qed.

(** Entries with the same key come out in the order they went in. *)
Lemma insert_desc_stable {A : Type} (key : A → Z) (k : Z) (x : A) (l : list A) :
  StronglySorted (λ a b, key b ≤ key a) l →
  filter (λ a, key a = k) (insert_desc key x l) = filter (λ a, key a = k) (x :: l).
Proof.
  induction 1 as [|y l Hl IH Hy]; [done|]. simpl.
  destruct (key x <? key y) eqn:Hxy; [|done].
  apply Z.ltb_lt in Hxy.
  destruct (decide (key y = k)) as [Hyk|Hyk].
  - rewrite (filter_cons_True _ y) by done. rewrite IH.
    rewrite (filter_cons_False _ x) by lia.
    rewrite (filter_cons_False _ x) by lia. by rewrite filter_cons_True.
  - rewrite (filter_cons_False _ y) by done. rewrite IH.
    destruct (decide (key x = k)).
    + rewrite !(filter_cons_True _ x) by done. by rewrite filter_cons_False.
    + rewrite !(filter_cons_False _ x) by done. by rewrite filter_cons_False.
Qed.

Lemma sorted_desc_stable {A : Type} (key : A → Z) (k : Z) (l : list A) :
  filter (λ a, key a = k) (sorted_desc key l) = filter (λ a, key a = k) l.
Proof.
  induction l as [|x l IH]; [done|]. simpl.
  rewrite insert_desc_stable by apply sorted_desc_sorted.
  destruct (decide (key x = k)).
  - rewrite !filter_cons_True by done. by rewrite IH.
  - rewrite !filter_cons_False by done. by rewrite IH.
Qed.

(** X19. [get_recent_violations] returns the entries with the greatest
    timestamps, newest first: for a limit that is not negative it returns
    [min(limit, n)] of the [n] entries (for a negative limit, all but the
    [-limit] oldest); the result is sorted by decreasing timestamp;
    together with the entries left out it is a rearrangement of the
    evidence list; and no entry left out is newer than an entry
    returned. *)
Theorem get_recent_violations_newest_first (self : EvidenceManager.t) (limit : Z) :
  let recent := EvidenceManager.get_recent_violations self limit in
  let n := length (EvidenceManager.evidence_list self) in
  length recent = (if 0 <=? limit then (Z.to_nat limit `min` n)%nat
                   else (n - Z.to_nat (- limit))%nat)
  ∧ StronglySorted (λ a b, ev_timestamp b ≤ ev_timestamp a) recent
  ∧ ∃ older,
      recent ++ older ≡ₚ EvidenceManager.evidence_list self
      ∧ ∀ a b, a ∈ recent → b ∈ older → ev_timestamp b ≤ ev_timestamp a.
Proof.
  intros recent n. subst recent n.
  unfold EvidenceManager.get_recent_violations, slice_to.
  set (l := EvidenceManager.evidence_list self).
  set (sorted := sorted_desc ev_timestamp l).
  assert (Hlen : length sorted = length l)
    by (apply Permutation_length, sorted_desc_Permutation).
  assert (Hsorted : StronglySorted (λ a b, ev_timestamp b ≤ ev_timestamp a) sorted)
    by apply sorted_desc_sorted.
  assert (Hgen : ∀ k,
            StronglySorted (λ a b, ev_timestamp b ≤ ev_timestamp a) (take k sorted)
            ∧ ∃ older, take k sorted ++ older ≡ₚ l
                       ∧ ∀ a b, a ∈ take k sorted → b ∈ older →
                                ev_timestamp b ≤ ev_timestamp a).
  { intros k. rewrite <- (take_drop k sorted) in Hsorted. split.
    - by apply StronglySorted_app_1_l in Hsorted.
    - exists (drop k sorted). split.
      + rewrite take_drop. apply sorted_desc_Permutation.
      + intros a b Ha Hb. by apply (StronglySorted_app_1_elem_of _ _ _ a b Hsorted). }
  destruct (0 <=? limit).
  - split; [by rewrite length_take, Hlen | apply Hgen].
  - split; [rewrite length_take, Hlen; lia | apply Hgen].
Qed.

(** X20. In what [get_recent_violations] sorts, entries with the same
    timestamp keep the order in which [add_evidence] appended them: with
    a limit at least the number of entries, the entries of any given
    timestamp come out in their order in the evidence list. *)
Theorem get_recent_violations_stable (self : EvidenceManager.t) (limit t : Z) :
  Z.of_nat (length (EvidenceManager.evidence_list self)) ≤ limit →
  filter (λ e, ev_timestamp e = t) (EvidenceManager.get_recent_violations self limit)
  = filter (λ e, ev_timestamp e = t) (EvidenceManager.evidence_list self).
Proof.
  intros Hlimit. unfold EvidenceManager.get_recent_violations, slice_to.
  rewrite (proj2 (Z.leb_le 0 limit)) by lia.
  rewrite take_ge.
  - apply sorted_desc_stable.
  - rewrite (Permutation_length (sorted_desc_Permutation _ _)). lia.
Qed.

Lemma get_recent_violations_stable_witness :
  let self :=
    EvidenceManager.add_evidence
      (EvidenceManager.add_evidence
         (EvidenceManager.add_evidence EvidenceManager.init
            {| ev_violation_type := py_str "signal_jump"; ev_timestamp := 5;
               ev_image_path := []; ev_clip_path := []; ev_license_plate := [];
               ev_bbox := (0, 0, 0, 0) |})
         (evidence_at 9))
      (evidence_at 5) in
  Z.of_nat (length (EvidenceManager.evidence_list self)) ≤ 10
  ∧ ev_violation_type <$> filter (λ e, ev_timestamp e = 5)
                            (EvidenceManager.get_recent_violations self 10)
    = [py_str "signal_jump"; py_str "overspeeding"].
Proof.
  intros self.
  assert (Hlimit : Z.of_nat (length (EvidenceManager.evidence_list self)) ≤ 10)
    by (vm_compute; discriminate).
  split; [exact Hlimit|].
  by rewrite (get_recent_violations_stable self 10 5 Hlimit).
Defined.
